(** * OpenTTD tile-map core: directions, tile areas and terraforming

    A shallow embedding of the parts of [direction_func.h], [map_func.h],
    [tilearea_type.h], [tilearea.cpp] and [terraform_cmd.cpp] that the
    specification speaks about, and of [road_func.h] and the item lists of
    [clipboard.cpp], together with the properties proved of them.

    Conventions.
    - C++ integers are carried as [Z]; every conversion to a fixed-width type
      that the source performs (a cast, an assignment to a narrower field,
      unsigned arithmetic) is written out with [uint32], [int32], [uint16],
      [int16].
    - Enumerations are carried by their integer value, as the source computes
      with them by bit operations.
    - [assert] is a debug-build check: a function of the embedding gives the
      value the source computes, and the asserted condition appears as a
      hypothesis of the theorems it bears on.  Where a function asserts, by
      itself or through a function it calls, on a value that it has computed
      or found, the run of a build with assertions is embedded beside it
      (names in [_asserting]), with [None] for the abort of a failed
      assertion. *)

From Stdlib Require Import ZArith Lia List Bool.
From stdpp Require Import gmap.
Import ListNotations.

Local Open Scope Z_scope.

(** ** Fixed-width integers and the helpers of [core/math_func.hpp] *)

Module Int.

Definition uint32 (z : Z) : Z := z mod 2 ^ 32.
Definition uint16 (z : Z) : Z := z mod 2 ^ 16.

(** Two's complement reading of the low [w] bits. *)
Definition signed (w : Z) (z : Z) : Z :=
  let r := z mod 2 ^ w in
  if r <? 2 ^ (w - 1) then r else r - 2 ^ w.

Definition int32 (z : Z) : Z := signed 32 z.
Definition int16 (z : Z) : Z := signed 16 z.

Definition INT32_MAX : Z := 2 ^ 31 - 1.
Definition INT16_MAX : Z := 2 ^ 15 - 1.
Definition INT16_MIN : Z := - 2 ^ 15.

(** Modelled from the spec: [core/bitmath_func.hpp] and [core/math_func.hpp]
    are not among the sources; [GB], [IsInsideMM], [IsInsideBS], [Delta] and
    [Clamp] follow the way the sources use them: the fetch of [n] bits at
    bit [s], the tests of membership in [[lo, hi)] and in [[base, base + size)],
    the absolute difference and the clamp into [[lo, hi]]. *)
Definition GB (x s n : Z) : Z := Z.land (Z.shiftr x s) (Z.ones n).

Definition IsInsideMM (x lo hi : Z) : bool := (lo <=? x) && (x <? hi).
Definition IsInsideBS (x base size : Z) : bool := (base <=? x) && (x <? base + size).
Definition Delta (a b : Z) : Z := if a <? b then b - a else a - b.
Definition Clamp (a lo hi : Z) : Z := if a <=? lo then lo else if a >=? hi then hi else a.

End Int.

(** ** Directions and direction transformations ([direction_func.h]) *)

Module Direction.
Import Int.

(** Modelled from the spec: [direction_type.h] is not among the sources.  The
    8-way compass values are numbered clockwise from north, and a
    [DirTransformation] is the bit pattern [irr] that the comment of
    [CombineDirTransform] describes: [rr] counts the 90-degree clockwise
    rotations, [i] is the reflection bit. *)
Definition DIR_N : Z := 0.
Definition DIR_NE : Z := 1.
Definition DIR_E : Z := 2.
Definition DIR_SE : Z := 3.
Definition DIR_S : Z := 4.
Definition DIR_SW : Z := 5.
Definition DIR_W : Z := 6.
Definition DIR_NW : Z := 7.
Definition DIR_END : Z := 8.

Definition AXIS_X : Z := 0.
Definition AXIS_Y : Z := 1.

Definition DTR_BEGIN : Z := 0.
Definition DTR_IDENTITY : Z := 0.
Definition DTR_ROTATE_90_R : Z := 1.
Definition DTR_ROTATE_180 : Z := 2.
Definition DTR_ROTATE_90_L : Z := 3.
Definition DTR_REFLECT_NE_SW : Z := 4.
Definition DTR_REFLECT_W_E : Z := 5.
Definition DTR_REFLECT_NW_SE : Z := 6.
Definition DTR_REFLECT_N_S : Z := 7.
Definition DTR_END : Z := 8.
Definition DTR_ROTATION_MASK : Z := 3.
Definition DTR_REFLECTION_BIT : Z := 4.

Definition all_directions : list Z := [0; 1; 2; 3; 4; 5; 6; 7].
Definition all_transformations : list Z := [0; 1; 2; 3; 4; 5; 6; 7].

Definition IsValidDirection (d : Z) : bool := (0 <=? d) && (d <? DIR_END).

Definition IsValidDirTransform (transformation : Z) : bool :=
  IsInsideMM transformation DTR_BEGIN DTR_END.

(** [(Direction)((uint)(d + delta) % 8)] *)
Definition ChangeDir (d delta : Z) : Z := uint32 (d + delta) mod 8.

(** The C++ truth value of [transformation & DTR_REFLECTION_BIT]. *)
Definition reflects (transformation : Z) : bool :=
  negb (Z.land transformation DTR_REFLECTION_BIT =? 0).

Definition CombineDirTransform (a b : Z) : Z :=
  Z.lor (Z.land (Z.lxor a b) DTR_REFLECTION_BIT)
        (Z.land (if reflects b then b - a else b + a) DTR_ROTATION_MASK).

Definition InvertDirTransform (transformation : Z) : Z :=
  if reflects transformation then transformation
  else Z.land (- transformation) DTR_ROTATION_MASK.

Definition TransformAxis (axis transformation : Z) : Z :=
  Z.lxor axis (Z.land transformation 1).

(** [TransformDir] where assertions are compiled out: the value of the
    arithmetic, whatever the reflected direction is. *)
Definition TransformDir (direction transformation : Z) : Z :=
  let direction :=
    if reflects transformation then 2 * DIR_NE - direction else direction in
  ChangeDir direction (2 * transformation).

(** [ChangeDir] in a build with assertions: it starts with
    [assert(IsValidDirection(d))]. *)
Definition ChangeDir_asserting (d delta : Z) : option Z :=
  if IsValidDirection d then Some (ChangeDir d delta) else None.

(** [TransformDir] in a build with assertions: the reflected direction
    [2 * DIR_NE - direction] is what [ChangeDir] asserts on. *)
Definition TransformDir_asserting (direction transformation : Z) : option Z :=
  let direction :=
    if reflects transformation then 2 * DIR_NE - direction else direction in
  ChangeDir_asserting direction (2 * transformation).

(** The composition the specification warns against: rotations always added,
    whatever the reflection bit of the second operand. *)
Definition NaiveCombine (a b : Z) : Z :=
  Z.lor (Z.land (Z.lxor a b) DTR_REFLECTION_BIT)
        (Z.land (b + a) DTR_ROTATION_MASK).

End Direction.


(** ** Maps and tile indices ([map_func.h]) *)

Module TileMap.
Import Int Direction.

(** Modelled from the spec: [map_type.h] and [tile_type.h] are not among the
    sources.  A [Map] is a grid of [map_size_x] by [map_size_y] tiles (its
    [size] is the product), a generic tile index is a raw index together with
    the map it belongs to (a pointer, possibly null), a [TileIndexDiffC] is a
    pair of 16-bit offsets and a [TileTransformation] is a direction
    transformation with such an offset. *)
Record Map : Type := mkMap { map_size_x : Z; map_size_y : Z }.

Record GenericTileIndex : Type := mkTile { IndexOf : Z; MapOf : option Map }.

Record TileIndexDiffC : Type := mkDiffC { diff_x : Z; diff_y : Z }.

Record TileTransformation : Type := mkTransformation { dtr : Z; offset : TileIndexDiffC }.

Definition INVALID_TILE_INDEX : Z := 2 ^ 32 - 1.

Definition MapSizeX (map : option Map) : Z :=
  match map with Some m => map_size_x m | None => 0 end.

Definition MapSizeY (map : option Map) : Z :=
  match map with Some m => map_size_y m | None => 0 end.

Definition MapSize (map : option Map) : Z := MapSizeX map * MapSizeY map.

Definition MapMaxX (map : option Map) : Z := uint32 (MapSizeX map - 1).
Definition MapMaxY (map : option Map) : Z := uint32 (MapSizeY map - 1).

Definition IsValidTileIndex (tile : GenericTileIndex) : bool :=
  match MapOf tile with
  | None => false
  | Some _ => IndexOf tile <? MapSize (MapOf tile)
  end.

Definition IsSameMap (a b : GenericTileIndex) : Prop := MapOf a = MapOf b.

(** [TileXY<true>]; on the main map, whose width is [1 << MapLogX()],
    [TileXY<false>] computes the same index with a shift. *)
Definition TileXY (x y : Z) (map : option Map) : GenericTileIndex :=
  mkTile (uint32 (y * MapSizeX map + x)) map.

Definition TileDiffXY (x y : Z) (map : option Map) : Z :=
  int32 (uint32 (y * MapSizeX map + x)).

Definition TileX (tile : GenericTileIndex) : Z := IndexOf tile mod MapSizeX (MapOf tile).
Definition TileY (tile : GenericTileIndex) : Z := IndexOf tile / MapSizeX (MapOf tile).

Definition SetIndexOf (tile : GenericTileIndex) (index : Z) : GenericTileIndex :=
  mkTile index (MapOf tile).

(** The bit arrays [DIFF_X] and [DIFF_Y] of [TransformedNorthCornerDiffC]. *)
Definition DIFF_X : Z :=
  fold_right Z.lor 0
    [ Z.shiftl 0 DTR_IDENTITY; Z.shiftl 0 DTR_ROTATE_90_R; Z.shiftl 1 DTR_ROTATE_180;
      Z.shiftl 1 DTR_ROTATE_90_L; Z.shiftl 0 DTR_REFLECT_NE_SW; Z.shiftl 1 DTR_REFLECT_W_E;
      Z.shiftl 1 DTR_REFLECT_NW_SE; Z.shiftl 0 DTR_REFLECT_N_S ].

Definition DIFF_Y : Z :=
  fold_right Z.lor 0
    [ Z.shiftl 0 DTR_IDENTITY; Z.shiftl 1 DTR_ROTATE_90_R; Z.shiftl 1 DTR_ROTATE_180;
      Z.shiftl 0 DTR_ROTATE_90_L; Z.shiftl 1 DTR_REFLECT_NE_SW; Z.shiftl 1 DTR_REFLECT_W_E;
      Z.shiftl 0 DTR_REFLECT_NW_SE; Z.shiftl 0 DTR_REFLECT_N_S ].

Definition TransformedNorthCornerDiffC (transformation : Z) : TileIndexDiffC :=
  mkDiffC (int16 (GB DIFF_X transformation 1)) (int16 (GB DIFF_Y transformation 1)).

End TileMap.

(** ** Tile areas ([tilearea_type.h], [tilearea.cpp]) *)

Module TileArea.
Import Int Direction TileMap.

(** [OrthogonalTileAreaT]: a base tile and 16-bit extents.  The template
    parameter only chooses where the map of a tile comes from: with
    [Tgeneric = false] every tile carries the main map. *)
Record OrthogonalTileArea : Type := mkArea { tile : GenericTileIndex; w : Z; h : Z }.

(** [OrthogonalTileAreaT(start, end)] *)
Definition OrthogonalTileArea_of_corners (start end_ : GenericTileIndex) : OrthogonalTileArea :=
  let sx := TileX start in
  let sy := TileY start in
  let ex := TileX end_ in
  let ey := TileY end_ in
  let '(sx, ex) := if sx >? ex then (ex, sx) else (sx, ex) in
  let '(sy, ey) := if sy >? ey then (ey, sy) else (sy, ey) in
  mkArea (TileXY sx sy (MapOf start))
         (uint16 (uint32 (ex - sx + 1))) (uint16 (uint32 (ey - sy + 1))).

Definition Clear (ta : OrthogonalTileArea) : OrthogonalTileArea :=
  mkArea (SetIndexOf (tile ta) INVALID_TILE_INDEX) 0 0.

Definition Add (ta : OrthogonalTileArea) (to_add : GenericTileIndex) : OrthogonalTileArea :=
  if negb (IsValidTileIndex (tile ta)) then mkArea to_add 1 1
  else
    let sx := TileX (tile ta) in
    let sy := TileY (tile ta) in
    let ex := uint32 (sx + w ta - 1) in
    let ey := uint32 (sy + h ta - 1) in
    let ax := TileX to_add in
    let ay := TileY to_add in
    let sx := Z.min ax sx in
    let sy := Z.min ay sy in
    let ex := Z.max ax ex in
    let ey := Z.max ay ey in
    mkArea (TileXY sx sy (MapOf to_add))
           (uint16 (uint32 (ex - sx + 1))) (uint16 (uint32 (ey - sy + 1))).

(** [Contains(const OrthogonalTileAreaT &)] *)
Definition ContainsArea (this ta : OrthogonalTileArea) : bool :=
  if (w ta =? 0) || (w this =? 0) then false
  else
    let left1 := TileX (tile this) in
    let top1 := TileY (tile this) in
    let right1 := uint32 (left1 + w this - 1) in
    let bottom1 := uint32 (top1 + h this - 1) in
    let left2 := TileX (tile ta) in
    let top2 := TileY (tile ta) in
    let right2 := uint32 (left2 + w ta - 1) in
    let bottom2 := uint32 (top2 + h ta - 1) in
    (left2 >=? left1) && (right2 <=? right1) && (top2 >=? top1) && (bottom2 <=? bottom1).

(** [Contains(TileIndexType)] *)
Definition Contains (this : OrthogonalTileArea) (t : GenericTileIndex) : bool :=
  if w this =? 0 then false
  else
    let left := TileX (tile this) in
    let top := TileY (tile this) in
    let tile_x := TileX t in
    let tile_y := TileY t in
    IsInsideBS tile_x left (w this) && IsInsideBS tile_y top (h this).

(** [Expand(rad)].  [MapSizeX()] and [MapSizeY()] are called without an
    argument, so they are the sizes of the main map, which the embedding takes
    as [main_map]; the new base is built on the map of the area's own tile. *)
Definition Expand (main_map : Map) (this : OrthogonalTileArea) (rad : Z) : OrthogonalTileArea :=
  let x := int32 (TileX (tile this)) in
  let y := int32 (TileY (tile this)) in
  let sx := Z.max (int32 (x - rad)) 0 in
  let sy := Z.max (int32 (y - rad)) 0 in
  let ex := Z.min (int32 (x + w this + rad)) (int32 (MapSizeX (Some main_map))) in
  let ey := Z.min (int32 (y + h this + rad)) (int32 (MapSizeY (Some main_map))) in
  mkArea (TileXY sx sy (MapOf (tile this)))
         (uint16 (int32 (ex - sx))) (uint16 (int32 (ey - sy))).

(** [ClampToMap()], which asks the map of the area's own tile for its sizes. *)
Definition ClampToMap (this : OrthogonalTileArea) : OrthogonalTileArea :=
  mkArea (tile this)
         (uint16 (Z.min (w this) (uint32 (MapSizeX (MapOf (tile this)) - TileX (tile this)))))
         (uint16 (Z.min (h this) (uint32 (MapSizeY (MapOf (tile this)) - TileY (tile this))))).

(** The area that the specification describes for [Expand]: every bound
    clamped to the grid the area itself lies on. *)
Definition ExpandedOnOwnGrid (this : OrthogonalTileArea) (rad : Z) : OrthogonalTileArea :=
  let x := TileX (tile this) in
  let y := TileY (tile this) in
  let sx := Z.max (x - rad) 0 in
  let sy := Z.max (y - rad) 0 in
  let ex := Z.min (x + w this + rad) (MapSizeX (MapOf (tile this))) in
  let ey := Z.min (y + h this + rad) (MapSizeY (MapOf (tile this))) in
  mkArea (TileXY sx sy (MapOf (tile this))) (ex - sx) (ey - sy).

Section Transformations.

(** [TransformationBetweenTiles] is defined in [map.cpp], which is not among
    the sources; the functions below are given for any such function. *)
Variable TransformationBetweenTiles : Z -> Z -> Z -> Z -> Z -> TileTransformation.

(** The condition asserted on entry of [TransformationBetweenTileAreas]. *)
Definition extents_agree (from to : OrthogonalTileArea) (dtr : Z) : bool :=
  if TransformAxis AXIS_X dtr =? AXIS_X
  then (w from =? w to) && (h from =? h to)
  else (w from =? h to) && (h from =? w to).

Definition TransformationBetweenTileAreas (from to : OrthogonalTileArea) (dtr : Z)
  : TileTransformation :=
  let dir := TransformedNorthCornerDiffC dtr in
  TransformationBetweenTiles
    (int32 (TileX (tile from)))
    (int32 (TileY (tile from)))
    (int32 (uint32 (TileX (tile to) + int32 ((w to - 1) * diff_x dir))))
    (int32 (uint32 (TileY (tile to) + int32 ((h to - 1) * diff_y dir))))
    dtr.

Definition TransformationBetweenTileAreaCorners (from to : OrthogonalTileArea) (dtr : Z)
  : TileTransformation :=
  let ret := TransformationBetweenTileAreas from to dtr in
  let extra := TransformedNorthCornerDiffC dtr in
  mkTransformation (TileMap.dtr ret)
    (mkDiffC (int16 (diff_x (offset ret) + diff_x extra))
             (int16 (diff_y (offset ret) + diff_y extra))).

End Transformations.

End TileArea.

(** ** Diagonal tile areas and their iterator ([tilearea_type.h], [tilearea.cpp]) *)

Module Diagonal.
Import Int TileMap.

(** [DiagonalTileAreaT]: a base tile and signed 16-bit extents along the two
    diagonals. *)
Record DiagonalTileArea : Type := mkDiagonal { tile : GenericTileIndex; a : Z; b : Z }.

(** [DiagonalTileAreaT(start, end)] *)
Definition DiagonalTileArea_of_corners (start end_ : GenericTileIndex) : DiagonalTileArea :=
  let a := int16 (uint32 (TileY end_ + TileX end_ - TileY start - TileX start)) in
  let b := int16 (uint32 (TileY end_ - TileX end_ - TileY start + TileX start)) in
  let a := if a >? 0 then int16 (a + 1) else int16 (a - 1) in
  let b := if b >? 0 then int16 (b + 1) else int16 (b - 1) in
  mkDiagonal start a b.

(** [DiagonalTileAreaT::Contains] *)
Definition Contains (this : DiagonalTileArea) (t : GenericTileIndex) : bool :=
  let a := int32 (uint32 (TileY t + TileX t)) in
  let b := int32 (uint32 (TileY t - TileX t)) in
  let start_a := int32 (uint32 (TileY (tile this) + TileX (tile this))) in
  let start_b := int32 (uint32 (TileY (tile this) - TileX (tile this))) in
  let end_a := int32 (start_a + Diagonal.a this) in
  let end_b := int32 (start_b + Diagonal.b this) in
  let '(start_a, end_a) :=
    if start_a >? end_a then (int32 (end_a + 1), int32 (start_a + 1)) else (start_a, end_a) in
  let '(start_b, end_b) :=
    if start_b >? end_b then (int32 (end_b + 1), int32 (start_b + 1)) else (start_b, end_b) in
  (a >=? start_a) && (a <? end_a) && (b >=? start_b) && (b <? end_b).

End Diagonal.

Module DiagonalIterator.
Import Int TileMap.

(** [DiagonalTileIteratorT]: the current tile of the base class and the
    rotated coordinates of the iteration. *)
Record DiagonalTileIterator : Type := mkIterator {
  tile : GenericTileIndex;
  base_x : Z;
  base_y : Z;
  a_cur : Z;
  b_cur : Z;
  a_max : Z;
  b_max : Z
}.

(** [DiagonalTileIteratorT(const DiagonalTileAreaT &)] *)
Definition of_area (ta : Diagonal.DiagonalTileArea) : DiagonalTileIterator :=
  mkIterator (Diagonal.tile ta) (TileX (Diagonal.tile ta)) (TileY (Diagonal.tile ta))
             0 0 (Diagonal.a ta) (Diagonal.b ta).

(** [DiagonalTileIteratorT(corner1, corner2)] *)
Definition of_corners (corner1 corner2 : GenericTileIndex) : DiagonalTileIterator :=
  of_area (Diagonal.DiagonalTileArea_of_corners corner1 corner2).

(** The first half of the body of the [do ... while] loop of [operator++]:
    the move in the rotated coordinates. *)
Definition next_position (it : DiagonalTileIterator) : Z * Z :=
  if (a_max it =? 1) || (a_max it =? -1) then
    (0, if b_max it >? 0 then Z.min (int32 (b_cur it + 2)) (b_max it)
        else Z.max (int32 (b_cur it - 2)) (b_max it))
  else
    let a_cur := if a_max it >? 0 then int32 (a_cur it + 2) else int32 (a_cur it - 2) in
    let new_line := if a_max it >? 0 then a_cur >=? a_max it else a_cur <=? a_max it in
    if new_line then
      (if negb (int32 (Z.abs a_cur) mod 2 =? 0) then 0
       else if a_max it >? 0 then 1 else -1,
       if b_max it >? 0 then int32 (b_cur it + 1) else int32 (b_cur it - 1))
    else (a_cur, b_cur it).

(** One pass through the body of the loop: move, convert the coordinates
    back, and clip at the borders of the map. *)
Definition advance (it : DiagonalTileIterator) : DiagonalTileIterator :=
  let '(a_cur, b_cur) := next_position it in
  let x := uint32 (base_x it + Z.quot (int32 (a_cur - b_cur)) 2) in
  let y := uint32 (base_y it + Z.quot (int32 (b_cur + a_cur)) 2) in
  let tile :=
    if (x >=? MapSizeX (MapOf (tile it))) || (y >=? MapSizeY (MapOf (tile it)))
    then SetIndexOf (tile it) INVALID_TILE_INDEX
    else TileXY x y (MapOf (tile it)) in
  mkIterator tile (base_x it) (base_y it) a_cur b_cur (a_max it) (b_max it).

(** The loop: the body runs once and then again for as long as the tile is
    not valid and the last row has not been reached.  [None] stands for a
    loop that has not finished within [fuel] passes. *)
Fixpoint advance_loop (fuel : nat) (it : DiagonalTileIterator) : option DiagonalTileIterator :=
  match fuel with
  | O => None
  | S fuel =>
      let it := advance it in
      if negb (IsValidTileIndex (tile it)) && negb (b_max it =? b_cur it)
      then advance_loop fuel it
      else Some it
  end.

(** [DiagonalTileIteratorT::operator++] *)
Definition next (fuel : nat) (it : DiagonalTileIterator) : option DiagonalTileIterator :=
  match advance_loop fuel it with
  | None => None
  | Some it =>
      Some (if b_max it =? b_cur it
            then mkIterator (SetIndexOf (tile it) INVALID_TILE_INDEX) (base_x it) (base_y it)
                            (a_cur it) (b_cur it) (a_max it) (b_max it)
            else it)
  end.

(** The iterator after [n] steps of a loop [for (; iter != INVALID_TILE; ++iter)]:
    the iterator is advanced as long as its tile is not the invalid tile. *)
Fixpoint iterate (fuel : nat) (n : nat) (it : DiagonalTileIterator) : option DiagonalTileIterator :=
  match n with
  | O => Some it
  | S n =>
      if IndexOf (tile it) =? INVALID_TILE_INDEX then Some it
      else match next fuel it with
           | None => None
           | Some it => iterate fuel n it
           end
  end.

(** Passes of the loop body that always suffice for an area. *)
Definition passes (ta : Diagonal.DiagonalTileArea) : nat :=
  Z.to_nat (Z.abs (Diagonal.b ta) * (Z.abs (Diagonal.a ta) + 1) + 1).

End DiagonalIterator.

(** ** Terraforming ([terraform_cmd.cpp]) *)

Module Terraform.
Import Int TileMap.

(** Modelled from the spec: [table/strings.h] is generated and not among the
    sources; the message codes that [terraform_cmd.cpp] names are kept as
    distinct symbols, and [STR_OTHER] stands for every other message a
    collaborator may report. *)
Inductive StringID : Type :=
  | STR_NULL
  | INVALID_STRING_ID
  | STR_ERROR_ALREADY_AT_SEA_LEVEL
  | STR_ERROR_TOO_HIGH
  | STR_ERROR_TOO_CLOSE_TO_EDGE_OF_MAP
  | STR_ERROR_MUST_DEMOLISH_BRIDGE_FIRST
  | STR_ERROR_BRIDGE_TOO_HIGH_AFTER_LOWER_LAND
  | STR_ERROR_EXCAVATION_WOULD_DAMAGE
  | STR_ERROR_TERRAFORM_LIMIT_REACHED
  | STR_ERROR_ALREADY_LEVELLED
  | STR_OTHER (id : Z).

Definition StringID_eqb (a b : StringID) : bool :=
  match a, b with
  | STR_NULL, STR_NULL
  | INVALID_STRING_ID, INVALID_STRING_ID
  | STR_ERROR_ALREADY_AT_SEA_LEVEL, STR_ERROR_ALREADY_AT_SEA_LEVEL
  | STR_ERROR_TOO_HIGH, STR_ERROR_TOO_HIGH
  | STR_ERROR_TOO_CLOSE_TO_EDGE_OF_MAP, STR_ERROR_TOO_CLOSE_TO_EDGE_OF_MAP
  | STR_ERROR_MUST_DEMOLISH_BRIDGE_FIRST, STR_ERROR_MUST_DEMOLISH_BRIDGE_FIRST
  | STR_ERROR_BRIDGE_TOO_HIGH_AFTER_LOWER_LAND, STR_ERROR_BRIDGE_TOO_HIGH_AFTER_LOWER_LAND
  | STR_ERROR_EXCAVATION_WOULD_DAMAGE, STR_ERROR_EXCAVATION_WOULD_DAMAGE
  | STR_ERROR_TERRAFORM_LIMIT_REACHED, STR_ERROR_TERRAFORM_LIMIT_REACHED
  | STR_ERROR_ALREADY_LEVELLED, STR_ERROR_ALREADY_LEVELLED => true
  | STR_OTHER i, STR_OTHER j => i =? j
  | _, _ => false
  end.

(** Modelled from the spec: [command_type.h] is not among the sources.  A
    [CommandCost] is the cost of a command that succeeded or the message of
    one that failed; [CMD_ERROR] is the failure without a message. *)
Inductive CommandCost : Type :=
  | Cost (money : Z)
  | Error (message : StringID).

Definition CMD_ERROR : CommandCost := Error INVALID_STRING_ID.

Definition Failed (c : CommandCost) : bool :=
  match c with Cost _ => false | Error _ => true end.

Definition GetCost (c : CommandCost) : Z :=
  match c with Cost money => money | Error _ => 0 end.

Definition GetErrorMessage (c : CommandCost) : StringID :=
  match c with Cost _ => INVALID_STRING_ID | Error message => message end.

(** The bits of [DoCommandFlag] and of [Slope] that the commands use. *)
Definition DC_EXEC : Z := 1.
Definition DC_AUTO : Z := 2.
Definition DC_ALL_TILES : Z := 512.
Definition DC_NO_MODIFY_TOWN_RATING : Z := 1024.
Definition DC_FORCE_CLEAR_TILE : Z := 2048.

Definition SLOPE_FLAT : Z := 0.
Definition SLOPE_W : Z := 1.
Definition SLOPE_S : Z := 2.
Definition SLOPE_E : Z := 4.
Definition SLOPE_N : Z := 8.
Definition SLOPE_STEEP : Z := 16.

(** The C++ truth value of [flags & bit]. *)
Definition has_bit (flags bit : Z) : bool := negb (Z.land flags bit =? 0).

(** [flags & ~bit] *)
Definition clear_bit (flags bit : Z) : Z := Z.land flags (Z.lnot bit).

Record Settings : Type := mkSettings {
  max_heightlevel : Z;
  freeform_edges : bool;
  max_bridge_height : Z
}.

(** [TerraformerState]; the set of dirty tiles is kept in the increasing
    order in which [std::set] is walked.  The global [_terraform_err_tile]
    travels with it. *)
Record TerraformerState : Type := mkState {
  dirty_tiles : list Z;
  tile_to_new_height : gmap Z Z;
  err_tile : Z
}.

Fixpoint set_insert (t : Z) (s : list Z) : list Z :=
  match s with
  | [] => [t]
  | x :: s' => if t <? x then t :: s else if t =? x then s else x :: set_insert t s'
  end.

Definition set_err_tile (ts : TerraformerState) (t : Z) : TerraformerState :=
  mkState (dirty_tiles ts) (tile_to_new_height ts) t.

(** The outcome of a step of the collecting phase: the recursion ran out of
    fuel, the step failed with a message, or it gave a value; the last two
    with the state they leave behind. *)
Inductive Outcome (A : Type) : Type :=
  | OutOfFuel
  | Fails (message : StringID) (ts : TerraformerState)
  | Gives (a : A) (ts : TerraformerState).

Arguments OutOfFuel {A}.
Arguments Fails {A} message ts.
Arguments Gives {A} a ts.

Definition bind {A B : Type} (o : Outcome A) (k : A -> TerraformerState -> Outcome B)
  : Outcome B :=
  match o with
  | OutOfFuel => OutOfFuel
  | Fails message ts => Fails message ts
  | Gives a ts => k a ts
  end.

Section World.

(** Everything on the map besides the heights of the tile corners (tile
    types, bridges, tunnels, objects, ...) belongs to other parts of the game
    and is kept abstract. *)
Context {Content : Type}.

(** The state that the terraform commands read and write: the main map with
    the height of the north corner of every tile, the rest of the map, the
    terraform budget of the current company ([None] when
    [Company::GetIfValid] returns null), and the globals
    [_terraform_err_tile] and [_additional_cash_required]. *)
Record World : Type := mkWorld {
  main_map : Map;
  settings : Settings;
  price_terraform : Z;
  tile_height : Z -> Z;
  content : Content;
  terraform_limit : option Z;
  terraform_err_tile : Z;
  additional_cash_required : Z
}.

Definition set_tile_height (w : World) (heights : Z -> Z) : World :=
  mkWorld (main_map w) (settings w) (price_terraform w) heights (content w)
          (terraform_limit w) (terraform_err_tile w) (additional_cash_required w).

Definition set_content (w : World) (c : Content) : World :=
  mkWorld (main_map w) (settings w) (price_terraform w) (tile_height w) c
          (terraform_limit w) (terraform_err_tile w) (additional_cash_required w).

Definition set_terraform_limit (w : World) (limit : option Z) : World :=
  mkWorld (main_map w) (settings w) (price_terraform w) (tile_height w) (content w)
          limit (terraform_err_tile w) (additional_cash_required w).

Definition set_terraform_err_tile (w : World) (t : Z) : World :=
  mkWorld (main_map w) (settings w) (price_terraform w) (tile_height w) (content w)
          (terraform_limit w) t (additional_cash_required w).

Definition set_additional_cash_required (w : World) (cash : Z) : World :=
  mkWorld (main_map w) (settings w) (price_terraform w) (tile_height w) (content w)
          (terraform_limit w) (terraform_err_tile w) cash.

(** What the commands need from the rest of the game.  A collaborator that
    is run may change the rest of the map, never the heights. *)
Record Collaborators : Type := mkCollaborators {
  (** [IsTileType(tile, MP_VOID)] *)
  IsVoidTile : World -> Z -> bool;
  (** [IsBridgeAbove(tile)] *)
  IsBridgeAbove : World -> Z -> bool;
  (** [GetBridgeHeight(GetSouthernBridgeEnd(tile))] *)
  BridgeHeightAbove : World -> Z -> Z;
  (** [IsTunnelInWay(tile, z)] *)
  IsTunnelInWay : World -> Z -> Z -> bool;
  (** [FindClearedObject(tile)] is not null and names another first tile *)
  IndirectlyCleared : World -> Z -> bool;
  (** [DoCommand(tile, 0, 0, flags, CMD_LANDSCAPE_CLEAR)] *)
  LandscapeClear : World -> Z -> Z -> CommandCost * Content;
  (** [_tile_type_procs[GetTileType(tile)]->terraform_tile_proc(tile, flags, z_min, tileh)] *)
  TerraformTileProc : World -> Z -> Z -> Z -> Z -> CommandCost * Content;
  (** [DoCommand(tile, p1, p2, flags, CMD_TERRAFORM_LAND)] *)
  DoCommandTerraformLand : World -> Z -> Z -> Z -> Z -> CommandCost * World
}.

(** A tile index of the main map, as a tile index with its map. *)
Definition main_tile (w : World) (t : Z) : GenericTileIndex := mkTile t (Some (main_map w)).

Definition TileHeight (w : World) (t : Z) : Z := tile_height w t.

(** [SetTileHeight(tile, height)] *)
Definition SetTileHeight (heights : Z -> Z) (t height : Z) : Z -> Z :=
  fun t' => if t' =? t then height else heights t'.

(** [tile + TileDiffXY(x, y)] on the main map *)
Definition tile_add_xy (w : World) (t x y : Z) : Z :=
  uint32 (t + TileDiffXY x y (Some (main_map w))).

Definition TerraformGetHeightOfTile (w : World) (ts : TerraformerState) (t : Z) : Z :=
  match tile_to_new_height ts !! t with
  | Some height => height
  | None => TileHeight w t
  end.

Definition TerraformSetHeightOfTile (ts : TerraformerState) (t height : Z) : TerraformerState :=
  mkState (dirty_tiles ts) (<[t := height]> (tile_to_new_height ts)) (err_tile ts).

Definition TerraformAddDirtyTile (ts : TerraformerState) (t : Z) : TerraformerState :=
  mkState (set_insert t (dirty_tiles ts)) (tile_to_new_height ts) (err_tile ts).

Definition TerraformAddDirtyTileAround (w : World) (ts : TerraformerState) (t : Z)
  : TerraformerState :=
  let x := TileX (main_tile w t) in
  let y := TileY (main_tile w t) in
  let ts := if y >=? 1 then TerraformAddDirtyTile ts (tile_add_xy w t 0 (-1)) else ts in
  let ts := if (y >=? 1) && (x >=? 1)
            then TerraformAddDirtyTile ts (tile_add_xy w t (-1) (-1)) else ts in
  let ts := if x >=? 1 then TerraformAddDirtyTile ts (tile_add_xy w t (-1) 0) else ts in
  TerraformAddDirtyTile ts t.

(** [_terraform_tilepos] *)
Definition _terraform_tilepos : list TileIndexDiffC :=
  [ mkDiffC 1 0; mkDiffC (-2) 0; mkDiffC 1 1; mkDiffC 0 (-2) ].

(** [ToTileIndexDiff] on the main map, whose width is [1 << MapLogX()]. *)
Definition ToTileIndexDiff (w : World) (tidc : TileIndexDiffC) : Z :=
  int32 (diff_y tidc * MapSizeX (Some (main_map w)) + diff_x tidc).

(** The body of the loop of [TerraformTileHeight] for a neighbouring corner
    [tile] that exists: if its height differs from [height] by more than 1,
    terraform it to one level from [height].  [recurse] is the recursive call
    and [continue_] the rest of the loop. *)
Definition terraform_neighbour
    (recurse : TerraformerState -> Z -> Z -> Outcome Z)
    (w : World) (height tile : Z)
    (continue_ : Z -> TerraformerState -> Outcome Z)
    (total_cost : Z) (ts : TerraformerState) : Outcome Z :=
  let r := TerraformGetHeightOfTile w ts tile in
  let height_diff := int32 (height - r) in
  if Z.abs height_diff >? 1 then
    let height_diff := int32 (height_diff + (if height_diff <? 0 then 1 else -1)) in
    bind (recurse ts tile (int32 (r + height_diff)))
         (fun cost ts => continue_ (total_cost + cost) ts)
  else continue_ total_cost ts.

(** The loop of [TerraformTileHeight] over [_terraform_tilepos].  [tile] is
    the loop variable that the offsets are added to, [total_cost] the cost so
    far; a neighbour that is off the map, or that is reached by wrapping
    around it, is passed over. *)
Fixpoint terraform_neighbours
    (recurse : TerraformerState -> Z -> Z -> Outcome Z)
    (w : World) (orig_tile height : Z)
    (ttms : list TileIndexDiffC) (tile total_cost : Z) (ts : TerraformerState)
  : Outcome Z :=
  match ttms with
  | [] => Gives total_cost ts
  | ttm :: ttms =>
      let tile := uint32 (tile + ToTileIndexDiff w ttm) in
      let continue_ := terraform_neighbours recurse w orig_tile height ttms tile in
      if tile >=? MapSize (Some (main_map w)) then continue_ total_cost ts
      else if Delta (TileX (main_tile w orig_tile)) (TileX (main_tile w tile))
              =? uint32 (MapSizeX (Some (main_map w)) - 1) then continue_ total_cost ts
      else if Delta (TileY (main_tile w orig_tile)) (TileY (main_tile w tile))
              =? uint32 (MapSizeY (Some (main_map w)) - 1) then continue_ total_cost ts
      else terraform_neighbour recurse w height tile continue_ total_cost ts
  end.

(** [TerraformTileHeight]: the recursion is on [fuel]. *)
Fixpoint TerraformTileHeight (fuel : nat) (w : World) (ts : TerraformerState) (tile height : Z)
  : Outcome Z :=
  match fuel with
  | O => OutOfFuel
  | S fuel =>
      if height <? 0 then Fails STR_ERROR_ALREADY_AT_SEA_LEVEL ts
      else if height >? max_heightlevel (settings w) then Fails STR_ERROR_TOO_HIGH ts
      else if height =? TerraformGetHeightOfTile w ts tile then Fails INVALID_STRING_ID ts
      else
        let x := TileX (main_tile w tile) in
        let y := TileY (main_tile w tile) in
        if negb (freeform_edges (settings w)) &&
           ((x <=? 1) || (y <=? 1) ||
            (x >=? uint32 (MapMaxX (Some (main_map w)) - 1)) ||
            (y >=? uint32 (MapMaxY (Some (main_map w)) - 1)))
        then
          let x := if x =? 1 then 0 else x in
          let y := if y =? 1 then 0 else y in
          Fails STR_ERROR_TOO_CLOSE_TO_EDGE_OF_MAP
                (set_err_tile ts (IndexOf (TileXY x y (Some (main_map w)))))
        else
          let ts := TerraformAddDirtyTileAround w ts tile in
          let ts := TerraformSetHeightOfTile ts tile height in
          terraform_neighbours (fun ts tile height => TerraformTileHeight fuel w ts tile height)
            w tile height _terraform_tilepos tile (price_terraform w) ts
  end.

(** One of the four corner steps of [CmdTerraformLand]: if the corner is
    selected in [p1] (and, for the corners of other tiles, the tile exists),
    terraform its tile by [direction] and add the cost. *)
Definition terraform_corner (fuel : nat) (w : World) (tile direction p1 : Z)
    (corner x y : Z) (bounded : bool) (total_cost : Z) (ts : TerraformerState) : Outcome Z :=
  if has_bit p1 corner &&
     (if bounded then tile_add_xy w tile x y <? MapSize (Some (main_map w)) else true)
  then
    let t := tile_add_xy w tile x y in
    bind (TerraformTileHeight fuel w ts t (int32 (uint32 (TileHeight w t + direction))))
         (fun cost ts => Gives (total_cost + cost) ts)
  else Gives total_cost ts.

(** The first part of [CmdTerraformLand]: the costs and the result of the
    terraforming in a model of the landscape. *)
Definition terraform_collect (fuel : nat) (w : World) (tile direction p1 : Z) : Outcome Z :=
  let ts := mkState [] ∅ INVALID_TILE_INDEX in
  bind (terraform_corner fuel w tile direction p1 SLOPE_W 1 0 true 0 ts) (fun total_cost ts =>
  bind (terraform_corner fuel w tile direction p1 SLOPE_S 1 1 true total_cost ts) (fun total_cost ts =>
  bind (terraform_corner fuel w tile direction p1 SLOPE_E 0 1 true total_cost ts) (fun total_cost ts =>
  terraform_corner fuel w tile direction p1 SLOPE_N 0 0 false total_cost ts))).

(** The new slope of a tile: the lowest and the highest corner and [tileh]. *)
Definition terraformed_slope (w : World) (ts : TerraformerState) (tile : Z) : Z * Z * Z :=
  let z_N := TerraformGetHeightOfTile w ts (tile_add_xy w tile 0 0) in
  let z_W := TerraformGetHeightOfTile w ts (tile_add_xy w tile 1 0) in
  let z_S := TerraformGetHeightOfTile w ts (tile_add_xy w tile 1 1) in
  let z_E := TerraformGetHeightOfTile w ts (tile_add_xy w tile 0 1) in
  let z_min := Z.min (Z.min z_N z_W) (Z.min z_S z_E) in
  let z_max := Z.max (Z.max z_N z_W) (Z.max z_S z_E) in
  let tileh := if z_max >? z_min + 1 then SLOPE_STEEP else SLOPE_FLAT in
  let tileh := if z_W >? z_min then Z.lor tileh SLOPE_W else tileh in
  let tileh := if z_S >? z_min then Z.lor tileh SLOPE_S else tileh in
  let tileh := if z_E >? z_min then Z.lor tileh SLOPE_E else tileh in
  let tileh := if z_N >? z_min then Z.lor tileh SLOPE_N else tileh in
  (z_min, z_max, tileh).

(** The checks of pass 0 on bridges and tunnels. *)
Definition bridge_tunnel_check (hooks : Collaborators) (w : World) (direction tile z_min z_max : Z)
  : option StringID :=
  if IsBridgeAbove hooks w tile &&
     (direction =? 1) && (BridgeHeightAbove hooks w tile <=? z_max)
  then Some STR_ERROR_MUST_DEMOLISH_BRIDGE_FIRST
  else if IsBridgeAbove hooks w tile &&
          (direction =? -1) &&
          (BridgeHeightAbove hooks w tile >? z_min + max_bridge_height (settings w))
  then Some STR_ERROR_BRIDGE_TOO_HIGH_AFTER_LOWER_LAND
  else if (direction =? -1) && IsTunnelInWay hooks w tile z_min
  then Some STR_ERROR_EXCAVATION_WOULD_DAMAGE
  else None.

(** One pass of the loop over the dirty tiles.  The map is the one the
    collaborators have left; a failure sets [_terraform_err_tile]. *)
Fixpoint terraform_validate (hooks : Collaborators) (pass direction flags : Z)
    (ts : TerraformerState) (tiles : list Z) (w : World) (total_cost : Z)
  : CommandCost * World :=
  match tiles with
  | [] => (Cost total_cost, w)
  | tile :: tiles =>
      if IsVoidTile hooks w tile
      then terraform_validate hooks pass direction flags ts tiles w total_cost
      else
        let '(z_min, z_max, tileh) := terraformed_slope w ts tile in
        match (if pass =? 0 then bridge_tunnel_check hooks w direction tile z_min z_max
               else None) with
        | Some message => (Error message, set_terraform_err_tile w tile)
        | None =>
            let indirectly_cleared := IndirectlyCleared hooks w tile in
            let tile_flags := Z.lor (Z.lor flags DC_AUTO) DC_FORCE_CLEAR_TILE in
            let tile_flags :=
              if pass =? 0
              then Z.lor (clear_bit tile_flags DC_EXEC) DC_NO_MODIFY_TOWN_RATING
              else tile_flags in
            let '(cost, c) :=
              if indirectly_cleared then LandscapeClear hooks w tile tile_flags
              else TerraformTileProc hooks w tile tile_flags z_min tileh in
            let w := set_content w c in
            if Failed cost then (cost, set_terraform_err_tile w tile)
            else terraform_validate hooks pass direction flags ts tiles w
                   (if pass =? 1 then total_cost + GetCost cost else total_cost)
        end
  end.

(** The loop [change the height] of the [DC_EXEC] block. *)
Definition terraform_commit (heights : Z -> Z) (ts : TerraformerState) : Z -> Z :=
  map_fold (fun tile height heights => SetTileHeight heights tile (uint32 height))
           heights (tile_to_new_height ts).

(** The number of corners whose height changes. *)
Definition changed_corners (ts : TerraformerState) : Z :=
  Z.of_nat (size (tile_to_new_height ts)).

(** The end of [CmdTerraformLand], from the check of the terraform limit on:
    the marking of dirty tiles for the display is left out. *)
Definition terraform_finish (flags : Z) (ts : TerraformerState) (w : World) (total_cost : Z)
  : CommandCost * World :=
  match terraform_limit w with
  | Some limit =>
      if GB limit 16 16 <? changed_corners ts
      then (Error STR_ERROR_TERRAFORM_LIMIT_REACHED, w)
      else if has_bit flags DC_EXEC then
        let w := set_tile_height w (terraform_commit (tile_height w) ts) in
        (Cost total_cost,
         set_terraform_limit w
           (Some (uint32 (limit - uint32 (Z.shiftl (uint32 (changed_corners ts)) 16)))))
      else (Cost total_cost, w)
  | None =>
      if has_bit flags DC_EXEC
      then (Cost total_cost, set_tile_height w (terraform_commit (tile_height w) ts))
      else (Cost total_cost, w)
  end.

(** [CmdTerraformLand]; [None] when the recursion of [TerraformTileHeight]
    has not finished within [fuel]. *)
Definition CmdTerraformLand (fuel : nat) (hooks : Collaborators) (w : World)
    (tile flags p1 p2 : Z) : option (CommandCost * World) :=
  let w := set_terraform_err_tile w INVALID_TILE_INDEX in
  let direction := if p2 =? 0 then -1 else 1 in
  match terraform_collect fuel w tile direction p1 with
  | OutOfFuel => None
  | Fails message ts => Some (Error message, set_terraform_err_tile w (err_tile ts))
  | Gives total_cost ts =>
      match terraform_validate hooks 0 direction flags ts (dirty_tiles ts) w total_cost with
      | (Error message, w) => Some (Error message, w)
      | (Cost total_cost, w) =>
          match terraform_validate hooks 1 direction flags ts (dirty_tiles ts) w total_cost with
          | (Error message, w) => Some (Error message, w)
          | (Cost total_cost, w) => Some (terraform_finish flags ts w total_cost)
          end
      end
  end.

(** *** [TerraformTiles] *)

(** [TerraformTilesResult] *)
Record TerraformTilesResult : Type := mkResult {
  cost : Z;
  had_success : bool;
  last_error : StringID
}.

(** The local variables of [TerraformTiles] and the state of the game. *)
Record Batch : Type := mkBatch {
  result : TerraformTilesResult;
  last_err_tile : Z;
  limit : Z;
  available_money : Z;
  world : World
}.

(** How a loop of [TerraformTiles] is left: by running to its end (or by
    [break]), or by the [return] for lack of money. *)
Inductive Flow : Type :=
  | Continue (s : Batch)
  | Return (s : Batch).

(** The per-batch corner limit that [TerraformTiles] starts with. *)
Definition batch_limit (w : World) : Z :=
  match terraform_limit w with
  | None => INT32_MAX
  | Some l => int32 (GB l 16 16)
  end.

(** The inner loop [for (int curh = TileHeight(t); curh != h; ...)]; it runs
    [|h - curh|] times at most, which is what [n] counts. *)
Fixpoint terraform_tile_steps (hooks : Collaborators) (flags t h : Z)
    (n : nat) (curh : Z) (s : Batch) : Flow :=
  match n with
  | O => Continue s
  | S n =>
      if curh =? h then Continue s
      else
        let p2 := if curh >? h then 0 else 1 in
        let step := if curh >? h then -1 else 1 in
        let '(ret, w) :=
          DoCommandTerraformLand hooks (world s) t SLOPE_N p2 (clear_bit flags DC_EXEC) in
        if Failed ret then
          Continue (mkBatch (mkResult (cost (result s)) (had_success (result s))
                                      (GetErrorMessage ret))
                            (terraform_err_tile w)
                            (if StringID_eqb (GetErrorMessage ret)
                                             STR_ERROR_TERRAFORM_LIMIT_REACHED
                             then 0 else limit s)
                            (available_money s) w)
        else if has_bit flags DC_EXEC then
          let money := available_money s - GetCost ret in
          if money <? 0 then
            Return (mkBatch (result s) (last_err_tile s) (limit s) money
                            (set_terraform_err_tile
                               (set_additional_cash_required w (GetCost ret)) t))
          else
            let '(_, w) := DoCommandTerraformLand hooks w t SLOPE_N p2 flags in
            terraform_tile_steps hooks flags t h n (int32 (curh + step))
              (mkBatch (mkResult (cost (result s) + GetCost ret) true (last_error (result s)))
                       (last_err_tile s) (limit s) money w)
        else
          let limit := int32 (limit s - 1) in
          if limit <=? 0 then
            Continue (mkBatch (mkResult (cost (result s)) true (last_error (result s)))
                              (last_err_tile s) limit (available_money s) w)
          else
            terraform_tile_steps hooks flags t h n (int32 (curh + step))
              (mkBatch (mkResult (cost (result s) + GetCost ret) true (last_error (result s)))
                       (last_err_tile s) limit (available_money s) w)
  end.

Section Iterating.

(** A tile iterator is taken by the finite sequence of positions it runs
    through before it reaches the invalid tile; [tile_of] is the tile of a
    position and [height_source] the target height that the
    [TileHeightSource] gives for it. *)
Context {Position : Type}.
Variable tile_of : Position -> Z.
Variable height_source : World -> Position -> Z.

(** The outer loop of [TerraformTiles], run while the iterator is not at the
    invalid tile and [limit > 0]. *)
Fixpoint terraform_tiles_loop (hooks : Collaborators) (flags : Z)
    (iter : list Position) (s : Batch) : Flow :=
  match iter with
  | [] => Continue s
  | position :: iter =>
      if limit s >? 0 then
        let h := height_source (world s) position in
        let t := tile_of position in
        let curh := TileHeight (world s) t in
        match terraform_tile_steps hooks flags t h (Z.to_nat (Z.abs (h - curh))) curh s with
        | Return s => Return s
        | Continue s => terraform_tiles_loop hooks flags iter s
        end
      else Continue s
  end.

(** The state in which the loops of [TerraformTiles] start. *)
Definition batch_start (w : World) (money : Z) : Batch :=
  mkBatch (mkResult 0 false
             (if batch_limit w =? 0 then STR_ERROR_TERRAFORM_LIMIT_REACHED else STR_NULL))
          INVALID_TILE_INDEX (batch_limit w) money w.

(** The statements after the loops. *)
Definition batch_end (s : Batch) : TerraformTilesResult * World :=
  let '(r, err) :=
    if negb (had_success (result s)) && StringID_eqb (last_error (result s)) STR_NULL
    then (mkResult (cost (result s)) (had_success (result s)) STR_ERROR_ALREADY_LEVELLED,
          INVALID_TILE_INDEX)
    else (result s, last_err_tile s) in
  (r, set_terraform_err_tile (world s) err).

(** [TerraformTiles] *)
Definition TerraformTiles (hooks : Collaborators) (iter : list Position) (flags : Z)
    (w : World) (money : Z) : TerraformTilesResult * World :=
  match terraform_tiles_loop hooks flags iter (batch_start w money) with
  | Return s => (result s, world s)
  | Continue s => batch_end s
  end.

End Iterating.

End World.

Arguments World : clear implicits.
Arguments Collaborators : clear implicits.

(** *** A small world to run the commands in *)

(** A map without bridges, tunnels, objects or void tiles, on which every
    tile may be terraformed for free. *)
Definition bare_collaborators (fuel : nat) : Collaborators unit :=
  let quiet :=
    mkCollaborators
      (fun _ _ => false) (fun _ _ => false) (fun _ _ => 0) (fun _ _ _ => false)
      (fun _ _ => false) (fun _ _ _ => (Cost 0, tt)) (fun _ _ _ _ _ => (Cost 0, tt))
      (fun w _ _ _ _ => (CMD_ERROR, w)) in
  mkCollaborators
    (fun _ _ => false) (fun _ _ => false) (fun _ _ => 0) (fun _ _ _ => false)
    (fun _ _ => false) (fun _ _ _ => (Cost 0, tt)) (fun _ _ _ _ _ => (Cost 0, tt))
    (fun w tile p1 p2 flags =>
       match CmdTerraformLand fuel quiet w tile flags p1 p2 with
       | Some r => r
       | None => (CMD_ERROR, w)
       end).

(** Collaborators that count in the content of the map how often a tile
    hook has been run with [DC_EXEC], on a map with a bridge of height 1
    above the tiles that [bridge] names. *)
Definition counting_collaborators (bridge : Z -> bool) : Collaborators Z :=
  mkCollaborators
    (fun _ _ => false) (fun _ tile => bridge tile) (fun _ _ => 1) (fun _ _ _ => false)
    (fun _ _ => false)
    (fun w _ flags => (Cost 0, if has_bit flags DC_EXEC then content w + 1 else content w))
    (fun w _ flags _ _ => (Cost 0, if has_bit flags DC_EXEC then content w + 1 else content w))
    (fun w _ _ _ _ => (CMD_ERROR, w)).

(** An 8 by 8 map with freeform edges on which only the corner at (3, 3)
    stands one level above the ground; no company is current. *)
Definition hill_heights : Z -> Z := fun t => if t =? 27 then 1 else 0.

Definition hill_world : World unit :=
  mkWorld (mkMap 8 8) (mkSettings 15 true 10) 10 hill_heights tt None INVALID_TILE_INDEX 0.

(** The same map when the current company has a terraform limit of [limit]. *)
Definition company_world (limit : Z) : World unit :=
  set_terraform_limit hill_world (Some limit).

(** The same map with a count of 0 as content, for the counting
    collaborators. *)
Definition counted_world (limit : option Z) : World Z :=
  mkWorld (mkMap 8 8) (mkSettings 15 true 10) 10 hill_heights 0 limit INVALID_TILE_INDEX 0.

(** What the collecting phase gives for raising the hill at (3, 3) when the
    limit of the company allows two corners (and a fraction). *)
Definition tight_world : World unit := company_world (2 * 65536 + 5).

Definition raised_hill : Z * TerraformerState :=
  match terraform_collect 20 (set_terraform_err_tile tight_world INVALID_TILE_INDEX)
          27 1 SLOPE_N with
  | Gives total_cost ts => (total_cost, ts)
  | _ => (0, mkState [] ∅ INVALID_TILE_INDEX)
  end.

End Terraform.


(** ** The other conversions of [direction_func.h] *)

Module Directions.
Import Int Direction.

(** Modelled from the spec: [direction_type.h] is not among the sources.  The
    4-way values are numbered clockwise from north-east, as the comments of
    [DirToDiagDir] ([DIR_N] becomes [DIAGDIR_NE]) and of [AxisToDiagDir]
    (south-west on the X axis, south-east on the Y axis) tell; differences of
    directions count steps clockwise. *)
Definition DIAGDIR_NE : Z := 0.
Definition DIAGDIR_SE : Z := 1.
Definition DIAGDIR_SW : Z := 2.
Definition DIAGDIR_NW : Z := 3.
Definition DIAGDIR_END : Z := 4.
Definition INVALID_DIAGDIR : Z := 255.

Definition AXIS_END : Z := 2.

Definition all_diagdirs : list Z := [0; 1; 2; 3].
Definition all_axes : list Z := [0; 1].

Definition IsValidDiagDirection (d : Z) : bool := (0 <=? d) && (d <? DIAGDIR_END).

Definition IsValidAxis (d : Z) : bool := (0 <=? d) && (d <? AXIS_END).

Definition ReverseDir (d : Z) : Z := Z.lxor 4 d.

(** [(DirDiff)((uint)(d0 - d1) % 8)] *)
Definition DirDifference (d0 d1 : Z) : Z := uint32 (d0 - d1) mod 8.

Definition ChangeDirDiff (d delta : Z) : Z := uint32 (d + delta) mod 8.

Definition ReverseDiagDir (d : Z) : Z := Z.lxor 2 d.

Definition DiagDirDifference (d0 d1 : Z) : Z := uint32 (d0 - d1) mod 4.

Definition ChangeDiagDir (d delta : Z) : Z := uint32 (d + delta) mod 4.

Definition DirToDiagDir (dir : Z) : Z := Z.shiftr dir 1.

Definition DiagDirToDir (dir : Z) : Z := dir * 2 + 1.

Definition OtherAxis (a : Z) : Z := Z.lxor a 1.

Definition DiagDirToAxis (d : Z) : Z := Z.land d 1.

Definition AxisToDiagDir (a : Z) : Z := 2 - a.

Definition AxisToDirection (a : Z) : Z := 5 - 2 * a.

(** [(DiagDirection)(xy * 3 ^ ns * 2)], in unsigned arithmetic as [ns] is. *)
Definition XYNSToDiagDir (xy ns : Z) : Z := Z.lxor (uint32 (xy * 3)) (uint32 (ns * 2)).

Definition IsDiagonalDirection (dir : Z) : bool := negb (Z.land dir 1 =? 0).

(** [TransformDiagDir] where assertions are compiled out: the value of the
    arithmetic, whatever the reflected direction is. *)
Definition TransformDiagDir (diag_dir transformation : Z) : Z :=
  let diag_dir :=
    if reflects transformation then 2 * DIAGDIR_NE - diag_dir else diag_dir in
  ChangeDiagDir diag_dir transformation.

(** [ChangeDiagDir] in a build with assertions: it starts with
    [assert(IsValidDiagDirection(d))]. *)
Definition ChangeDiagDir_asserting (d delta : Z) : option Z :=
  if IsValidDiagDirection d then Some (ChangeDiagDir d delta) else None.

(** [TransformDiagDir] in a build with assertions: the reflected direction
    [2 * DIAGDIR_NE - diag_dir] is what [ChangeDiagDir] asserts on. *)
Definition TransformDiagDir_asserting (diag_dir transformation : Z) : option Z :=
  let diag_dir :=
    if reflects transformation then 2 * DIAGDIR_NE - diag_dir else diag_dir in
  ChangeDiagDir_asserting diag_dir transformation.

End Directions.

(** ** Road bits ([road_func.h]) *)

Module Road.
Import Int Direction Directions.

(** Modelled from the spec: [road_type.h] and [core/bitmath_func.hpp] are not
    among the sources.  The four road pieces of a tile are the bits that the
    comment of [TransformRoadBits] numbers: bit 0 north-west, bit 1
    south-west, bit 2 south-east, bit 3 north-east; [ROAD_X] and [ROAD_Y] are
    the straight roads along the axes.  [SwapOddEvenBits] exchanges every
    even bit with the odd bit above it, as the same comment describes. *)
Definition ROAD_NONE : Z := 0.
Definition ROAD_NW : Z := 1.
Definition ROAD_SW : Z := 2.
Definition ROAD_SE : Z := 4.
Definition ROAD_NE : Z := 8.
Definition ROAD_X : Z := Z.lor ROAD_SW ROAD_NE.
Definition ROAD_Y : Z := Z.lor ROAD_NW ROAD_SE.
Definition ROAD_ALL : Z := Z.lor ROAD_X ROAD_Y.
Definition ROAD_END : Z := ROAD_ALL + 1.

Definition SwapOddEvenBits (x : Z) : Z :=
  Z.lor (Z.land (Z.shiftr x 1) 0x55555555) (Z.land (Z.shiftl x 1) 0xAAAAAAAA).

Definition all_road_bits : list Z := [0; 1; 2; 3; 4; 5; 6; 7; 8; 9; 10; 11; 12; 13; 14; 15].

Definition IsValidRoadBits (r : Z) : bool := (0 <=? r) && (r <? ROAD_END).

Definition ComplementRoadBits (r : Z) : Z := Z.lxor ROAD_ALL r.

Definition MirrorRoadBits (r : Z) : Z := Z.lor (Z.shiftl (GB r 0 2) 2) (GB r 2 2).

Definition RotateRoadBits (r rot : Z) : Z :=
  let rot := uint32 rot mod DIAGDIR_END in
  Z.land (Z.shiftr (Z.lor r (Z.shiftl r DIAGDIR_END)) rot) ROAD_ALL.

Definition TransformRoadBits (road_bits transformation : Z) : Z :=
  let '(road_bits, transformation) :=
    if reflects transformation
    then (SwapOddEvenBits road_bits, transformation + 3)
    else (road_bits, transformation) in
  RotateRoadBits road_bits transformation.

Definition IsStraightRoad (r : Z) : bool := (r =? ROAD_X) || (r =? ROAD_Y).

Definition DiagDirToRoadBits (d : Z) : Z := Z.shiftl ROAD_NW (Z.lxor 3 d).

Definition AxisToRoadBits (a : Z) : Z := if a =? AXIS_X then ROAD_X else ROAD_Y.

End Road.

(** ** Moving between tiles ([map_func.h]) *)

Module MapTiles.
Import Int Direction Directions TileMap.

(** Modelled from the spec: [tile_type.h] is not among the sources;
    [INVALID_TILE] is the tile index with all bits set. *)
Definition INVALID_TILE : Z := 2 ^ 32 - 1.

(** [TILE_ADDXY(tile, x, y)] of a release build:
    [(tile) + TileDiffXY(x, y, MapOf(tile))], computed on the raw index. *)
Definition TILE_ADDXY (tile : GenericTileIndex) (x y : Z) : GenericTileIndex :=
  SetIndexOf tile (uint32 (IndexOf tile + TileDiffXY x y (MapOf tile))).

Section MainMap.

(** The functions below take tile indices of the main map, [_main_map],
    whose width is [1 << MapLogX()]. *)
Variable main : Map.

Definition on_main (tile : Z) : GenericTileIndex := mkTile tile (Some main).

Definition AddTileIndexDiffCWrap (tile : Z) (diff : TileIndexDiffC) : Z :=
  let x := int32 (uint32 (TileX (on_main tile) + diff_x diff)) in
  let y := int32 (uint32 (TileY (on_main tile) + diff_y diff)) in
  if (uint32 x >=? MapSizeX (Some main)) || (uint32 y >=? MapSizeY (Some main))
  then INVALID_TILE
  else IndexOf (TileXY (uint32 x) (uint32 y) (Some main)).

Definition TileIndexToTileIndexDiffC (tile_a tile_b : Z) : TileIndexDiffC :=
  mkDiffC (int16 (uint32 (TileX (on_main tile_a) - TileX (on_main tile_b))))
          (int16 (uint32 (TileY (on_main tile_a) - TileY (on_main tile_b)))).

Definition DiagdirBetweenTiles (tile_from tile_to : Z) : Z :=
  let dx := int32 (int32 (TileX (on_main tile_to)) - int32 (TileX (on_main tile_from))) in
  let dy := int32 (int32 (TileY (on_main tile_to)) - int32 (TileY (on_main tile_from))) in
  if dx =? 0 then
    if dy =? 0 then INVALID_DIAGDIR
    else if dy <? 0 then DIAGDIR_NW else DIAGDIR_SE
  else
    if negb (dy =? 0) then INVALID_DIAGDIR
    else if dx <? 0 then DIAGDIR_NE else DIAGDIR_SW.

End MainMap.

End MapTiles.

(** ** More of the orthogonal tile area ([tilearea_type.h], [tilearea.cpp]) *)

Module TileAreas.
Import Int Direction TileMap TileArea MapTiles.

(** [Intersects(const OrthogonalTileAreaT &)] *)
Definition Intersects (this ta : OrthogonalTileArea) : bool :=
  if (w ta =? 0) || (w this =? 0) then false
  else
    let left1 := TileX (tile this) in
    let top1 := TileY (tile this) in
    let right1 := uint32 (left1 + w this - 1) in
    let bottom1 := uint32 (top1 + h this - 1) in
    let left2 := TileX (tile ta) in
    let top2 := TileY (tile ta) in
    let right2 := uint32 (left2 + w ta - 1) in
    let bottom2 := uint32 (top2 + h ta - 1) in
    negb ((left2 >? right1) || (right2 <? left1) || (top2 >? bottom1) || (bottom2 <? top1)).

(** [GetCenterTile()] *)
Definition GetCenterTile (this : OrthogonalTileArea) : GenericTileIndex :=
  TILE_ADDXY (tile this) (w this / 2) (h this / 2).

(** The area without tiles that the default constructor makes on a map. *)
Definition empty_area (map : option Map) : OrthogonalTileArea :=
  mkArea (mkTile INVALID_TILE_INDEX map) 0 0.

End TileAreas.

(** ** The iterator over an orthogonal area ([tilearea_type.h]) *)

Module OrthogonalIterator.
Import Int TileMap TileArea.

(** [OrthogonalTileIteratorT]: the current tile of the base class, the width
    of the area and the columns and rows that are left. *)
Record OrthogonalTileIterator : Type := mkOrthogonal {
  tile : GenericTileIndex;
  w : Z;
  x : Z;
  y : Z
}.

(** [OrthogonalTileIteratorT(const OrthogonalTileAreaT &)] *)
Definition of_area (ta : OrthogonalTileArea) : OrthogonalTileIterator :=
  mkOrthogonal
    (if (TileArea.w ta =? 0) || (TileArea.h ta =? 0)
     then SetIndexOf (TileArea.tile ta) INVALID_TILE_INDEX
     else TileArea.tile ta)
    (TileArea.w ta) (TileArea.w ta) (TileArea.h ta).

(** [OrthogonalTileIteratorT(corner1, corner2)] *)
Definition of_corners (corner1 corner2 : GenericTileIndex) : OrthogonalTileIterator :=
  of_area (OrthogonalTileArea_of_corners corner1 corner2).

(** [operator++]: one tile on in the row, or to the start of the next row, or
    to the invalid tile after the last row. *)
Definition next (it : OrthogonalTileIterator) : OrthogonalTileIterator :=
  let x := int32 (x it - 1) in
  if x >? 0 then
    mkOrthogonal (SetIndexOf (tile it) (uint32 (IndexOf (tile it) + 1))) (w it) x (y it)
  else
    let y := int32 (y it - 1) in
    if y >? 0 then
      mkOrthogonal
        (SetIndexOf (tile it)
           (uint32 (IndexOf (tile it) + int32 (TileDiffXY 1 1 (MapOf (tile it)) - w it))))
        (w it) (w it) y
    else
      mkOrthogonal (SetIndexOf (tile it) INVALID_TILE_INDEX) (w it) x y.

(** The tiles that the body of [TILE_AREA_LOOP], that is of
    [for (...; var != INVALID_TILE; ++var)], is run for; [None] stands for a
    loop that has not ended within [fuel] tests of its condition. *)
Fixpoint visited (fuel : nat) (it : OrthogonalTileIterator) : option (list GenericTileIndex) :=
  match fuel with
  | O => None
  | S fuel =>
      if IndexOf (tile it) =? INVALID_TILE_INDEX then Some []
      else
        match visited fuel (next it) with
        | Some l => Some (tile it :: l)
        | None => None
        end
  end.

End OrthogonalIterator.

(** ** The item lists of the clipboard ([clipboard.cpp], [clipboard_type.h]) *)

Module Clipboard.
Import Int.

(** [ClipboardItem<T, Tid>]: what the list functions use of an item, its
    [id] (here [item_id]), and what [new T] followed by the assignment of the [id] makes.  The
    [next] pointers are the order of the list. *)
Class ClipboardItem (T : Type) : Type := {
  item_id : T -> Z;
  set_id : T -> Z -> T;
  new_item : T
}.

Section Items.

Context {T : Type} `{ClipboardItem T}.

(** [ClipboardItem<T, Tid>::Get(id, clipboard)] on the list of the buffer:
    the first item with the [id], or [NULL]. *)
Fixpoint Get (items : list T) (id_ : Z) : option T :=
  match items with
  | [] => None
  | item :: next => if item_id item =? id_ then Some item else Get next id_
  end.

(** [ClipboardItemsBuilder<T>::FindItem(id)]: the position of the first item
    with the [id], or of the [NULL] that ends the list. *)
Fixpoint FindItem (items : list T) (id_ : Z) : nat :=
  match items with
  | [] => O
  | item :: next => if item_id item =? id_ then O else S (FindItem next id_)
  end.

(** [ClipboardItemsBuilder<T>::AddItem(id)]: the list afterwards and the
    position of the item that is returned. *)
Definition AddItem (items : list T) (id_ : Z) : list T * nat :=
  let pos := FindItem items id_ in
  match nth_error items pos with
  | None => (items ++ [set_id new_item id_], pos)
  | Some _ => (items, pos)
  end.

(** A change made through the pointer that [AddItem] has returned. *)
Fixpoint change_at (items : list T) (pos : nat) (change : T -> T) : list T :=
  match items, pos with
  | [], _ => []
  | item :: next, O => change item :: next
  | item :: next, S pos => item :: change_at next pos change
  end.

End Items.

(** [ClipboardStation::Spec] *)
Record Spec : Type := mkSpec { stat_class : Z; stat_type : Z }.

(** [ClipboardStation::AirportPart] *)
Record AirportPart : Type := mkAirportPart {
  airport_tile : Z; airport_w : Z; airport_h : Z; airport_type : Z; airport_layout : Z
}.

(** [ClipboardStation].  An entry of [speclist] that has been allocated but
    not written yet is [None]. *)
Record ClipboardStation : Type := mkStation {
  station_id : Z;
  airport : AirportPart;
  num_specs : Z;
  speclist : list (option Spec)
}.

Section Stations.

(** Modelled from the spec: [station_type.h], [airport.h] and
    [newgrf_station.h] are not among the sources; the constants they give
    are taken as they come. *)
Variables INVALID_STATION AT_INVALID STAT_CLASS_DFLT STAT_CLASS_WAYP : Z.

(** [ClipboardStation::ClipboardStation()] *)
Definition new_station : ClipboardStation :=
  mkStation INVALID_STATION (mkAirportPart (2 ^ 32 - 1) 0 0 AT_INVALID 0) 0 [].

(** [ClipboardStation] as a [ClipboardItem<ClipboardStation, StationID>] *)
Definition station_item : ClipboardItem ClipboardStation := {|
  item_id := station_id;
  set_id := fun st id_ => mkStation id_ (airport st) (num_specs st) (speclist st);
  new_item := new_station
|}.

(** [ReallocT(list, n)]: the first [n] entries stay, new entries are not
    initialised. *)
Definition ReallocT {A : Type} (l : list (option A)) (n : Z) : list (option A) :=
  firstn (Z.to_nat n) l ++ repeat None (Z.to_nat n - length l).

(** [speclist[i] = spec]; a write past the end of the list, which the source
    does not do on a list of [num_specs] entries, is left out. *)
Fixpoint write {A : Type} (l : list (option A)) (i : nat) (a : A) : list (option A) :=
  match l, i with
  | [], _ => []
  | _ :: l, O => Some a :: l
  | x :: l, S i => x :: write l i a
  end.

(** The loop [for (int i = st->num_specs; i < specindex; i++)] that fills the
    new entries below [specindex] with placeholders; [count] is the number of
    rounds left. *)
Fixpoint fill_placeholders (l : list (option Spec)) (i : nat) (count : nat)
  : list (option Spec) :=
  match count with
  | O => l
  | S count => fill_placeholders (write l i (mkSpec STAT_CLASS_DFLT 0)) (S i) count
  end.

(** [ClipboardStationsBuilder::AddSpecToStation] where assertions are
    compiled out; [specindex] is a byte and [num_specs] is kept in 8 bits. *)
Definition AddSpecToStation (st : ClipboardStation) (station_class station_type specindex : Z)
  : ClipboardStation :=
  let st :=
    if specindex >=? num_specs st then
      let l := ReallocT (speclist st) (specindex + 1) in
      let l := fill_placeholders l (Z.to_nat (num_specs st))
                 (Z.to_nat (specindex - num_specs st)) in
      mkStation (station_id st) (airport st) ((specindex + 1) mod 2 ^ 8) l
    else st in
  mkStation (station_id st) (airport st) (num_specs st)
            (write (speclist st) (Z.to_nat specindex) (mkSpec station_class station_type)).

(** The first [assert] of [AddSpecToStation]: the spec with index 0 is the
    default station or the default waypoint. *)
Definition default_at_index_zero (station_class station_type specindex : Z) : bool :=
  negb (specindex =? 0) ||
  ((station_type =? 0) &&
   ((station_class =? STAT_CLASS_DFLT) || (station_class =? STAT_CLASS_WAYP))).

(** The second [assert], on the entry found at [specindex]: it is the spec
    that is given, or the placeholder.  An entry that has not been written
    has no value to compare. *)
Definition given_or_placeholder (entry : option Spec) (station_class station_type : Z) : bool :=
  match entry with
  | Some spec =>
      ((stat_class spec =? station_class) && (stat_type spec =? station_type)) ||
      ((stat_class spec =? STAT_CLASS_DFLT) && (stat_type spec =? 0))
  | None => false
  end.

(** Both assertions of [AddSpecToStation]; the second is made only when
    [specindex < st->num_specs]. *)
Definition AddSpecToStation_asserts (st : ClipboardStation)
    (station_class station_type specindex : Z) : bool :=
  default_at_index_zero station_class station_type specindex &&
  ((specindex >=? num_specs st) ||
   match nth_error (speclist st) (Z.to_nat specindex) with
   | Some entry => given_or_placeholder entry station_class station_type
   | None => false
   end).

(** [AddSpecToStation] in a build with assertions. *)
Definition AddSpecToStation_asserting (st : ClipboardStation)
    (station_class station_type specindex : Z) : option ClipboardStation :=
  if AddSpecToStation_asserts st station_class station_type specindex
  then Some (AddSpecToStation st station_class station_type specindex)
  else None.

(** [ClipboardStationsBuilder::AddPart] *)
Definition AddPart (items : list ClipboardStation) (sid : Z) : list ClipboardStation :=
  fst (@AddItem _ station_item items sid).

(** [ClipboardStationsBuilder::AddRailPart] *)
Definition AddRailPart (items : list ClipboardStation)
    (sid station_class station_type specindex : Z) : list ClipboardStation :=
  let '(items, pos) := @AddItem _ station_item items sid in
  change_at items pos (fun st => AddSpecToStation st station_class station_type specindex).

(** [AddRailPart] in a build with assertions: those of [AddSpecToStation]
    are made on the station that [AddItem] returns. *)
Definition AddRailPart_asserting (items : list ClipboardStation)
    (sid station_class station_type specindex : Z) : option (list ClipboardStation) :=
  let '(items1, pos) := @AddItem _ station_item items sid in
  match nth_error items1 pos with
  | Some st =>
      if AddSpecToStation_asserts st station_class station_type specindex
      then Some (AddRailPart items sid station_class station_type specindex)
      else None
  | None => None
  end.

End Stations.

End Clipboard.
(** * Specifications

    The predicates in which the properties below are stated. *)

(** ** Maps and areas *)

Module TileMapProps.
Import Int TileMap.

(** The sizes a map may have: positive, and small enough for the 16-bit
    extents of areas (every map of the game is at most 4096 tiles wide). *)
Definition map_ok (m : Map) : Prop :=
  0 < map_size_x m <= 2 ^ 14 /\ 0 < map_size_y m <= 2 ^ 14.

(** A tile index that exists on map [m]. *)
Definition on_map (m : Map) (t : GenericTileIndex) : Prop :=
  MapOf t = Some m /\ 0 <= IndexOf t /\ IsValidTileIndex t = true.

End TileMapProps.

Module TileAreaProps.
Import Int Direction TileMap TileMapProps TileArea.

(** An area that lies on map [m]: a base tile of [m], extents of at least one
    tile, and no tile beyond the far edges of the map. *)
Definition area_ok (m : Map) (ta : OrthogonalTileArea) : Prop :=
  on_map m (tile ta) /\ 1 <= w ta /\ 1 <= h ta /\
  TileX (tile ta) + w ta <= map_size_x m /\
  TileY (tile ta) + h ta <= map_size_y m.


(** A stand-in for the absent [TransformationBetweenTiles], used to run the
    theorem above on an example: it records the target as the offset. *)
Definition offset_to_target (from_x from_y to_x to_y dtr : Z) : TileTransformation :=
  mkTransformation dtr (mkDiffC (int16 to_x) (int16 to_y)).

(** An area of a 64 by 64 clipboard map while the main map is 256 by 256. *)
Definition clipboard_map : Map := mkMap 64 64.
Definition large_main_map : Map := mkMap 256 256.
Definition clipboard_area : OrthogonalTileArea := mkArea (TileXY 60 60 (Some clipboard_map)) 2 2.

End TileAreaProps.

(** ** The state of the diagonal iterator *)

Module DiagonalProps.
Import Int TileMap TileMapProps DiagonalIterator.

Section Iteration.

(** The map, the extents [A] and [B] of the area and the coordinates of its
    base tile. *)
Variable m : Map.
Variables A B bx by_ : Z.

(** The rotated coordinates of an iterator over the area with extents [A] and
    [B] based at [(bx, by_)]: the column stays inside the row, the row has not
    passed the last one, and off the last row both have the same parity. *)
Definition position_ok (it : DiagonalTileIterator) : Prop :=
  MapOf (tile it) = Some m /\ base_x it = bx /\ base_y it = by_ /\
  a_max it = A /\ b_max it = B /\
  (0 < A -> 0 <= a_cur it < A) /\ (A < 0 -> A < a_cur it <= 0) /\
  (0 < B -> 0 <= b_cur it <= B) /\ (B < 0 -> B <= b_cur it <= 0) /\
  (b_cur it <> B -> (a_cur it - b_cur it) mod 2 = 0).

(** The tile of the iterator is the invalid tile or the tile of the map at
    the rotated coordinates. *)
Definition tile_ok (it : DiagonalTileIterator) : Prop :=
  (IndexOf (tile it) = INVALID_TILE_INDEX /\ IsValidTileIndex (tile it) = false) \/
  (on_map m (tile it) /\
   (b_cur it <> B ->
    2 * TileX (tile it) = 2 * bx + a_cur it - b_cur it /\
    2 * TileY (tile it) = 2 * by_ + a_cur it + b_cur it)).

(** What remains of the iteration. *)
Definition remaining (it : DiagonalTileIterator) : Z :=
  Z.abs (B - b_cur it) * (Z.abs A + 1) - Z.abs (a_cur it).

(** The state of an iterator between two calls of [operator++]. *)
Definition iterator_ok (it : DiagonalTileIterator) : Prop :=
  position_ok it /\ tile_ok it /\ (IsValidTileIndex (tile it) = true -> b_cur it <> B).

End Iteration.

End DiagonalProps.

(** ** The terrain *)

Module TerrainProps.
Import Int TileMap TileMapProps Terraform.

(** Tiles of the main map, by index, and their coordinates. *)
Definition tile_exists (m : Map) (t : Z) : Prop := 0 <= t < map_size_x m * map_size_y m.
Definition corner_x (m : Map) (t : Z) : Z := t mod map_size_x m.
Definition corner_y (m : Map) (t : Z) : Z := t / map_size_x m.

(** Two corners next to each other along an axis of the map, and two corners
    across a tile. *)
Definition adjacent (m : Map) (a b : Z) : Prop :=
  tile_exists m a /\ tile_exists m b /\
  Z.abs (corner_x m a - corner_x m b) + Z.abs (corner_y m a - corner_y m b) = 1.

Definition diagonal (m : Map) (a b : Z) : Prop :=
  tile_exists m a /\ tile_exists m b /\
  Z.abs (corner_x m a - corner_x m b) = 1 /\ Z.abs (corner_y m a - corner_y m b) = 1.

(** The terrain has no step of more than one level between adjacent corners. *)
Definition gentle (m : Map) (h : Z -> Z) : Prop :=
  forall a b, adjacent m a b -> h a - h b <= 1.

(** The neighbours that the loop of [TerraformTileHeight] does not pass over,
    in the order of [_terraform_tilepos]. *)
Definition neighbour_tiles (m : Map) (t : Z) : list Z :=
  (if corner_x m t + 1 <? map_size_x m then [t + 1] else []) ++
  (if 1 <=? corner_x m t then [t - 1] else []) ++
  (if corner_y m t + 1 <? map_size_y m then [t + map_size_x m] else []) ++
  (if 1 <=? corner_y m t then [t - map_size_x m] else []).

(** The loop of [TerraformTileHeight] as a walk over those neighbours. *)
Fixpoint visit_neighbours {Content : Type}
    (recurse : TerraformerState -> Z -> Z -> Outcome Z)
    (w : World Content) (height : Z) (l : list Z) (total_cost : Z) (ts : TerraformerState)
  : Outcome Z :=
  match l with
  | [] => Gives total_cost ts
  | n :: l =>
      terraform_neighbour recurse w height n (visit_neighbours recurse w height l) total_cost ts
  end.

(** The maps on which the loop tells a neighbour from a wrap around the
    edge: at least three tiles wide and high. *)
Definition map_wide (m : Map) : Prop :=
  map_ok m /\ 3 <= map_size_x m /\ 3 <= map_size_y m.

End TerrainProps.

(** ** The state of the collecting phase of [CmdTerraformLand] *)

Module PropagationProps.
Import Int TileMap TileMapProps Terraform TerrainProps.

Section Propagation.

Context {Content : Type}.
Variable w : World Content.

Local Abbreviation m := (main_map w).
Local Abbreviation h0 := (tile_height w).
Local Abbreviation maxh := (max_heightlevel (settings w)).

(** The terrain up ([s = 1]) or down ([s = -1]) which the command moves. *)
Variable s : Z.

(** The heights as the terraforming has them so far. *)
Definition heights_of (ts : TerraformerState) : Z -> Z := TerraformGetHeightOfTile w ts.

(** Every new height is a height that the checks of [TerraformTileHeight]
    let through. *)
Definition values_ok (ts : TerraformerState) : Prop :=
  forall t v, tile_to_new_height ts !! t = Some v -> 0 <= v <= maxh.

(** No corner has moved by more than one level, and only in direction [s]. *)
Definition within_one (h : Z -> Z) : Prop :=
  forall x, s * h0 x <= s * h x <= s * h0 x + 1.

(** Every step of more than one level in [h'] is a step of [h], or is the
    step from [t] to a neighbour that is still [pending]. *)
Definition no_new_steps (h h' : Z -> Z) (t : Z) (pending : list Z) : Prop :=
  forall a b, adjacent m a b -> s * h' b + 1 < s * h' a ->
    s * h b + 1 < s * h a \/ (a = t /\ In b pending).

(** The state in which [TerraformTileHeight] is called for [t] and [v]: the
    corner is one level from [v] and has not moved yet, the terrain is
    gentle to begin with, and no corner that lies two levels or more from
    [v] is at the low end of a step. *)
Definition ready (h : Z -> Z) (t v : Z) : Prop :=
  s * h t = s * v - 1 /\ h0 t = h t /\ gentle m h0 /\ within_one h /\
  (forall a b, adjacent m a b -> s * h b <= s * v - 2 -> s * h a <= s * h b + 1).

(** The state after the corner [t] has been set to [v] and the neighbours
    that are not [pending] have been seen to. *)
Definition settled (h h' : Z -> Z) (t v : Z) (pending : list Z) : Prop :=
  h' t = v /\ within_one h' /\ (forall x, s * h x <= s * h' x) /\ no_new_steps h h' t pending.

(** The depth to which the recursion goes for a target height [v]. *)
Definition depth (v : Z) : Z := (if s =? 1 then v else maxh - v) + 2.

(** What is asked of the recursive call with [fuel]. *)
Definition call_ok (fuel : nat) : Prop :=
  forall ts t v,
    tile_exists m t -> values_ok ts -> ready (heights_of ts) t v ->
    1 <= Z.of_nat fuel -> (0 <= v <= maxh -> depth v <= Z.of_nat fuel) ->
    match TerraformTileHeight fuel w ts t v with
    | OutOfFuel => False
    | Fails _ _ => True
    | Gives _ ts' => values_ok ts' /\ settled (heights_of ts) (heights_of ts') t v []
    end.

(** The state between the corner steps of [CmdTerraformLand]. *)
Definition collected (ts : TerraformerState) : Prop :=
  values_ok ts /\ gentle m (heights_of ts) /\ within_one (heights_of ts).

(** The corners that [CmdTerraformLand] is asked to move: the corners of
    [tile] that are selected in [p1], those of them that belong to other
    tiles only if the tile index is below [MapSize()]. *)
Definition requested_corners (tile p1 : Z) : list Z :=
  (if has_bit p1 SLOPE_W && (tile_add_xy w tile 1 0 <? MapSize (Some m))
   then [tile_add_xy w tile 1 0] else []) ++
  (if has_bit p1 SLOPE_S && (tile_add_xy w tile 1 1 <? MapSize (Some m))
   then [tile_add_xy w tile 1 1] else []) ++
  (if has_bit p1 SLOPE_E && (tile_add_xy w tile 0 1 <? MapSize (Some m))
   then [tile_add_xy w tile 0 1] else []) ++
  (if has_bit p1 SLOPE_N then [tile_add_xy w tile 0 0] else []).

(** The corners [done] stand one level from where they stood, in the
    direction of the command. *)
Definition moved (done : list Z) (ts : TerraformerState) : Prop :=
  forall t, In t done -> heights_of ts t = h0 t + s.

End Propagation.

End PropagationProps.

(** ** The map before and after [CmdTerraformLand] *)

Module CommandProps.
Import Int Terraform.

Section Command.

Context {Content : Type}.

(** The tile hooks change nothing of the map when they are run as a test,
    without [DC_EXEC]. *)
Definition test_runs_change_nothing (hooks : Collaborators Content) : Prop :=
  forall w tile flags, has_bit flags DC_EXEC = false ->
    snd (LandscapeClear hooks w tile flags) = content w /\
    forall z_min tileh, snd (TerraformTileProc hooks w tile flags z_min tileh) = content w.

(** Nothing but [_terraform_err_tile] differs between [w] and [w']. *)
Definition same_but_err_tile (w w' : World Content) : Prop :=
  exists tile, w' = set_terraform_err_tile w tile.

End Command.

End CommandProps.

(** ** The state of a batch of [TerraformTiles] *)

Module BatchProps.
Import Int Terraform.

(** As long as no step of the batch has succeeded, nothing has been spent:
    the cost is 0 and the money at hand is the [money] the batch was given. *)
Definition nothing_done {Content : Type} (money : Z) (s : @Batch Content) : Prop :=
  had_success (result s) = false -> cost (result s) = 0 /\ available_money s = money.

(** The early return of [TerraformTiles] from state [s], at a step on tile
    [t] whose test run [ret] has succeeded and costs more than the money at
    hand: [_additional_cash_required] and [_terraform_err_tile] are set. *)
Definition returned_for_money {Content : Type} (hooks : Collaborators Content)
    (flags money : Z) (s : @Batch Content) : Prop :=
  has_bit flags DC_EXEC = true /\ available_money s < 0 /\
  exists w0 t p2 ret w1,
    DoCommandTerraformLand hooks w0 t SLOPE_N p2 (clear_bit flags DC_EXEC) = (ret, w1) /\
    Failed ret = false /\
    world s = set_terraform_err_tile (set_additional_cash_required w1 (GetCost ret)) t /\
    (had_success (result s) = false ->
     cost (result s) = 0 /\ available_money s = money - GetCost ret).

End BatchProps.

(** ** The tiles of an orthogonal area in the order of its rows *)

Module OrthogonalIteratorProps.
Import Int TileMap TileArea.

(** The tile number [n] of an area, counted along the rows from the base. *)
Definition nth_tile (ta : OrthogonalTileArea) (n : Z) : GenericTileIndex :=
  TileXY (TileX (tile ta) + n mod w ta) (TileY (tile ta) + n / w ta) (MapOf (tile ta)).

(** The iterator over the area when it stands on tile number [n]: [x] and
    [y] count the columns left in the row and the rows left. *)
Definition standing_on (ta : OrthogonalTileArea) (n : Z)
  : OrthogonalIterator.OrthogonalTileIterator :=
  OrthogonalIterator.mkOrthogonal (nth_tile ta n) (w ta) (w ta - n mod w ta) (h ta - n / w ta).

(** The tiles with the numbers [from], ..., [from + count - 1]. *)
Definition tiles_from (ta : OrthogonalTileArea) (from count : nat) : list GenericTileIndex :=
  map (fun n => nth_tile ta (Z.of_nat n)) (seq from count).

(** All [w * h] tiles of the area. *)
Definition area_tiles (ta : OrthogonalTileArea) : list GenericTileIndex :=
  tiles_from ta 0 (Z.to_nat (w ta * h ta)).

End OrthogonalIteratorProps.

(** ** The states of the terraform commands *)

Module TerraformProps.
Import Int TileMap Terraform.

Section World.

Context {Content : Type}.
Variable w : World Content.

(** A tile index of the main map. *)
Definition tile_of_map (t : Z) : Prop := 0 <= t < MapSize (Some (main_map w)).

(** The dirty tiles and the tiles with a new height are tiles of the map. *)
Definition state_on_map (ts : TerraformerState) : Prop :=
  Forall tile_of_map (dirty_tiles ts) /\
  forall t v, tile_to_new_height ts !! t = Some v -> tile_of_map t.

(** The state that a step of the collecting phase leaves is on the map. *)
Definition leaves_on_map {A : Type} (o : Outcome A) : Prop :=
  match o with
  | OutOfFuel => True
  | Fails _ ts => state_on_map ts
  | Gives _ ts => state_on_map ts
  end.

(** The four corners of a tile, in the order in which [CmdTerraformLand]
    goes through them. *)
Definition corners_of (tile : Z) : list Z :=
  [ tile_add_xy w tile 1 0; tile_add_xy w tile 1 1; tile_add_xy w tile 0 1;
    tile_add_xy w tile 0 0 ].

End World.

(** The money spent and the money left of a batch add up to [money], and
    the money left is not negative. *)
Definition within_budget {Content : Type} (money : Z) (s : @Batch Content) : Prop :=
  cost (result s) + available_money s = money /\ 0 <= available_money s.

End TerraformProps.

(** ** The state of a station of the clipboard *)

Module ClipboardProps.
Import Int Clipboard.

(** The list of specs of a station has [num_specs] entries, and all of them
    have been written. *)
Definition specs_ok (st : ClipboardStation) : Prop :=
  Z.of_nat (length (speclist st)) = num_specs st /\
  Forall (fun entry => entry <> None) (speclist st).

(** The spec at index [i] of a station. *)
Definition spec_at (st : ClipboardStation) (i : Z) : option (option Spec) :=
  nth_error (speclist st) (Z.to_nat i).

End ClipboardProps.
(** * Properties *)

(** ** Fixed-width integers *)

Module IntFacts.
Import Int.

Lemma uint32_small z : 0 <= z < 2 ^ 32 -> uint32 z = z.
Proof. intros H. unfold uint32. apply Z.mod_small. exact H. Qed.

Lemma uint16_small z : 0 <= z < 2 ^ 16 -> uint16 z = z.
Proof. intros H. unfold uint16. apply Z.mod_small. exact H. Qed.

Lemma uint32_range z : 0 <= uint32 z < 2 ^ 32.
Proof. unfold uint32. apply Z.mod_pos_bound. lia. Qed.

Lemma int32_small z : - 2 ^ 31 <= z < 2 ^ 31 -> int32 z = z.
Proof.
  intros H. unfold int32, signed.
  destruct (Z_lt_le_dec z 0) as [Hn | Hp].
  - replace (z mod 2 ^ 32) with (z + 2 ^ 32).
    + destruct (Z.ltb_spec (z + 2 ^ 32) (2 ^ (32 - 1))); lia.
    + apply Z.mod_unique with (q := -1); lia.
  - rewrite Z.mod_small by lia.
    destruct (Z.ltb_spec z (2 ^ (32 - 1))); lia.
Qed.

Lemma int16_small z : - 2 ^ 15 <= z < 2 ^ 15 -> int16 z = z.
Proof.
  intros H. unfold int16, signed.
  destruct (Z_lt_le_dec z 0) as [Hn | Hp].
  - replace (z mod 2 ^ 16) with (z + 2 ^ 16).
    + destruct (Z.ltb_spec (z + 2 ^ 16) (2 ^ (16 - 1))); lia.
    + apply Z.mod_unique with (q := -1); lia.
  - rewrite Z.mod_small by lia.
    destruct (Z.ltb_spec z (2 ^ (16 - 1))); lia.
Qed.

(** Reading an unsigned difference of two small values as an [int] gives the
    mathematical difference. *)
Lemma int32_uint32 z : - 2 ^ 31 <= z < 2 ^ 31 -> int32 (uint32 z) = z.
Proof.
  intros H. unfold int32, signed, uint32.
  rewrite Z.mod_mod by lia. apply (int32_small z H).
Qed.

End IntFacts.

(** ** The transformation group ([direction_func.h]) *)

Module DirectionFacts.
Import Int Direction.

Lemma valid_transform_cases t :
  IsValidDirTransform t = true ->
  t = 0 \/ t = 1 \/ t = 2 \/ t = 3 \/ t = 4 \/ t = 5 \/ t = 6 \/ t = 7.
Proof.
  unfold IsValidDirTransform, IsInsideMM, DTR_BEGIN, DTR_END.
  rewrite andb_true_iff, Z.leb_le, Z.ltb_lt. lia.
Qed.

Lemma valid_direction_cases d :
  IsValidDirection d = true ->
  d = 0 \/ d = 1 \/ d = 2 \/ d = 3 \/ d = 4 \/ d = 5 \/ d = 6 \/ d = 7.
Proof.
  unfold IsValidDirection, DIR_END.
  rewrite andb_true_iff, Z.leb_le, Z.ltb_lt. lia.
Qed.

(** Split a validity hypothesis into the eight values of the enumeration. *)
Ltac enum_transform H :=
  apply valid_transform_cases in H;
  repeat (destruct H as [H | H]; [subst | ]); [ .. | subst].

Ltac enum_direction H :=
  apply valid_direction_cases in H;
  repeat (destruct H as [H | H]; [subst | ]); [ .. | subst].

(** The rotation performed by [ChangeDir] does not depend on whether the
    reflected direction [2 * DIR_NE - d] is held in a signed or in an
    unsigned enumeration: only its residue modulo 8 is used. *)
Lemma ChangeDir_mod8 d delta : ChangeDir d delta = (d + delta) mod 8.
Proof.
  unfold ChangeDir, uint32.
  apply Z.mod_mod_divide. exists 536870912. reflexivity.
Qed.

Lemma ChangeDir_unsigned d delta : ChangeDir (uint32 d) delta = ChangeDir d delta.
Proof.
  rewrite !ChangeDir_mod8. unfold uint32.
  rewrite (Z.add_mod (d mod 2 ^ 32)) by lia.
  rewrite (Z.mod_mod_divide d (2 ^ 32) 8) by (exists 536870912; reflexivity).
  rewrite <- Z.add_mod by lia. reflexivity.
Qed.

(** What a build with assertions does in [TransformDir]: the call is
    aborted when a reflection is asked for a direction from [DIR_SE] on, and
    gives the value of [TransformDir] otherwise. *)
Lemma TransformDir_asserting_cases d t :
  IsValidDirection d = true -> IsValidDirTransform t = true ->
  TransformDir_asserting d t =
    if reflects t && (DIR_SE <=? d) then None else Some (TransformDir d t).
Proof.
  intros Hd Ht. enum_direction Hd; enum_transform Ht; reflexivity.
Qed.

(** The values that a build without assertions computes. *)
Lemma TransformDir_values_combine d a b :
  IsValidDirection d = true ->
  IsValidDirTransform a = true -> IsValidDirTransform b = true ->
  IsValidDirection (TransformDir d a) = true /\
  TransformDir (TransformDir d a) b = TransformDir d (CombineDirTransform a b).
Proof.
  intros Hd Ha Hb.
  enum_transform Ha; enum_transform Hb; enum_direction Hd; split; reflexivity.
Qed.

Lemma CombineDirTransform_valid a b :
  IsValidDirTransform a = true -> IsValidDirTransform b = true ->
  IsValidDirTransform (CombineDirTransform a b) = true.
Proof.
  intros Ha Hb. enum_transform Ha; enum_transform Hb; reflexivity.
Qed.

(** C3.  Every one of the eight transformations composed with its inverse, in
    either order, is the identity; [InvertDirTransform] returns a reflection
    unchanged and sends a pure rotation [R] to [(-R) mod 4]. *)
Theorem InvertDirTransform_inverse (T : Z) :
  IsValidDirTransform T = true ->
  CombineDirTransform T (InvertDirTransform T) = DTR_IDENTITY /\
  CombineDirTransform (InvertDirTransform T) T = DTR_IDENTITY /\
  (reflects T = true -> InvertDirTransform T = T) /\
  (reflects T = false -> InvertDirTransform T = (- T) mod 4).
Proof.
  intros HT. enum_transform HT; repeat split; intros; try reflexivity; discriminate.
Qed.

Lemma InvertDirTransform_inverse_witness :
  CombineDirTransform DTR_ROTATE_90_R (InvertDirTransform DTR_ROTATE_90_R) = DTR_IDENTITY /\
  CombineDirTransform (InvertDirTransform DTR_ROTATE_90_R) DTR_ROTATE_90_R = DTR_IDENTITY /\
  (reflects DTR_ROTATE_90_R = true -> InvertDirTransform DTR_ROTATE_90_R = DTR_ROTATE_90_R) /\
  (reflects DTR_ROTATE_90_R = false ->
   InvertDirTransform DTR_ROTATE_90_R = (- DTR_ROTATE_90_R) mod 4).
Proof. apply (InvertDirTransform_inverse DTR_ROTATE_90_R). reflexivity. Defined.

(** C4.  In a build with assertions [TransformDir] is aborted on valid
    arguments: for a reflection it hands [2 * DIR_NE - d] to [ChangeDir],
    which is negative for every direction [d] from [DIR_SE] on, so that
    [assert(IsValidDirection(d))] fails.  There the composition law can only
    be stated of the calls that return; on the values that a build without
    assertions computes it holds for every valid direction and every pair of
    transformations. *)
Theorem TransformDir_aborts_on_reflection (d a b : Z) :
  IsValidDirection d = true ->
  IsValidDirTransform a = true -> IsValidDirTransform b = true ->
  (TransformDir_asserting d a = None <-> reflects a = true /\ DIR_SE <= d) /\
  (forall d1, TransformDir_asserting d a = Some d1 ->
     d1 = TransformDir d a /\ IsValidDirection d1 = true /\
     forall d2 d3,
       TransformDir_asserting d1 b = Some d2 ->
       TransformDir_asserting d (CombineDirTransform a b) = Some d3 -> d2 = d3) /\
  TransformDir (TransformDir d a) b = TransformDir d (CombineDirTransform a b).
Proof.
  intros Hd Ha Hb.
  destruct (TransformDir_values_combine d a b Hd Ha Hb) as [Hvalid Hvalues].
  pose proof (TransformDir_asserting_cases d a Hd Ha) as Ea.
  split; [ | split; [ | exact Hvalues]].
  - rewrite Ea. destruct (reflects a); cbn [andb].
    + destruct (Z.leb_spec DIR_SE d); split; try discriminate; auto.
      intros [_ Hle]. lia.
    + split; [discriminate | intros [Habs _]; discriminate].
  - intros d1 E1. rewrite Ea in E1.
    destruct (reflects a && (DIR_SE <=? d)); [discriminate | ].
    injection E1 as <-. split; [reflexivity | ]. split; [exact Hvalid | ].
    intros d2 d3 E2 E3.
    rewrite (TransformDir_asserting_cases _ b Hvalid Hb) in E2.
    rewrite (TransformDir_asserting_cases d _ Hd (CombineDirTransform_valid a b Ha Hb)) in E3.
    destruct (reflects b && _); [discriminate | ].
    destruct (reflects (CombineDirTransform a b) && _); [discriminate | ].
    congruence.
Qed.

(** The failing call: the reflection of [DIR_SE] in the line from north-east
    to south-west, which would be [DIR_NW]; and a reflection that returns,
    that of [DIR_NE], followed by a rotation. *)
Lemma TransformDir_aborts_on_reflection_witness :
  IsValidDirection DIR_SE = true /\ IsValidDirTransform DTR_REFLECT_NE_SW = true /\
  TransformDir_asserting DIR_SE DTR_REFLECT_NE_SW = None /\
  TransformDir (TransformDir DIR_SE DTR_REFLECT_NE_SW) DTR_ROTATE_90_R
    = TransformDir DIR_SE (CombineDirTransform DTR_REFLECT_NE_SW DTR_ROTATE_90_R) /\
  (forall d2 d3,
     TransformDir_asserting DIR_NE DTR_REFLECT_NE_SW = Some DIR_NE /\
     (TransformDir_asserting DIR_NE DTR_ROTATE_90_R = Some d2 ->
      TransformDir_asserting DIR_NE (CombineDirTransform DTR_REFLECT_NE_SW DTR_ROTATE_90_R)
        = Some d3 -> d2 = d3)).
Proof.
  destruct (TransformDir_aborts_on_reflection DIR_SE DTR_REFLECT_NE_SW DTR_ROTATE_90_R
              eq_refl eq_refl eq_refl) as (Haborts & _ & Hvalues).
  destruct (TransformDir_aborts_on_reflection DIR_NE DTR_REFLECT_NE_SW DTR_ROTATE_90_R
              eq_refl eq_refl eq_refl) as (_ & Hreturns & _).
  split; [reflexivity | ]. split; [reflexivity | ].
  split; [apply (proj2 Haborts); split; [reflexivity | apply Z.le_refl] | ].
  split; [exact Hvalues | ].
  intros d2 d3. split; [reflexivity | ].
  destruct (Hreturns DIR_NE eq_refl) as (_ & _ & Hsame). apply Hsame.
Defined.

(** The call [TransformDir(DIR_SE, DTR_REFLECT_NE_SW)] by itself: the
    arguments are valid, the value handed to [ChangeDir] is [-1], and the run
    with assertions has no result, where the arithmetic gives [DIR_NW]. *)
Lemma TransformDir_of_DIR_SE_aborts :
  IsValidDirection DIR_SE = true /\ IsValidDirTransform DTR_REFLECT_NE_SW = true /\
  2 * DIR_NE - DIR_SE = -1 /\ IsValidDirection (2 * DIR_NE - DIR_SE) = false /\
  TransformDir_asserting DIR_SE DTR_REFLECT_NE_SW = None /\
  TransformDir DIR_SE DTR_REFLECT_NE_SW = DIR_NW.
Proof. repeat split. Qed.

(** The sign of the rotation really has to follow the reflection bit of the
    second operand: adding the rotation counts regardless gives a
    transformation that moves [DIR_N] elsewhere. *)
Lemma NaiveCombine_disagrees :
  TransformDir (TransformDir DIR_N DTR_ROTATE_90_R) DTR_REFLECT_NE_SW <>
  TransformDir DIR_N (NaiveCombine DTR_ROTATE_90_R DTR_REFLECT_NE_SW).
Proof. vm_compute. discriminate. Qed.

(** The rotation bits of a combination are [RB + RA] or [RB - RA] modulo 4,
    the choice being made on the reflection bit of [b]. *)
Lemma CombineDirTransform_rotation a b :
  IsValidDirTransform a = true -> IsValidDirTransform b = true ->
  Z.land (CombineDirTransform a b) DTR_ROTATION_MASK =
  (if reflects b then b - a else b + a) mod 4 /\
  reflects (CombineDirTransform a b) = xorb (reflects a) (reflects b).
Proof.
  intros Ha Hb. enum_transform Ha; enum_transform Hb; split; reflexivity.
Qed.

End DirectionFacts.

(** ** Coordinates of tile indices *)

Module TileMapFacts.
Import Int IntFacts Direction TileMap TileMapProps.

Lemma map_ok_size m : map_ok m -> 0 < MapSize (Some m) <= 2 ^ 28.
Proof.
  intros [[Hx Hx'] [Hy Hy']]. unfold MapSize. simpl. split; [nia | ].
  change (2 ^ 28) with (2 ^ 14 * 2 ^ 14). nia.
Qed.

Lemma on_map_index m t : on_map m t -> 0 <= IndexOf t < map_size_x m * map_size_y m.
Proof.
  intros (Hm & H0 & Hv). unfold IsValidTileIndex in Hv. rewrite Hm in Hv.
  apply Z.ltb_lt in Hv. unfold MapSize in Hv. simpl in Hv. lia.
Qed.

Lemma on_map_X m t : map_ok m -> on_map m t -> 0 <= TileX t < map_size_x m.
Proof.
  intros [[Hx _] _] Ht. unfold TileX. destruct Ht as (-> & _ & _). simpl.
  apply Z.mod_pos_bound. exact Hx.
Qed.

Lemma on_map_Y m t : map_ok m -> on_map m t -> 0 <= TileY t < map_size_y m.
Proof.
  intros [[Hx _] _] Ht. pose proof (on_map_index m t Ht) as Hi.
  unfold TileY. destruct Ht as (-> & _ & _). simpl. split.
  - apply Z.div_pos; lia.
  - apply Z.div_lt_upper_bound; lia.
Qed.

Lemma index_of_coordinates m t :
  map_ok m -> on_map m t -> IndexOf t = TileY t * map_size_x m + TileX t.
Proof.
  intros [[Hx _] _] Ht. unfold TileX, TileY. destruct Ht as (-> & _ & _). simpl.
  rewrite Z.mul_comm. apply Z.div_mod. lia.
Qed.

Lemma TileXY_index m x y :
  map_ok m -> 0 <= x < map_size_x m -> 0 <= y < map_size_y m ->
  IndexOf (TileXY x y (Some m)) = y * map_size_x m + x /\
  0 <= y * map_size_x m + x < map_size_x m * map_size_y m.
Proof.
  intros Hok Hx Hy. pose proof (map_ok_size m Hok) as Hs.
  unfold MapSize in Hs. simpl in Hs.
  assert (Hr : 0 <= y * map_size_x m + x < map_size_x m * map_size_y m) by nia.
  split; [ | exact Hr]. unfold TileXY. simpl. apply uint32_small. lia.
Qed.

Lemma TileXY_on_map m x y :
  map_ok m -> 0 <= x < map_size_x m -> 0 <= y < map_size_y m ->
  on_map m (TileXY x y (Some m)).
Proof.
  intros Hok Hx Hy. destruct (TileXY_index m x y Hok Hx Hy) as [Hi Hr].
  unfold on_map, IsValidTileIndex. rewrite Hi. simpl. repeat split; try lia.
  apply Z.ltb_lt. unfold MapSize. simpl. lia.
Qed.

Lemma TileX_TileXY m x y :
  map_ok m -> 0 <= x < map_size_x m -> 0 <= y < map_size_y m ->
  TileX (TileXY x y (Some m)) = x.
Proof.
  intros Hok Hx Hy. destruct (TileXY_index m x y Hok Hx Hy) as [Hi _].
  unfold TileX. rewrite Hi. simpl.
  rewrite Z.add_comm, Z.mod_add by lia. apply Z.mod_small. lia.
Qed.

Lemma TileY_TileXY m x y :
  map_ok m -> 0 <= x < map_size_x m -> 0 <= y < map_size_y m ->
  TileY (TileXY x y (Some m)) = y.
Proof.
  intros Hok Hx Hy. destruct (TileXY_index m x y Hok Hx Hy) as [Hi _].
  unfold TileY. rewrite Hi. simpl.
  rewrite Z.add_comm, Z.div_add by lia. rewrite Z.div_small by lia. lia.
Qed.

(** A tile of a map is the tile of its coordinates. *)
Lemma TileXY_coordinates m t :
  map_ok m -> on_map m t -> TileXY (TileX t) (TileY t) (Some m) = t.
Proof.
  intros Hok Ht.
  pose proof (on_map_X m t Hok Ht) as HX. pose proof (on_map_Y m t Hok Ht) as HY.
  destruct (TileXY_index m _ _ Hok HX HY) as [Hi _].
  pose proof (index_of_coordinates m t Hok Ht) as Hc.
  destruct t as [i mp]. destruct Ht as (Hm & _ & _). simpl in *. subst mp.
  unfold TileXY in *. simpl in *. f_equal. lia.
Qed.

Lemma TransformedNorthCornerDiffC_bit t :
  IsValidDirTransform t = true ->
  (diff_x (TransformedNorthCornerDiffC t) = 0 \/ diff_x (TransformedNorthCornerDiffC t) = 1) /\
  (diff_y (TransformedNorthCornerDiffC t) = 0 \/ diff_y (TransformedNorthCornerDiffC t) = 1).
Proof.
  intros Ht. DirectionFacts.enum_transform Ht; vm_compute; auto.
Qed.

End TileMapFacts.

(** ** Orthogonal tile areas *)

Module TileAreaFacts.
Import Int IntFacts Direction TileMap TileMapProps TileMapFacts TileArea TileAreaProps.

Lemma Contains_coordinates m ta t :
  map_ok m -> area_ok m ta ->
  Contains ta t = true <->
  (TileX (tile ta) <= TileX t < TileX (tile ta) + w ta /\
   TileY (tile ta) <= TileY t < TileY (tile ta) + h ta).
Proof.
  intros Hok (Ht & Hw & Hh & Hx & Hy). unfold Contains, IsInsideBS.
  destruct (Z.eqb_spec (w ta) 0) as [E | _]; [lia | ].
  rewrite !andb_true_iff, !Z.leb_le, !Z.ltb_lt. tauto.
Qed.

Lemma ContainsArea_coordinates m box ta :
  map_ok m -> area_ok m box -> area_ok m ta ->
  ContainsArea box ta = true <->
  (TileX (tile box) <= TileX (tile ta) /\
   TileX (tile ta) + w ta <= TileX (tile box) + w box /\
   TileY (tile box) <= TileY (tile ta) /\
   TileY (tile ta) + h ta <= TileY (tile box) + h box).
Proof.
  intros Hok (Hb & Hbw & Hbh & Hbx & Hby) (Ht & Hw & Hh & Hx & Hy).
  pose proof (on_map_X m _ Hok Hb). pose proof (on_map_Y m _ Hok Hb).
  pose proof (on_map_X m _ Hok Ht). pose proof (on_map_Y m _ Hok Ht).
  destruct Hok as [[? ?] [? ?]].
  unfold ContainsArea.
  destruct (Z.eqb_spec (w ta) 0) as [E | _]; [lia | ].
  destruct (Z.eqb_spec (w box) 0) as [E | _]; [lia | ].
  simpl orb. cbv iota.
  rewrite !uint32_small by lia.
  rewrite !andb_true_iff, !Z.geb_le, !Z.leb_le. lia.
Qed.

Lemma Add_empty ta t : IsValidTileIndex (tile ta) = false -> Add ta t = mkArea t 1 1.
Proof. intros H. unfold Add. rewrite H. reflexivity. Qed.



(** The two extreme tiles of an area are tiles of the area. *)
Lemma area_corners m ta :
  map_ok m -> area_ok m ta ->
  exists lo hi, on_map m lo /\ on_map m hi /\
    Contains ta lo = true /\ Contains ta hi = true /\
    TileX lo = TileX (tile ta) /\ TileY lo = TileY (tile ta) /\
    TileX hi = TileX (tile ta) + w ta - 1 /\ TileY hi = TileY (tile ta) + h ta - 1.
Proof.
  intros Hok Ha. pose proof Ha as (Hb & Hw & Hh & Hx & Hy).
  pose proof (on_map_X m _ Hok Hb) as HbX. pose proof (on_map_Y m _ Hok Hb) as HbY.
  set (x1 := TileX (tile ta) + w ta - 1). set (y1 := TileY (tile ta) + h ta - 1).
  assert (Hx1 : 0 <= x1 < map_size_x m) by (unfold x1; lia).
  assert (Hy1 : 0 <= y1 < map_size_y m) by (unfold y1; lia).
  exists (tile ta), (TileXY x1 y1 (Some m)).
  rewrite (TileX_TileXY m x1 y1 Hok Hx1 Hy1), (TileY_TileXY m x1 y1 Hok Hx1 Hy1).
  split; [exact Hb | ].
  split; [apply (TileXY_on_map m x1 y1 Hok Hx1 Hy1) | ].
  split; [apply (Contains_coordinates m ta _ Hok Ha); lia | ].
  split; [ | auto].
  apply (Contains_coordinates m ta _ Hok Ha).
  rewrite (TileX_TileXY m x1 y1 Hok Hx1 Hy1), (TileY_TileXY m x1 y1 Hok Hx1 Hy1).
  unfold x1, y1. lia.
Qed.




(** *** Transformations between areas *)

Section Transformations.

Variable TransformationBetweenTiles : Z -> Z -> Z -> Z -> Z -> TileTransformation.

Abbreviation BetweenAreas := (TransformationBetweenTileAreas TransformationBetweenTiles).
Abbreviation BetweenCorners := (TransformationBetweenTileAreaCorners TransformationBetweenTiles).

(** C5.  For areas that satisfy the extent precondition, the transformation
    between the corners of two areas has the direction transformation of the
    transformation between the areas, and an offset that is larger by
    [TransformedNorthCornerDiffC dtr] in x and in y, as long as the 16-bit
    offset fields can hold the incremented values. *)
Theorem TransformationBetweenTileAreaCorners_offset
    (from to : OrthogonalTileArea) (dtr : Z) :
  IsValidDirTransform dtr = true ->
  extents_agree from to dtr = true ->
  INT16_MIN <= diff_x (offset (BetweenAreas from to dtr)) < INT16_MAX ->
  INT16_MIN <= diff_y (offset (BetweenAreas from to dtr)) < INT16_MAX ->
  TileMap.dtr (BetweenCorners from to dtr) = TileMap.dtr (BetweenAreas from to dtr) /\
  diff_x (offset (BetweenCorners from to dtr)) =
    diff_x (offset (BetweenAreas from to dtr)) + diff_x (TransformedNorthCornerDiffC dtr) /\
  diff_y (offset (BetweenCorners from to dtr)) =
    diff_y (offset (BetweenAreas from to dtr)) + diff_y (TransformedNorthCornerDiffC dtr).
Proof.
  intros Hdtr _ Hx Hy.
  destruct (TransformedNorthCornerDiffC_bit dtr Hdtr) as [Bx By].
  unfold TransformationBetweenTileAreaCorners.
  cbn [TileMap.dtr offset diff_x diff_y].
  unfold INT16_MIN, INT16_MAX in *.
  split; [reflexivity | ]. split; apply int16_small; lia.
Qed.

End Transformations.

Lemma TransformationBetweenTileAreaCorners_offset_witness :
  let m := mkMap 64 64 in
  let from := mkArea (TileXY 3 4 (Some m)) 4 3 in
  let to := mkArea (TileXY 10 20 (Some m)) 3 4 in
  let dtr := DTR_ROTATE_90_R in
  let cell := TransformationBetweenTileAreas offset_to_target from to dtr in
  let corner := TransformationBetweenTileAreaCorners offset_to_target from to dtr in
  IsValidDirTransform dtr = true /\
  extents_agree from to dtr = true /\
  INT16_MIN <= diff_x (offset cell) < INT16_MAX /\
  INT16_MIN <= diff_y (offset cell) < INT16_MAX /\
  TileMap.dtr corner = TileMap.dtr cell /\
  diff_x (offset corner) = diff_x (offset cell) + diff_x (TransformedNorthCornerDiffC dtr) /\
  diff_y (offset corner) = diff_y (offset cell) + diff_y (TransformedNorthCornerDiffC dtr).
Proof.
  intros m from to dtr cell corner.
  assert (H1 : IsValidDirTransform dtr = true) by reflexivity.
  assert (H2 : extents_agree from to dtr = true) by reflexivity.
  assert (H3 : INT16_MIN <= diff_x (offset cell) < INT16_MAX) by (vm_compute; split; discriminate || reflexivity).
  assert (H4 : INT16_MIN <= diff_y (offset cell) < INT16_MAX) by (vm_compute; split; discriminate || reflexivity).
  split; [exact H1 | ]. split; [exact H2 | ]. split; [exact H3 | ]. split; [exact H4 | ].
  apply (TransformationBetweenTileAreaCorners_offset offset_to_target from to dtr H1 H2 H3 H4).
Defined.

(** *** Expand *)

Lemma area_ok_valid m ta : area_ok m ta -> IsValidTileIndex (tile ta) = true.
Proof. intros ((_ & _ & H) & _). exact H. Qed.

(** On the main map itself [Expand] is the clamped growth that the
    specification describes. *)
Lemma Expand_on_main_map (main : Map) (ta : OrthogonalTileArea) (rad : Z) :
  map_ok main -> area_ok main ta -> 0 <= rad <= 2 ^ 16 ->
  Expand main ta rad = ExpandedOnOwnGrid ta rad /\
  TileX (tile (Expand main ta rad)) = Z.max (TileX (tile ta) - rad) 0 /\
  TileY (tile (Expand main ta rad)) = Z.max (TileY (tile ta) - rad) 0 /\
  TileX (tile (Expand main ta rad)) + w (Expand main ta rad) =
    Z.min (TileX (tile ta) + w ta + rad) (map_size_x main) /\
  TileY (tile (Expand main ta rad)) + h (Expand main ta rad) =
    Z.min (TileY (tile ta) + h ta + rad) (map_size_y main).
Proof.
  intros Hok Ha Hrad. pose proof Ha as (Hb & Hw & Hh & Hx & Hy).
  pose proof (on_map_X main _ Hok Hb) as HbX. pose proof (on_map_Y main _ Hok Hb) as HbY.
  pose proof Hok as [[? ?] [? ?]].
  assert (Hmap : MapOf (tile ta) = Some main) by apply Hb.
  unfold Expand, ExpandedOnOwnGrid. rewrite Hmap. simpl MapSizeX. simpl MapSizeY.
  rewrite (int32_small (TileX (tile ta))) by lia.
  rewrite (int32_small (TileY (tile ta))) by lia.
  rewrite (int32_small (TileX (tile ta) - rad)) by lia.
  rewrite (int32_small (TileY (tile ta) - rad)) by lia.
  rewrite (int32_small (TileX (tile ta) + w ta + rad)) by lia.
  rewrite (int32_small (TileY (tile ta) + h ta + rad)) by lia.
  rewrite (int32_small (map_size_x main)) by lia.
  rewrite (int32_small (map_size_y main)) by lia.
  set (sx := Z.max (TileX (tile ta) - rad) 0).
  set (sy := Z.max (TileY (tile ta) - rad) 0).
  set (ex := Z.min (TileX (tile ta) + w ta + rad) (map_size_x main)).
  set (ey := Z.min (TileY (tile ta) + h ta + rad) (map_size_y main)).
  assert (Hsx : 0 <= sx < map_size_x main) by (unfold sx; lia).
  assert (Hsy : 0 <= sy < map_size_y main) by (unfold sy; lia).
  assert (Hex : sx < ex <= map_size_x main) by (unfold sx, ex; lia).
  assert (Hey : sy < ey <= map_size_y main) by (unfold sy, ey; lia).
  rewrite (int32_small (ex - sx)), (int32_small (ey - sy)) by lia.
  rewrite !uint16_small by lia.
  simpl tile. simpl w. simpl h.
  rewrite (TileX_TileXY main sx sy Hok Hsx Hsy), (TileY_TileXY main sx sy Hok Hsx Hsy).
  split; [reflexivity | lia].
Qed.

(** C8.  On an area of a map other than the main map, [Expand] clamps the far
    bounds to the size of the main map and not to the grid the area lies on:
    a 2 by 2 area at (60, 60) of a 64 by 64 map, expanded by 5 while the main
    map is 256 by 256, becomes 12 by 12 at (55, 55) and so reaches column and
    row 66, beyond its own map, where clamping to its own grid gives 9 by 9. *)
Theorem Expand_clamps_to_main_map :
  area_ok clipboard_map clipboard_area /\
  Expand large_main_map clipboard_area 5 = mkArea (TileXY 55 55 (Some clipboard_map)) 12 12 /\
  ExpandedOnOwnGrid clipboard_area 5 = mkArea (TileXY 55 55 (Some clipboard_map)) 9 9 /\
  TileX (tile (Expand large_main_map clipboard_area 5)) + w (Expand large_main_map clipboard_area 5)
    > MapSizeX (MapOf (tile clipboard_area)) /\
  w (ClampToMap (Expand large_main_map clipboard_area 5)) = 9.
Proof.
  split.
  - unfold area_ok, on_map. vm_compute. repeat split; discriminate.
  - vm_compute. repeat split.
Qed.

End TileAreaFacts.

(** ** The diagonal iterator *)

Module DiagonalFacts.
Import Int IntFacts TileMap TileMapProps TileMapFacts DiagonalIterator DiagonalProps.

Lemma int16_uint32 z : - 2 ^ 15 <= z < 2 ^ 15 -> int16 (uint32 z) = z.
Proof.
  intros H. rewrite <- (int16_small z H) at 2. unfold int16, signed, uint32.
  rewrite (Z.mod_mod_divide z (2 ^ 32) (2 ^ 16)) by (exists (2 ^ 16); reflexivity).
  reflexivity.
Qed.

(** An unsigned value below a bound of the map was not produced by wrapping a
    negative number. *)
Lemma uint32_below z s :
  - 2 ^ 31 <= z < 2 ^ 31 -> s <= 2 ^ 31 -> uint32 z < s -> 0 <= z /\ uint32 z = z.
Proof.
  intros Hz Hs Hlt. destruct (Z_lt_le_dec z 0) as [Hn | Hp].
  - exfalso. assert (E : uint32 z = z + 2 ^ 32).
    { unfold uint32. symmetry. apply Z.mod_unique with (q := -1); lia. }
    lia.
  - split; [exact Hp | ]. apply uint32_small. lia.
Qed.

Section Iteration.

Variable m : Map.
Hypothesis Hok : map_ok m.
Variables A B bx by_ : Z.
Hypothesis HA : A <> 0 /\ - 2 ^ 15 < A < 2 ^ 15.
Hypothesis HB : B <> 0 /\ - 2 ^ 15 < B < 2 ^ 15.
Hypothesis Hbx : 0 <= bx < map_size_x m.
Hypothesis Hby : 0 <= by_ < map_size_y m.

Local Abbreviation position_ok := (DiagonalProps.position_ok m A B bx by_).
Local Abbreviation tile_ok := (DiagonalProps.tile_ok m B bx by_).
Local Abbreviation remaining := (DiagonalProps.remaining A B).
Local Abbreviation iterator_ok := (DiagonalProps.iterator_ok m A B bx by_).

Lemma next_position_ok it :
  position_ok it -> b_cur it <> B ->
  let '(a', b') := next_position it in
  (0 < A -> 0 <= a' < A) /\ (A < 0 -> A < a' <= 0) /\
  (0 < B -> 0 <= b' <= B) /\ (B < 0 -> B <= b' <= 0) /\
  (b' <> B -> (a' - b') mod 2 = 0) /\
  (b' <> B -> Z.abs (B - b') * (Z.abs A + 1) - Z.abs a' < remaining it).
Proof.
  intros (_ & _ & _ & EA & EB & Ha1 & Ha2 & Hb1 & Hb2 & Hpar) Hne.
  specialize (Hpar Hne).
  unfold next_position, DiagonalProps.remaining. rewrite EA, EB.
  destruct HA as [HA0 HAr]. destruct HB as [HB0 HBr].
  rewrite !Z.gtb_ltb, !Z.geb_leb.
  destruct (Z.eqb_spec A 1) as [E1 | N1]; [ | destruct (Z.eqb_spec A (-1)) as [E2 | N2]];
    cbn [orb].
  - (* a single column, to the right *)
    assert (a_cur it = 0) by lia.
    destruct (Z.ltb_spec 0 B); rewrite int32_small by lia;
      (repeat split; try lia; intros Hb; Z.div_mod_to_equations; lia).
  - (* a single column, to the left *)
    assert (a_cur it = 0) by lia.
    destruct (Z.ltb_spec 0 B); rewrite int32_small by lia;
      (repeat split; try lia; intros Hb; Z.div_mod_to_equations; lia).
  - (* every column has a tile *)
    destruct (Z.ltb_spec 0 A) as [HAp | HAn].
    + rewrite (int32_small (a_cur it + 2)) by lia.
      destruct (Z.leb_spec A (a_cur it + 2)) as [Hnl | Hin].
      * rewrite (int32_small (Z.abs _)) by lia.
        assert (Habs : Z.abs (a_cur it + 2) = a_cur it + 2) by lia. rewrite Habs.
        destruct (Z.ltb_spec 0 B);
          [rewrite (int32_small (b_cur it + 1)) by lia
          | rewrite (int32_small (b_cur it - 1)) by lia];
          (destruct (Z.eqb_spec ((a_cur it + 2) mod 2) 0) as [Ev | Od]; cbn [negb];
           repeat split; try lia; intros _; Z.div_mod_to_equations; nia).
      * repeat split; try lia; intros _; Z.div_mod_to_equations; lia.
    + rewrite (int32_small (a_cur it - 2)) by lia.
      destruct (Z.leb_spec (a_cur it - 2) A) as [Hnl | Hin].
      * rewrite (int32_small (Z.abs _)) by lia.
        assert (Habs : Z.abs (a_cur it - 2) = 2 - a_cur it) by lia. rewrite Habs.
        destruct (Z.ltb_spec 0 B);
          [rewrite (int32_small (b_cur it + 1)) by lia
          | rewrite (int32_small (b_cur it - 1)) by lia];
          (destruct (Z.eqb_spec ((2 - a_cur it) mod 2) 0) as [Ev | Od]; cbn [negb];
           repeat split; try lia; intros _; Z.div_mod_to_equations; nia).
      * repeat split; try lia; intros _; Z.div_mod_to_equations; lia.
Qed.

Lemma invalid_tile_not_valid t :
  MapOf t = Some m -> IsValidTileIndex (SetIndexOf t INVALID_TILE_INDEX) = false.
Proof.
  intros Hm. unfold IsValidTileIndex, SetIndexOf. simpl. rewrite Hm.
  pose proof (map_ok_size m Hok) as Hs. apply Z.ltb_ge.
  unfold INVALID_TILE_INDEX. lia.
Qed.

Lemma advance_ok it :
  position_ok it -> b_cur it <> B ->
  position_ok (advance it) /\ tile_ok (advance it) /\
  (b_cur (advance it) <> B -> remaining (advance it) < remaining it).
Proof.
  intros Hpos Hne. pose proof (next_position_ok it Hpos Hne) as Hnext.
  destruct Hpos as (Emap & Ebx & Eby & EA & EB & _).
  unfold advance, DiagonalProps.remaining in *. destruct (next_position it) as [a' b'].
  destruct Hnext as (Ha1 & Ha2 & Hb1 & Hb2 & Hpar & Hrem).
  destruct HA as [HA0 HAr]. destruct HB as [HB0 HBr].
  pose proof Hok as [[Hsx0 Hsx1] [Hsy0 Hsy1]].
  cbn [tile base_x base_y a_cur b_cur a_max b_max].
  rewrite Emap, Ebx, Eby. cbn [MapSizeX MapSizeY].
  rewrite (int32_small (a' - b')), (int32_small (b' + a')) by lia.
  set (x := uint32 (bx + Z.quot (a' - b') 2)).
  set (y := uint32 (by_ + Z.quot (b' + a') 2)).
  split; [ | split; [ | exact Hrem]].
  - (* the position *)
    unfold DiagonalProps.position_ok. cbn [tile base_x base_y a_cur b_cur a_max b_max].
    split.
    { destruct ((x >=? map_size_x m) || (y >=? map_size_y m)); [exact Emap | reflexivity]. }
    repeat split; try assumption; apply Ha1 || apply Ha2 || apply Hb1 || apply Hb2; assumption.
  - (* the tile *)
    unfold DiagonalProps.tile_ok. cbn [tile base_x base_y a_cur b_cur a_max b_max].
    rewrite !Z.geb_leb.
    destruct (Z.leb_spec (map_size_x m) x) as [Hx | Hx]; cbn [orb].
    { left. split; [reflexivity | apply invalid_tile_not_valid, Emap]. }
    destruct (Z.leb_spec (map_size_y m) y) as [Hy | Hy].
    { left. split; [reflexivity | apply invalid_tile_not_valid, Emap]. }
    right.
    assert (Hqx : - 2 ^ 16 <= Z.quot (a' - b') 2 <= 2 ^ 16)
      by (Z.to_euclidean_division_equations; lia).
    assert (Hqy : - 2 ^ 16 <= Z.quot (b' + a') 2 <= 2 ^ 16)
      by (Z.to_euclidean_division_equations; lia).
    destruct (uint32_below (bx + Z.quot (a' - b') 2) (map_size_x m)) as [Hx0 Ex];
      [lia | lia | exact Hx | ].
    destruct (uint32_below (by_ + Z.quot (b' + a') 2) (map_size_y m)) as [Hy0 Ey];
      [lia | lia | exact Hy | ].
    fold x in Ex. fold y in Ey.
    assert (Hxr : 0 <= x < map_size_x m) by lia.
    assert (Hyr : 0 <= y < map_size_y m) by lia.
    split; [apply (TileXY_on_map m x y Hok Hxr Hyr) | ].
    intros Hb. specialize (Hpar Hb).
    rewrite (TileX_TileXY m x y Hok Hxr Hyr), (TileY_TileXY m x y Hok Hxr Hyr).
    rewrite Ex, Ey. split; Z.to_euclidean_division_equations; lia.
Qed.

(** The loop of [operator++] finishes within [remaining] passes, on a tile of
    the map or on the last row. *)
Lemma advance_loop_ok : forall fuel it,
  position_ok it -> b_cur it <> B -> remaining it < Z.of_nat fuel ->
  exists it', advance_loop fuel it = Some it' /\
    position_ok it' /\ tile_ok it' /\
    (IsValidTileIndex (tile it') = true \/ b_cur it' = B).
Proof.
  induction fuel as [ | fuel IH]; intros it Hpos Hne Hfuel.
  - exfalso. destruct Hpos as (_ & _ & _ & _ & _ & Ha1 & Ha2 & Hb1 & Hb2 & _).
    unfold DiagonalProps.remaining in Hfuel. destruct HA as [HA0 HAr]. destruct HB as [HB0 HBr].
    simpl in Hfuel. nia.
  - destruct (advance_ok it Hpos Hne) as (Hpos' & Htile' & Hrem').
    cbn [advance_loop].
    destruct (IsValidTileIndex (tile (advance it))) eqn:Hv; cbn [negb andb].
    + exists (advance it). auto.
    + destruct (Z.eqb_spec (b_max (advance it)) (b_cur (advance it))) as [Eb | Nb]; cbn [negb].
      * exists (advance it).
        split; [reflexivity | split; [exact Hpos' | split; [exact Htile' | right]]].
        destruct Hpos' as (_ & _ & _ & _ & EB & _). lia.
      * assert (Hne' : b_cur (advance it) <> B).
        { destruct Hpos' as (_ & _ & _ & _ & EB & _). lia. }
        apply IH; [exact Hpos' | exact Hne' | ]. specialize (Hrem' Hne'). lia.
Qed.

Lemma remaining_bound it : position_ok it -> remaining it <= Z.abs B * (Z.abs A + 1).
Proof.
  intros (_ & _ & _ & _ & _ & Ha1 & Ha2 & Hb1 & Hb2 & _).
  unfold DiagonalProps.remaining. destruct HA as [HA0 HAr]. destruct HB as [HB0 HBr]. nia.
Qed.

Lemma next_ok fuel it :
  iterator_ok it -> IsValidTileIndex (tile it) = true ->
  Z.abs B * (Z.abs A + 1) < Z.of_nat fuel ->
  exists it', next fuel it = Some it' /\ iterator_ok it'.
Proof.
  intros (Hpos & Htile & Hvb) Hv Hfuel.
  pose proof (remaining_bound it Hpos) as Hbound.
  destruct (advance_loop_ok fuel it Hpos (Hvb Hv) ltac:(lia))
    as (it' & Eloop & Hpos' & Htile' & Hend).
  unfold next. rewrite Eloop.
  pose proof Hpos' as (Emap & Ebx & Eby & EA & EB & Ha1 & Ha2 & Hb1 & Hb2 & Hpar).
  destruct (Z.eqb_spec (b_max it') (b_cur it')) as [Eb | Nb].
  - eexists. split; [reflexivity | ].
    unfold DiagonalProps.iterator_ok, DiagonalProps.position_ok, DiagonalProps.tile_ok.
    cbn [tile base_x base_y a_cur b_cur a_max b_max].
    rewrite (invalid_tile_not_valid (tile it') Emap).
    split; [ | split; [left; split; reflexivity | discriminate]].
    exact (conj Emap (conj Ebx (conj Eby (conj EA (conj EB
            (conj Ha1 (conj Ha2 (conj Hb1 (conj Hb2 Hpar))))))))).
  - exists it'. split; [reflexivity | ].
    split; [exact Hpos' | split; [exact Htile' | ]]. intros _. lia.
Qed.

Lemma iterate_ok fuel : forall n it,
  iterator_ok it -> Z.abs B * (Z.abs A + 1) < Z.of_nat fuel ->
  exists it', iterate fuel n it = Some it' /\ iterator_ok it'.
Proof.
  induction n as [ | n IH]; intros it Hit Hfuel.
  - exists it. split; [reflexivity | exact Hit].
  - cbn [iterate].
    destruct (Z.eqb_spec (IndexOf (tile it)) INVALID_TILE_INDEX) as [Einv | Ninv].
    + exists it. split; [reflexivity | exact Hit].
    + assert (Hv : IsValidTileIndex (tile it) = true).
      { destruct Hit as (_ & [[Hi _] | [(_ & _ & Hv) _]] & _); [contradiction | exact Hv]. }
      destruct (next_ok fuel it Hit Hv Hfuel) as (it' & Enext & Hit').
      rewrite Enext. apply IH; assumption.
Qed.

End Iteration.

Lemma corners_extents m start end_ :
  map_ok m -> on_map m start -> on_map m end_ ->
  Diagonal.tile (Diagonal.DiagonalTileArea_of_corners start end_) = start /\
  (Diagonal.a (Diagonal.DiagonalTileArea_of_corners start end_) <> 0 /\
   - 2 ^ 15 < Diagonal.a (Diagonal.DiagonalTileArea_of_corners start end_) < 2 ^ 15) /\
  (Diagonal.b (Diagonal.DiagonalTileArea_of_corners start end_) <> 0 /\
   - 2 ^ 15 < Diagonal.b (Diagonal.DiagonalTileArea_of_corners start end_) < 2 ^ 15).
Proof.
  intros Hok Hs He.
  pose proof (on_map_X m _ Hok Hs). pose proof (on_map_Y m _ Hok Hs).
  pose proof (on_map_X m _ Hok He). pose proof (on_map_Y m _ Hok He).
  destruct Hok as [[? ?] [? ?]].
  unfold Diagonal.DiagonalTileArea_of_corners. cbn [Diagonal.tile Diagonal.a Diagonal.b].
  rewrite !int16_uint32 by lia. rewrite !Z.gtb_ltb.
  split; [reflexivity | ].
  split.
  - destruct (Z.ltb_spec 0 (TileY end_ + TileX end_ - TileY start - TileX start));
      rewrite int16_small by lia; lia.
  - destruct (Z.ltb_spec 0 (TileY end_ - TileX end_ - TileY start + TileX start));
      rewrite int16_small by lia; lia.
Qed.

Lemma of_area_ok m ta :
  map_ok m -> on_map m (Diagonal.tile ta) ->
  Diagonal.a ta <> 0 -> Diagonal.b ta <> 0 ->
  iterator_ok m (Diagonal.a ta) (Diagonal.b ta)
    (TileX (Diagonal.tile ta)) (TileY (Diagonal.tile ta)) (of_area ta).
Proof.
  intros Hok Ht Ha Hb. unfold iterator_ok, position_ok, tile_ok, of_area.
  cbn [tile base_x base_y a_cur b_cur a_max b_max].
  split; [ | split].
  - split; [apply Ht | ]. repeat split; try reflexivity; try lia.
  - right. split; [exact Ht | ]. intros _. lia.
  - intros _. congruence.
Qed.

(** A valid tile of the iterator is a tile of the area. *)
Lemma iterator_tile_in_area m ta it :
  map_ok m -> on_map m (Diagonal.tile ta) ->
  Diagonal.a ta <> 0 /\ - 2 ^ 15 < Diagonal.a ta < 2 ^ 15 ->
  Diagonal.b ta <> 0 /\ - 2 ^ 15 < Diagonal.b ta < 2 ^ 15 ->
  iterator_ok m (Diagonal.a ta) (Diagonal.b ta)
    (TileX (Diagonal.tile ta)) (TileY (Diagonal.tile ta)) it ->
  IsValidTileIndex (tile it) = true ->
  on_map m (tile it) /\ Diagonal.Contains ta (tile it) = true.
Proof.
  intros Hok Hbase [HA0 HAr] [HB0 HBr] (Hpos & Htile & Hvb) Hv.
  specialize (Hvb Hv).
  destruct Htile as [[_ Hinv] | [Hon Hxy]]; [congruence | ].
  destruct (Hxy Hvb) as [EX EY]. split; [exact Hon | ].
  destruct Hpos as (_ & _ & _ & _ & _ & Ha1 & Ha2 & Hb1 & Hb2 & _).
  pose proof (on_map_X m _ Hok Hbase). pose proof (on_map_Y m _ Hok Hbase).
  pose proof (on_map_X m _ Hok Hon). pose proof (on_map_Y m _ Hok Hon).
  destruct Hok as [[? ?] [? ?]].
  unfold Diagonal.Contains.
  rewrite !int32_uint32 by lia.
  rewrite (int32_small (_ + Diagonal.a ta)), (int32_small (_ + Diagonal.b ta)) by lia.
  rewrite !Z.gtb_ltb.
  destruct (Z.ltb_spec (TileY (Diagonal.tile ta) + TileX (Diagonal.tile ta) + Diagonal.a ta)
                       (TileY (Diagonal.tile ta) + TileX (Diagonal.tile ta)));
  destruct (Z.ltb_spec (TileY (Diagonal.tile ta) - TileX (Diagonal.tile ta) + Diagonal.b ta)
                       (TileY (Diagonal.tile ta) - TileX (Diagonal.tile ta)));
  rewrite ?int32_small by lia;
  rewrite !Z.geb_leb, !andb_true_iff, !Z.leb_le, !Z.ltb_lt; lia.
Qed.

(** C6.  Over a diagonal area made from two tiles of a map, the iterator
    always produces its next value, and every value that is not the invalid
    tile is a tile of the map (its x and y are below the sizes of the map)
    that the area contains. *)
Theorem DiagonalTileIterator_yields_tiles_of_area
    (m : Map) (start end_ : GenericTileIndex) (fuel n : nat) :
  map_ok m -> on_map m start -> on_map m end_ ->
  (passes (Diagonal.DiagonalTileArea_of_corners start end_) <= fuel)%nat ->
  exists it, iterate fuel n (of_corners start end_) = Some it /\
    (IndexOf (tile it) <> INVALID_TILE_INDEX ->
     Diagonal.Contains (Diagonal.DiagonalTileArea_of_corners start end_) (tile it) = true /\
     IsValidTileIndex (tile it) = true /\
     TileX (tile it) < MapSizeX (MapOf (tile it)) /\
     TileY (tile it) < MapSizeY (MapOf (tile it))).
Proof.
  intros Hok Hs He Hfuel.
  destruct (corners_extents m start end_ Hok Hs He) as (Etile & HA & HB).
  set (D := Diagonal.DiagonalTileArea_of_corners start end_) in *.
  assert (Hbase : on_map m (Diagonal.tile D)) by (rewrite Etile; exact Hs).
  pose proof (on_map_X m _ Hok Hbase) as HbX. pose proof (on_map_Y m _ Hok Hbase) as HbY.
  pose proof (of_area_ok m D Hok Hbase (proj1 HA) (proj1 HB)) as Hinit.
  assert (Hpasses : Z.abs (Diagonal.b D) * (Z.abs (Diagonal.a D) + 1) < Z.of_nat fuel).
  { unfold passes in Hfuel. apply Nat2Z.inj_le in Hfuel.
    rewrite Z2Nat.id in Hfuel by nia. lia. }
  destruct (iterate_ok m Hok _ _ _ _ HA HB HbX HbY fuel n (of_area D) Hinit Hpasses)
    as (it & Eit & Hit).
  exists it. split; [exact Eit | ]. intros Hne.
  assert (Hv : IsValidTileIndex (tile it) = true).
  { destruct Hit as (_ & [[Hi _] | [(_ & _ & Hv) _]] & _); [contradiction | exact Hv]. }
  destruct (iterator_tile_in_area m D it Hok Hbase HA HB Hit Hv) as [Hon Hc].
  pose proof (on_map_X m _ Hok Hon). pose proof (on_map_Y m _ Hok Hon).
  destruct Hon as (Hm & _ & _). rewrite Hm. cbn [MapSizeX MapSizeY].
  repeat split; try assumption; lia.
Qed.

Lemma DiagonalTileIterator_yields_tiles_of_area_witness :
  let m := mkMap 8 8 in
  let start := TileXY 6 6 (Some m) in
  let end_ := TileXY 1 5 (Some m) in
  map_ok m /\ on_map m start /\ on_map m end_ /\
  (passes (Diagonal.DiagonalTileArea_of_corners start end_) <= 50)%nat /\
  exists it, iterate 50 7 (of_corners start end_) = Some it /\
    (IndexOf (tile it) <> INVALID_TILE_INDEX ->
     Diagonal.Contains (Diagonal.DiagonalTileArea_of_corners start end_) (tile it) = true /\
     IsValidTileIndex (tile it) = true /\
     TileX (tile it) < MapSizeX (MapOf (tile it)) /\
     TileY (tile it) < MapSizeY (MapOf (tile it))).
Proof.
  intros m start end_.
  assert (Hok : map_ok m) by (unfold map_ok; simpl; lia).
  assert (Hs : on_map m start) by (repeat split; vm_compute; congruence).
  assert (He : on_map m end_) by (repeat split; vm_compute; congruence).
  assert (Hf : (passes (Diagonal.DiagonalTileArea_of_corners start end_) <= 50)%nat)
    by (vm_compute; lia).
  split; [exact Hok | ]. split; [exact Hs | ]. split; [exact He | ]. split; [exact Hf | ].
  apply (DiagonalTileIterator_yields_tiles_of_area m start end_ 50 7 Hok Hs He Hf).
Defined.

End DiagonalFacts.

(** ** Terraforming: failures, the terraform limit and batches *)

Module TerraformFacts.
Import Int IntFacts TileMap TileMapProps TileMapFacts Terraform CommandProps BatchProps.

Lemma StringID_eqb_eq a b : StringID_eqb a b = true <-> a = b.
Proof.
  destruct a, b; simpl; split; intros H; try reflexivity; try discriminate.
  - apply Z.eqb_eq in H. congruence.
  - inversion H. apply Z.eqb_refl.
Qed.

(** The sub-field of 16 bits at bit 16 of a 32-bit counter is its quotient
    by [2 ^ 16]. *)
Lemma GB_16_16 l : 0 <= l < 2 ^ 32 -> GB l 16 16 = l / 2 ^ 16 /\ 0 <= GB l 16 16 < 2 ^ 16.
Proof.
  intros Hl. unfold GB. rewrite Z.land_ones, Z.shiftr_div_pow2 by lia.
  assert (Hq : 0 <= l / 2 ^ 16 < 2 ^ 16).
  { split; [apply Z.div_pos; lia | apply Z.div_lt_upper_bound; lia]. }
  rewrite Z.mod_small by exact Hq. split; [reflexivity | exact Hq].
Qed.

Section AnyWorld.

Context {Content : Type}.
Variable hooks : Collaborators Content.

(** The validation passes leave the heights, the terraform limit, the map and
    the settings alone. *)
Lemma terraform_validate_preserves pass direction flags ts tiles :
  forall (w : World Content) total res w',
  terraform_validate hooks pass direction flags ts tiles w total = (res, w') ->
  tile_height w' = tile_height w /\ terraform_limit w' = terraform_limit w /\
  main_map w' = main_map w /\ settings w' = settings w.
Proof.
  induction tiles as [ | tile tiles IH]; intros w total res w' H; cbn [terraform_validate] in H.
  - inversion H. auto.
  - destruct (IsVoidTile hooks w tile); [apply (IH _ _ _ _ H) | ].
    destruct (terraformed_slope w ts tile) as [[z_min z_max] tileh].
    destruct (if pass =? 0 then bridge_tunnel_check hooks w direction tile z_min z_max else None).
    { inversion H. auto. }
    destruct (if IndirectlyCleared hooks w tile then _ else _) as [c content'].
    destruct (Failed c).
    + inversion H. auto.
    + apply IH in H. exact H.
Qed.

(** The flags of the tile hooks: pass 0 never has [DC_EXEC], pass 1 has it
    when the command has it. *)
Lemma pass0_flags_test flags :
  has_bit (Z.lor (clear_bit (Z.lor (Z.lor flags DC_AUTO) DC_FORCE_CLEAR_TILE) DC_EXEC)
                 DC_NO_MODIFY_TOWN_RATING) DC_EXEC = false.
Proof.
  unfold has_bit, clear_bit. rewrite Z.land_lor_distr_l, <- Z.land_assoc.
  change (Z.land (Z.lnot DC_EXEC) DC_EXEC) with 0.
  change (Z.land DC_NO_MODIFY_TOWN_RATING DC_EXEC) with 0.
  rewrite Z.land_0_r. reflexivity.
Qed.

Lemma pass1_flags_exec flags :
  has_bit (Z.lor (Z.lor flags DC_AUTO) DC_FORCE_CLEAR_TILE) DC_EXEC = has_bit flags DC_EXEC.
Proof.
  unfold has_bit. rewrite !Z.land_lor_distr_l.
  change (Z.land DC_AUTO DC_EXEC) with 0. change (Z.land DC_FORCE_CLEAR_TILE DC_EXEC) with 0.
  rewrite !Z.lor_0_r. reflexivity.
Qed.

Lemma set_content_same (w : World Content) : set_content w (content w) = w.
Proof. destruct w; reflexivity. Qed.

Lemma same_but_err_tile_refl (w : World Content) : same_but_err_tile w w.
Proof. exists (terraform_err_tile w). destruct w; reflexivity. Qed.

Lemma same_but_err_tile_set (w w' : World Content) tile :
  same_but_err_tile w w' -> same_but_err_tile w (set_terraform_err_tile w' tile).
Proof. intros [t ->]. exists tile. reflexivity. Qed.

Lemma same_but_err_tile_trans (w w1 w2 : World Content) :
  same_but_err_tile w w1 -> same_but_err_tile w1 w2 -> same_but_err_tile w w2.
Proof. intros [t1 ->] [t2 ->]. exists t2. reflexivity. Qed.

(** The end of the command changes the map only when it succeeds with
    [DC_EXEC]. *)
Lemma terraform_finish_cases flags ts (w : World Content) total res w' :
  terraform_finish flags ts w total = (res, w') ->
  (Failed res = true -> w' = w) /\ (has_bit flags DC_EXEC = false -> w' = w).
Proof.
  unfold terraform_finish. intros H.
  destruct (terraform_limit w) as [l | ];
    [destruct (GB l 16 16 <? changed_corners ts) | ];
    destruct (has_bit flags DC_EXEC); inversion H; subst;
    split; intros E; first [discriminate E | reflexivity].
Qed.

(** A validation pass whose tile hooks are run as a test changes nothing but
    the error tile. *)
Lemma terraform_validate_test_run pass direction flags ts tiles :
  test_runs_change_nothing hooks ->
  pass = 0 \/ has_bit flags DC_EXEC = false ->
  forall (w : World Content) total res w',
  terraform_validate hooks pass direction flags ts tiles w total = (res, w') ->
  same_but_err_tile w w'.
Proof.
  intros Hquiet Hpass.
  induction tiles as [ | tile tiles IH]; intros w total res w' H; cbn [terraform_validate] in H.
  - inversion H. apply same_but_err_tile_refl.
  - destruct (IsVoidTile hooks w tile); [apply (IH _ _ _ _ H) | ].
    destruct (terraformed_slope w ts tile) as [[z_min z_max] tileh].
    destruct (if pass =? 0 then bridge_tunnel_check hooks w direction tile z_min z_max else None).
    { inversion H. exists tile. reflexivity. }
    set (tile_flags := if pass =? 0 then _ else _) in H.
    assert (Htest : has_bit tile_flags DC_EXEC = false).
    { unfold tile_flags. destruct (Z.eqb_spec pass 0) as [E | E].
      - apply pass0_flags_test.
      - rewrite pass1_flags_exec. destruct Hpass; [contradiction | assumption]. }
    destruct (Hquiet w tile tile_flags Htest) as [Hclear Hproc].
    specialize (Hproc z_min tileh).
    destruct (if IndirectlyCleared hooks w tile then _ else _) as [c content'] eqn:Ehook.
    assert (Econtent : content' = content w).
    { destruct (IndirectlyCleared hooks w tile); rewrite Ehook in *; assumption. }
    subst content'. rewrite set_content_same in H.
    destruct (Failed c).
    + inversion H. exists tile. reflexivity.
    + apply (IH _ _ _ _ H).
Qed.

(** C2, as the code has it.  A failure of the collecting phase or of pass 0
    of the validation is the result of [CmdTerraformLand]; whatever fails,
    also a tile hook of pass 1 or the check of the terraform limit, no height
    of the map and no terraform limit has been changed.  Nothing but the
    error tile has changed after a failure of the collecting phase, and,
    where the tile hooks change nothing when they are run as a test, after a
    failure of pass 0 and after any run without [DC_EXEC]. *)
Theorem CmdTerraformLand_failure_changes_no_height
    (fuel : nat) (w : World Content) (tile flags p1 p2 : Z)
    (res : CommandCost) (w' : World Content) :
  CmdTerraformLand fuel hooks w tile flags p1 p2 = Some (res, w') ->
  let w0 := set_terraform_err_tile w INVALID_TILE_INDEX in
  let direction := if p2 =? 0 then -1 else 1 in
  (Failed res = true ->
   tile_height w' = tile_height w /\ terraform_limit w' = terraform_limit w /\
   main_map w' = main_map w /\ settings w' = settings w) /\
  (forall message ts,
     terraform_collect fuel w0 tile direction p1 = Fails message ts ->
     res = Error message /\ w' = set_terraform_err_tile w (err_tile ts)) /\
  (forall total ts message w1,
     terraform_collect fuel w0 tile direction p1 = Gives total ts ->
     terraform_validate hooks 0 direction flags ts (dirty_tiles ts) w0 total
       = (Error message, w1) ->
     res = Error message /\ w' = w1 /\
     (test_runs_change_nothing hooks -> same_but_err_tile w w')) /\
  (test_runs_change_nothing hooks -> has_bit flags DC_EXEC = false ->
   same_but_err_tile w w').
Proof.
  intros Hrun w0 direction. unfold CmdTerraformLand in Hrun.
  fold w0 in Hrun. fold direction in Hrun.
  assert (Hstart : same_but_err_tile w w0) by (exists INVALID_TILE_INDEX; reflexivity).
  destruct (terraform_collect fuel w0 tile direction p1) as [ | message ts | total ts].
  - discriminate.
  - inversion Hrun; subst.
    split; [intros _; repeat split | ]. split; [ | split].
    + intros ? ? E. inversion E; subst. split; reflexivity.
    + intros ? ? ? ? E. discriminate E.
    + intros _ _. exists (err_tile ts). reflexivity.
  - destruct (terraform_validate hooks 0 direction flags ts (dirty_tiles ts) w0 total)
      as [res0 w1] eqn:Hpass0.
    pose proof (terraform_validate_preserves _ _ _ _ _ _ _ _ _ Hpass0) as (Eh0 & El0 & Em0 & Es0).
    cbn [tile_height terraform_limit main_map settings set_terraform_err_tile w0]
      in Eh0, El0, Em0, Es0.
    assert (Hquiet0 : test_runs_change_nothing hooks -> same_but_err_tile w w1).
    { intros Hquiet. apply (same_but_err_tile_trans _ _ _ Hstart).
      apply (terraform_validate_test_run _ _ _ _ _ Hquiet (or_introl eq_refl) _ _ _ _ Hpass0). }
    destruct res0 as [total0 | message0].
    + destruct (terraform_validate hooks 1 direction flags ts (dirty_tiles ts) w1 total0)
        as [res1 w2] eqn:Hpass1.
      pose proof (terraform_validate_preserves _ _ _ _ _ _ _ _ _ Hpass1)
        as (Eh1 & El1 & Em1 & Es1).
      assert (Hquiet1 : test_runs_change_nothing hooks -> has_bit flags DC_EXEC = false ->
                        same_but_err_tile w w2).
      { intros Hquiet Hest. apply (same_but_err_tile_trans _ _ _ (Hquiet0 Hquiet)).
        apply (terraform_validate_test_run _ _ _ _ _ Hquiet (or_intror Hest) _ _ _ _ Hpass1). }
      assert (Hkept : tile_height w2 = tile_height w /\ terraform_limit w2 = terraform_limit w /\
                      main_map w2 = main_map w /\ settings w2 = settings w).
      { repeat split; congruence. }
      assert (Hresult :
                (Failed res = true ->
                 tile_height w' = tile_height w /\ terraform_limit w' = terraform_limit w /\
                 main_map w' = main_map w /\ settings w' = settings w) /\
                (has_bit flags DC_EXEC = false -> w' = w2)).
      { destruct res1 as [total1 | message1].
        - injection Hrun as Hfinish.
          destruct (terraform_finish_cases _ _ _ _ _ _ Hfinish) as [Hf He].
          split; [intros Hfail; rewrite (Hf Hfail); exact Hkept | exact He].
        - inversion Hrun; subst. split; [intros _; exact Hkept | reflexivity]. }
      destruct Hresult as [Hfailed Hsame].
      split; [exact Hfailed | ]. split; [ | split].
      * intros ? ? E. discriminate E.
      * intros ? ? ? ? E Hv. inversion E; subst. rewrite Hpass0 in Hv. discriminate Hv.
      * intros Hquiet Hest. rewrite (Hsame Hest). apply (Hquiet1 Hquiet Hest).
    + inversion Hrun; subst.
      split; [intros _; repeat split; assumption | ]. split; [ | split].
      * intros ? ? E. discriminate E.
      * intros ? ? ? ? E Hv. inversion E; subst. rewrite Hpass0 in Hv.
        inversion Hv; subst. split; [reflexivity | ]. split; [reflexivity | exact Hquiet0].
      * intros Hquiet _. exact (Hquiet0 Hquiet).
Qed.

(** C9.  Once the corners are collected and both validation passes have
    succeeded, [CmdTerraformLand] of a company fails with the terraform-limit
    error exactly when the number of corners to change exceeds the 16 bits
    at bit 16 of the company's limit, which is the limit divided by
    [2 ^ 16]; otherwise it succeeds and, when executing, takes that number
    times [2 ^ 16] off the limit.  [TerraformTiles] starts from the same
    sub-field as its limit for the batch. *)
Theorem CmdTerraformLand_terraform_limit
    (fuel : nat) (w : World Content) (tile flags p1 p2 : Z)
    (total total1 total2 : Z) (ts : TerraformerState) (w1 w2 : World Content) (lim : Z) :
  terraform_collect fuel (set_terraform_err_tile w INVALID_TILE_INDEX) tile
    (if p2 =? 0 then -1 else 1) p1 = Gives total ts ->
  terraform_validate hooks 0 (if p2 =? 0 then -1 else 1) flags ts (dirty_tiles ts)
    (set_terraform_err_tile w INVALID_TILE_INDEX) total = (Cost total1, w1) ->
  terraform_validate hooks 1 (if p2 =? 0 then -1 else 1) flags ts (dirty_tiles ts)
    w1 total1 = (Cost total2, w2) ->
  terraform_limit w = Some lim -> 0 <= lim < 2 ^ 32 ->
  exists res w',
    CmdTerraformLand fuel hooks w tile flags p1 p2 = Some (res, w') /\
    (res = Error STR_ERROR_TERRAFORM_LIMIT_REACHED <-> GB lim 16 16 < changed_corners ts) /\
    (GB lim 16 16 < changed_corners ts -> w' = w2) /\
    (changed_corners ts <= GB lim 16 16 ->
     res = Cost total2 /\
     terraform_limit w' =
       Some (if has_bit flags DC_EXEC then lim - changed_corners ts * 2 ^ 16 else lim)) /\
    GB lim 16 16 = lim / 2 ^ 16 /\
    batch_limit w = GB lim 16 16.
Proof.
  intros Hcollect Hpass0 Hpass1 Hlim Hrange.
  pose proof (terraform_validate_preserves _ _ _ _ _ _ _ _ _ Hpass0) as (_ & El0 & _).
  pose proof (terraform_validate_preserves _ _ _ _ _ _ _ _ _ Hpass1) as (_ & El1 & _).
  assert (El2 : terraform_limit w2 = Some lim) by (rewrite El1, El0; exact Hlim).
  destruct (GB_16_16 lim Hrange) as [EGB HGB].
  assert (Hn : 0 <= changed_corners ts) by (unfold changed_corners; lia).
  unfold CmdTerraformLand. rewrite Hcollect, Hpass0, Hpass1.
  unfold terraform_finish. rewrite El2.
  assert (Hbatch : batch_limit w = GB lim 16 16).
  { unfold batch_limit. rewrite Hlim. apply int32_small. lia. }
  destruct (Z.ltb_spec (GB lim 16 16) (changed_corners ts)) as [Hover | Hwithin].
  - eexists _, _. split; [reflexivity | ].
    split; [tauto | ]. split; [reflexivity | ]. split; [lia | ]. auto.
  - assert (Eshift : uint32 (Z.shiftl (uint32 (changed_corners ts)) 16)
                     = changed_corners ts * 2 ^ 16).
    { rewrite (uint32_small (changed_corners ts)) by lia.
      rewrite Z.shiftl_mul_pow2 by lia. apply uint32_small. lia. }
    assert (Hsub : changed_corners ts * 2 ^ 16 <= lim).
    { rewrite EGB in Hwithin.
      pose proof (Z.mul_div_le lim (2 ^ 16) ltac:(lia)). nia. }
    destruct (has_bit flags DC_EXEC); eexists _, _; (split; [reflexivity | ]).
    + split; [split; [discriminate | lia] | ]. split; [lia | ].
      split; [ | auto]. intros _. split; [reflexivity | ].
      cbn [terraform_limit set_terraform_limit]. rewrite Eshift.
      rewrite uint32_small by lia. reflexivity.
    + split; [split; [discriminate | lia] | ]. split; [lia | ].
      split; [ | auto]. intros _. split; [reflexivity | exact El2].
Qed.

(** Without a current company the limit is never the reason of a failure. *)
Lemma terraform_finish_without_company flags ts (w : World Content) total :
  terraform_limit w = None ->
  fst (terraform_finish flags ts w total) = Cost total.
Proof.
  intros H. unfold terraform_finish. rewrite H. destruct (has_bit flags DC_EXEC); reflexivity.
Qed.

(** *** Batches *)

Lemma terraform_tile_steps_return flags t h n :
  forall curh (s s' : @Batch Content),
  terraform_tile_steps hooks flags t h n curh s = Return s' ->
  has_bit flags DC_EXEC = true /\ available_money s' < 0.
Proof.
  induction n as [ | n IH]; intros curh s s' H; cbn [terraform_tile_steps] in H.
  - discriminate.
  - destruct (curh =? h); [discriminate | ].
    destruct (DoCommandTerraformLand hooks (world s) t SLOPE_N _ _) as [ret w1].
    destruct (Failed ret); [discriminate | ].
    destruct (has_bit flags DC_EXEC) eqn:Hexec.
    + destruct (Z.ltb_spec (available_money s - GetCost ret) 0) as [Hlow | Hok].
      * inversion H; subst. cbn [available_money]. auto.
      * destruct (DoCommandTerraformLand hooks w1 t SLOPE_N _ flags) as [ret2 w2].
        apply IH in H. destruct H as [_ H]. auto.
    + destruct (int32 (limit s - 1) <=? 0); [discriminate | ].
      apply IH in H. destruct H as [H _]. discriminate.
Qed.

(** How the loop over the steps of a tile is left. *)
Lemma terraform_tile_steps_flow money flags t h n :
  forall curh (s : @Batch Content),
  nothing_done money s ->
  match terraform_tile_steps hooks flags t h n curh s with
  | Continue s' => nothing_done money s'
  | Return s' => returned_for_money hooks flags money s'
  end.
Proof.
  induction n as [ | n IH]; intros curh s Hs; cbn [terraform_tile_steps].
  - exact Hs.
  - destruct (curh =? h); [exact Hs | ].
    destruct (DoCommandTerraformLand hooks (world s) t SLOPE_N _ (clear_bit flags DC_EXEC))
      as [ret w1] eqn:Htest.
    destruct (Failed ret) eqn:Hfailed; [exact Hs | ].
    destruct (has_bit flags DC_EXEC) eqn:Hexec.
    + destruct (Z.ltb_spec (available_money s - GetCost ret) 0) as [Hlow | Hok].
      * split; [exact Hexec | ]. split; [exact Hlow | ].
        exists (world s), t, (if curh >? h then 0 else 1), ret, w1.
        split; [exact Htest | ]. split; [exact Hfailed | ]. split; [reflexivity | ].
        cbn [result available_money]. intros Hnone. destruct (Hs Hnone) as [Hc Hm].
        split; [exact Hc | ]. rewrite Hm. reflexivity.
      * destruct (DoCommandTerraformLand hooks w1 t SLOPE_N _ flags) as [ret2 w2].
        apply IH. intros Habs. discriminate Habs.
    + destruct (int32 (limit s - 1) <=? 0).
      * intros Habs. discriminate Habs.
      * apply IH. intros Habs. discriminate Habs.
Qed.

Section Iterating.

Context {Position : Type}.
Variable tile_of : Position -> Z.
Variable height_source : World Content -> Position -> Z.

(** How the loop over the tiles is left. *)
Lemma terraform_tiles_loop_flow money flags iter :
  forall (s : @Batch Content),
  nothing_done money s ->
  match terraform_tiles_loop tile_of height_source hooks flags iter s with
  | Continue s' => nothing_done money s'
  | Return s' => returned_for_money hooks flags money s'
  end.
Proof.
  induction iter as [ | position iter IH]; intros s Hs; cbn [terraform_tiles_loop].
  - exact Hs.
  - destruct (limit s >? 0); [ | exact Hs].
    pose proof (terraform_tile_steps_flow money flags (tile_of position)
                  (height_source (world s) position)
                  (Z.to_nat (Z.abs (height_source (world s) position
                                    - TileHeight (world s) (tile_of position))))
                  (TileHeight (world s) (tile_of position)) s Hs) as Hsteps.
    destruct (terraform_tile_steps hooks flags _ _ _ _ s) as [s1 | s1].
    + apply IH. exact Hsteps.
    + exact Hsteps.
Qed.

Lemma batch_start_nothing_done (w : World Content) money :
  nothing_done money (batch_start w money).
Proof. intros _. split; reflexivity. Qed.

Lemma terraform_tiles_loop_return flags iter :
  forall (s s' : @Batch Content),
  terraform_tiles_loop tile_of height_source hooks flags iter s = Return s' ->
  has_bit flags DC_EXEC = true /\ available_money s' < 0.
Proof.
  induction iter as [ | position iter IH]; intros s s' H; cbn [terraform_tiles_loop] in H.
  - discriminate.
  - destruct (limit s >? 0); [ | discriminate].
    destruct (terraform_tile_steps hooks flags _ _ _ _ s) as [s1 | s1] eqn:Hsteps.
    + apply (IH _ _ H).
    + inversion H; subst. apply (terraform_tile_steps_return _ _ _ _ _ _ _ Hsteps).
Qed.

(** A batch that runs to its end reports a success or an error. *)
Lemma batch_end_reports (s : @Batch Content) :
  had_success (fst (batch_end s)) = true \/ last_error (fst (batch_end s)) <> STR_NULL.
Proof.
  unfold batch_end.
  destruct (had_success (result s)) eqn:Hhad; cbn [negb andb fst].
  - left. exact Hhad.
  - right. destruct (StringID_eqb (last_error (result s)) STR_NULL) eqn:Heq; cbn [fst].
    + cbn [last_error]. discriminate.
    + intros He. apply StringID_eqb_eq in He. congruence.
Qed.

(** In estimate mode the result always has a success or an error. *)
Lemma TerraformTiles_estimate_reports
    (iter : list Position) (flags : Z) (w : World Content) (money : Z) :
  has_bit flags DC_EXEC = false ->
  had_success (fst (TerraformTiles tile_of height_source hooks iter flags w money)) = true \/
  last_error (fst (TerraformTiles tile_of height_source hooks iter flags w money)) <> STR_NULL.
Proof.
  intros Hest. unfold TerraformTiles.
  destruct (terraform_tiles_loop tile_of height_source hooks flags iter (batch_start w money))
    as [s | s] eqn:Hloop.
  - apply batch_end_reports.
  - destruct (terraform_tiles_loop_return _ _ _ _ Hloop) as [Hexec _]. congruence.
Qed.

(** C10, as the code has it.  [TerraformTiles] returns a result without a
    success and without an error only by its early return for lack of money:
    in execute mode, at a step whose test run has succeeded and costs more
    than the money the batch was given, with nothing spent, and with
    [_additional_cash_required] set to the cost of that step and
    [_terraform_err_tile] to its tile.  When the loops run to their end
    without a success and without an error, the result is the error "already
    levelled" with no error tile; a result of the normal exit always has a
    success or an error, and in estimate mode there is no other exit. *)
Theorem TerraformTiles_silent_result
    (iter : list Position) (flags : Z) (w : World Content) (money : Z) :
  let run := TerraformTiles tile_of height_source hooks iter flags w money in
  let loop := terraform_tiles_loop tile_of height_source hooks flags iter (batch_start w money) in
  (had_success (fst run) = false -> last_error (fst run) = STR_NULL ->
   has_bit flags DC_EXEC = true /\
   exists s w0 t p2 ret w1,
     loop = Return s /\
     DoCommandTerraformLand hooks w0 t SLOPE_N p2 (clear_bit flags DC_EXEC) = (ret, w1) /\
     Failed ret = false /\ money < GetCost ret /\
     fst run = mkResult 0 false STR_NULL /\
     snd run = set_terraform_err_tile (set_additional_cash_required w1 (GetCost ret)) t /\
     additional_cash_required (snd run) = GetCost ret) /\
  (forall s, loop = Continue s ->
     (had_success (result s) = false -> last_error (result s) = STR_NULL ->
      fst run = mkResult (cost (result s)) false STR_ERROR_ALREADY_LEVELLED /\
      terraform_err_tile (snd run) = INVALID_TILE_INDEX) /\
     (had_success (fst run) = true \/ last_error (fst run) <> STR_NULL)) /\
  (has_bit flags DC_EXEC = false -> exists s, loop = Continue s).
Proof.
  intros run loop.
  pose proof (terraform_tiles_loop_flow money flags iter (batch_start w money)
                (batch_start_nothing_done w money)) as Hflow.
  fold loop in Hflow. unfold run, TerraformTiles. fold loop.
  destruct loop as [s | s].
  - split; [ | split].
    + intros Hs He. exfalso. destruct (batch_end_reports s); congruence.
    + intros s' E. injection E as <-. split; [ | apply batch_end_reports].
      intros Hs He. unfold batch_end. rewrite Hs, He. cbn [negb andb StringID_eqb fst snd].
      split; reflexivity.
    + intros _. exists s. reflexivity.
  - destruct Hflow as (Hexec & Hmoney & w0 & t & p2 & ret & w1 & Htest & Hok & Hworld & Hnone).
    split; [ | split].
    + cbn [fst snd]. intros Hs He. split; [exact Hexec | ].
      exists s, w0, t, p2, ret, w1. destruct (Hnone Hs) as [Hc Hm].
      split; [reflexivity | ]. split; [exact Htest | ]. split; [exact Hok | ].
      split; [lia | ]. split; [ | split].
      * destruct (result s) as [c hs le]. cbn [cost had_success last_error] in *.
        subst. reflexivity.
      * exact Hworld.
      * rewrite Hworld. reflexivity.
    + intros s' E. discriminate E.
    + intros Hest. congruence.
Qed.

End Iterating.

End AnyWorld.

(** *** The theorems above on the small world *)

Lemma counting_collaborators_test_runs bridge :
  test_runs_change_nothing (counting_collaborators bridge).
Proof.
  intros w tile flags Htest. cbn [counting_collaborators LandscapeClear TerraformTileProc snd].
  rewrite Htest. split; [reflexivity | intros _ _; reflexivity].
Qed.

(** Raising the corner at (3, 3) under a bridge of height 1: five corners
    are collected, pass 0 runs the tile hooks of the dirty tiles before
    tile 27 as a test and fails at tile 27. *)
Lemma CmdTerraformLand_failure_changes_no_height_witness :
  let hooks := counting_collaborators (fun tile => tile =? 27) in
  let w := counted_world None in
  let w0 := set_terraform_err_tile w INVALID_TILE_INDEX in
  let res := Error STR_ERROR_MUST_DEMOLISH_BRIDGE_FIRST in
  let w' := set_terraform_err_tile w 27 in
  CmdTerraformLand 20 hooks w 27 DC_EXEC SLOPE_N 1 = Some (res, w') /\
  (exists total ts,
     terraform_collect 20 w0 27 1 SLOPE_N = Gives total ts /\
     changed_corners ts = 5 /\ dirty_tiles ts = [10; 11; 17; 18; 19; 20; 25; 26; 27; 28; 34; 35] /\
     terraform_validate hooks 0 1 DC_EXEC ts (dirty_tiles ts) w0 total = (res, w')) /\
  Failed res = true /\
  tile_height w' = tile_height w /\ terraform_limit w' = terraform_limit w /\
  main_map w' = main_map w /\ settings w' = settings w /\
  test_runs_change_nothing hooks /\
  same_but_err_tile w w'.
Proof.
  intros hooks w w0 res w'.
  assert (Hrun : CmdTerraformLand 20 hooks w 27 DC_EXEC SLOPE_N 1 = Some (res, w'))
    by (vm_compute; reflexivity).
  destruct (CmdTerraformLand_failure_changes_no_height
              hooks 20 w 27 DC_EXEC SLOPE_N 1 res w' Hrun)
    as (Hfailed & _ & Hpass0 & _).
  destruct (Hfailed eq_refl) as (Hh & Hl & Hm & Hs).
  split; [exact Hrun | ]. split.
  { eexists _, _. split; [vm_compute; reflexivity | ].
    split; [vm_compute; reflexivity | ]. split; vm_compute; reflexivity. }
  split; [reflexivity | ]. split; [exact Hh | ]. split; [exact Hl | ].
  split; [exact Hm | ]. split; [exact Hs | ].
  split; [apply counting_collaborators_test_runs | ].
  destruct (Hpass0 (fst (raised_hill)) (snd (raised_hill))
              STR_ERROR_MUST_DEMOLISH_BRIDGE_FIRST w'
              ltac:(vm_compute; reflexivity) ltac:(vm_compute; reflexivity))
    as (_ & _ & Hsame).
  apply Hsame. apply counting_collaborators_test_runs.
Defined.

(** C2, as stated, fails for the rest of the grid: with [DC_EXEC] and a
    terraform limit of two corners, raising the corner at (3, 3) fails at
    the check of the limit, which comes after pass 1 has run the tile hooks
    of the twelve dirty tiles with [DC_EXEC]; the heights are as before. *)
Lemma CmdTerraformLand_limit_failure_after_tile_hooks :
  let hooks := counting_collaborators (fun _ => false) in
  let w := counted_world (Some (2 * 65536 + 5)) in
  match CmdTerraformLand 20 hooks w 27 DC_EXEC SLOPE_N 1 with
  | Some (res, w') =>
      res = Error STR_ERROR_TERRAFORM_LIMIT_REACHED /\
      content w = 0 /\ content w' = 12 /\ content w' <> content w /\
      (forall tile, tile_height w' tile = tile_height w tile)
  | None => False
  end.
Proof.
  vm_compute. split; [reflexivity | ]. split; [reflexivity | ]. split; [reflexivity | ].
  split; [discriminate | reflexivity].
Qed.

Lemma CmdTerraformLand_terraform_limit_witness :
  let w := tight_world in
  let w0 := set_terraform_err_tile w INVALID_TILE_INDEX in
  let total := fst raised_hill in
  let ts := snd raised_hill in
  terraform_collect 20 w0 27 1 SLOPE_N = Gives total ts /\
  terraform_validate (bare_collaborators 20) 0 1 DC_EXEC ts (dirty_tiles ts) w0 total
    = (Cost total, w0) /\
  terraform_validate (bare_collaborators 20) 1 1 DC_EXEC ts (dirty_tiles ts) w0 total
    = (Cost total, w0) /\
  terraform_limit w = Some (2 * 65536 + 5) /\
  0 <= 2 * 65536 + 5 < 2 ^ 32 /\
  changed_corners ts = 5 /\
  CmdTerraformLand 20 (bare_collaborators 20) w 27 DC_EXEC SLOPE_N 1
    = Some (Error STR_ERROR_TERRAFORM_LIMIT_REACHED, w0).
Proof.
  intros w w0 total ts.
  assert (H1 : terraform_collect 20 w0 27 1 SLOPE_N = Gives total ts)
    by (vm_compute; reflexivity).
  assert (H2 : terraform_validate (bare_collaborators 20) 0 1 DC_EXEC ts (dirty_tiles ts) w0 total
               = (Cost total, w0)) by (vm_compute; reflexivity).
  assert (H3 : terraform_validate (bare_collaborators 20) 1 1 DC_EXEC ts (dirty_tiles ts) w0 total
               = (Cost total, w0)) by (vm_compute; reflexivity).
  assert (H4 : terraform_limit w = Some (2 * 65536 + 5)) by reflexivity.
  assert (H5 : 0 <= 2 * 65536 + 5 < 2 ^ 32) by lia.
  assert (H6 : changed_corners ts = 5) by (vm_compute; reflexivity).
  split; [exact H1 | ]. split; [exact H2 | ]. split; [exact H3 | ].
  split; [exact H4 | ]. split; [exact H5 | ]. split; [exact H6 | ].
  destruct (CmdTerraformLand_terraform_limit
              (bare_collaborators 20) 20 w 27 DC_EXEC SLOPE_N 1 total total total ts w0 w0
              (2 * 65536 + 5) H1 H2 H3 H4 H5)
    as (res & w' & Hrun & Hiff & Hsame & _).
  assert (Hover : GB (2 * 65536 + 5) 16 16 < changed_corners ts)
    by (rewrite H6; vm_compute; reflexivity).
  rewrite Hrun. rewrite (proj2 Hiff Hover), (Hsame Hover). reflexivity.
Defined.

(** C10, as stated, fails: in execute mode with 5 units of money at hand, the
    first step of levelling the corner at (2, 3) up costs 10, and
    [TerraformTiles] returns at once, with nothing done and no error. *)
Lemma TerraformTiles_out_of_money :
  had_success (fst (TerraformTiles (fun p => p) (fun _ _ => 1) (bare_collaborators 20)
                      [26] DC_EXEC hill_world 5)) = false /\
  last_error (fst (TerraformTiles (fun p => p) (fun _ _ => 1) (bare_collaborators 20)
                     [26] DC_EXEC hill_world 5)) = STR_NULL /\
  additional_cash_required (snd (TerraformTiles (fun p => p) (fun _ _ => 1)
                                   (bare_collaborators 20) [26] DC_EXEC hill_world 5)) = 10.
Proof. vm_compute. repeat split. Qed.

(** The theorem on two batches of the small world: the one that returns for
    lack of money, and an estimate on a corner that is level already. *)
Lemma TerraformTiles_silent_result_witness :
  let hooks := bare_collaborators 20 in
  let run := TerraformTiles (fun p => p) (fun _ _ => 1) hooks [26] DC_EXEC hill_world 5 in
  let levelled := TerraformTiles (fun p => p) (fun _ _ => 0) hooks [26] 0 hill_world 5 in
  (had_success (fst run) = false /\ last_error (fst run) = STR_NULL /\
   has_bit DC_EXEC DC_EXEC = true /\
   exists s w0 t p2 ret w1,
     terraform_tiles_loop (fun p => p) (fun _ _ => 1) hooks DC_EXEC [26]
       (batch_start hill_world 5) = Return s /\
     DoCommandTerraformLand hooks w0 t SLOPE_N p2 (clear_bit DC_EXEC DC_EXEC) = (ret, w1) /\
     Failed ret = false /\ 5 < GetCost ret /\
     fst run = mkResult 0 false STR_NULL /\
     snd run = set_terraform_err_tile (set_additional_cash_required w1 (GetCost ret)) t /\
     additional_cash_required (snd run) = GetCost ret) /\
  (fst levelled = mkResult 0 false STR_ERROR_ALREADY_LEVELLED /\
   terraform_err_tile (snd levelled) = INVALID_TILE_INDEX) /\
  additional_cash_required (snd run) = 10.
Proof.
  intros hooks run levelled.
  assert (H1 : had_success (fst run) = false) by reflexivity.
  assert (H2 : last_error (fst run) = STR_NULL) by reflexivity.
  split; [ | split; [ | reflexivity]].
  - split; [exact H1 | ]. split; [exact H2 | ].
    apply (TerraformTiles_silent_result hooks (fun p => p) (fun _ _ => 1)
             [26] DC_EXEC hill_world 5); [exact H1 | exact H2].
  - destruct (TerraformTiles_silent_result hooks (fun p => p) (fun _ _ => 0)
                [26] 0 hill_world 5) as (_ & Hend & _).
    apply (Hend (batch_start hill_world 5)); reflexivity.
Defined.

End TerraformFacts.

(** ** Terraforming: the slopes of the terrain *)

Module TerraformSlopes.
Import Int IntFacts TileMap TileMapProps TileMapFacts Terraform TerrainProps PropagationProps.

Section Coordinates.

Variable m : Map.
Hypothesis Hwide : map_wide m.

Lemma coordinates t :
  tile_exists m t ->
  0 <= corner_x m t < map_size_x m /\ 0 <= corner_y m t < map_size_y m /\
  t = corner_y m t * map_size_x m + corner_x m t.
Proof.
  intros Ht. destruct Hwide as ([[Hx0 _] _] & _ & _). unfold tile_exists in Ht.
  unfold corner_x, corner_y. split; [apply Z.mod_pos_bound; lia | ]. split.
  - split; [apply Z.div_pos; lia | apply Z.div_lt_upper_bound; lia].
  - rewrite Z.mul_comm. apply Z.div_mod. lia.
Qed.

Lemma coordinates_of x y :
  0 <= x < map_size_x m -> 0 <= y < map_size_y m ->
  tile_exists m (y * map_size_x m + x) /\
  corner_x m (y * map_size_x m + x) = x /\ corner_y m (y * map_size_x m + x) = y.
Proof.
  intros Hx Hy. unfold tile_exists, corner_x, corner_y. split; [nia | ]. split.
  - rewrite Z.add_comm, Z.mod_add by lia. apply Z.mod_small. lia.
  - rewrite Z.add_comm, Z.div_add by lia. rewrite Z.div_small by lia. lia.
Qed.

Lemma adjacent_sym a b : adjacent m a b -> adjacent m b a.
Proof. intros (Ha & Hb & H). split; [exact Hb | split; [exact Ha | lia]]. Qed.

Lemma gentle_abs h a b : gentle m h -> adjacent m a b -> Z.abs (h a - h b) <= 1.
Proof.
  intros Hg Hab. pose proof (Hg a b Hab). pose proof (Hg b a (adjacent_sym a b Hab)). lia.
Qed.

(** The listed neighbours of a tile are the corners adjacent to it. *)
Lemma neighbour_tiles_adjacent t n :
  tile_exists m t -> (In n (neighbour_tiles m t) <-> adjacent m t n).
Proof.
  intros Ht. destruct (coordinates t Ht) as (HX & HY & Et).
  destruct Hwide as (Hok & Hsx & Hsy).
  unfold neighbour_tiles. rewrite !in_app_iff. split.
  - intros Hin.
    assert (Hn : exists x y, 0 <= x < map_size_x m /\ 0 <= y < map_size_y m /\
                   n = y * map_size_x m + x /\
                   Z.abs (corner_x m t - x) + Z.abs (corner_y m t - y) = 1).
    { destruct Hin as [Hin | [Hin | [Hin | Hin]]].
      - destruct (Z.ltb_spec (corner_x m t + 1) (map_size_x m)); [ | destruct Hin].
        destruct Hin as [<- | []]. exists (corner_x m t + 1), (corner_y m t). lia.
      - destruct (Z.leb_spec 1 (corner_x m t)); [ | destruct Hin].
        destruct Hin as [<- | []]. exists (corner_x m t - 1), (corner_y m t). lia.
      - destruct (Z.ltb_spec (corner_y m t + 1) (map_size_y m)); [ | destruct Hin].
        destruct Hin as [<- | []]. exists (corner_x m t), (corner_y m t + 1). lia.
      - destruct (Z.leb_spec 1 (corner_y m t)); [ | destruct Hin].
        destruct Hin as [<- | []]. exists (corner_x m t), (corner_y m t - 1). lia. }
    destruct Hn as (x & y & Hx & Hy & -> & Hd).
    destruct (coordinates_of x y Hx Hy) as (He & EX & EY).
    unfold adjacent. rewrite EX, EY. split; [exact Ht | split; [exact He | exact Hd]].
  - intros (_ & Hn & Hd). destruct (coordinates n Hn) as (HXn & HYn & En).
    assert (Hcases :
      (corner_x m n = corner_x m t + 1 /\ corner_y m n = corner_y m t) \/
      (corner_x m n = corner_x m t - 1 /\ corner_y m n = corner_y m t) \/
      (corner_x m n = corner_x m t /\ corner_y m n = corner_y m t + 1) \/
      (corner_x m n = corner_x m t /\ corner_y m n = corner_y m t - 1)) by lia.
    destruct Hcases as [[Ex Ey] | [[Ex Ey] | [[Ex Ey] | [Ex Ey]]]].
    + left. destruct (Z.ltb_spec (corner_x m t + 1) (map_size_x m)); [left | ]; nia.
    + right; left. destruct (Z.leb_spec 1 (corner_x m t)); [left | ]; nia.
    + right; right; left.
      destruct (Z.ltb_spec (corner_y m t + 1) (map_size_y m)); [left | ]; nia.
    + right; right; right. destruct (Z.leb_spec 1 (corner_y m t)); [left | ]; nia.
Qed.

(** Across a tile there is a corner adjacent to both ends of the diagonal. *)
Lemma diagonal_between a b :
  diagonal m a b -> exists c, adjacent m a c /\ adjacent m c b.
Proof.
  intros (Ha & Hb & Hx & Hy).
  destruct (coordinates a Ha) as (HXa & HYa & Ea).
  destruct (coordinates b Hb) as (HXb & HYb & Eb).
  destruct (coordinates_of (corner_x m b) (corner_y m a) HXb HYa) as (Hc & EX & EY).
  exists (corner_y m a * map_size_x m + corner_x m b).
  unfold adjacent. rewrite !EX, !EY.
  split; [split; [exact Ha | split; [exact Hc | lia]] | split; [exact Hc | split; [exact Hb | lia]]].
Qed.

End Coordinates.

(** *** The loop over the neighbours *)

Section Neighbours.

Context {Content : Type}.
Variable w : World Content.
Hypothesis Hwide : map_wide (main_map w).

Local Abbreviation m := (main_map w).

Variable recurse : TerraformerState -> Z -> Z -> Outcome Z.

(** One turn of the loop: the neighbour is visited if it is on the map and
    not reached by wrapping around it. *)
Lemma terraform_neighbours_step orig height ttm ttms tile total ts :
  terraform_neighbours recurse w orig height (ttm :: ttms) tile total ts =
  let tile' := uint32 (tile + ToTileIndexDiff w ttm) in
  if (tile' <? map_size_x m * map_size_y m) &&
     negb (Delta (corner_x m orig) (corner_x m tile') =? map_size_x m - 1) &&
     negb (Delta (corner_y m orig) (corner_y m tile') =? map_size_y m - 1)
  then terraform_neighbour recurse w height tile'
         (terraform_neighbours recurse w orig height ttms tile') total ts
  else terraform_neighbours recurse w orig height ttms tile' total ts.
Proof.
  destruct Hwide as (([Hx0 Hx1] & [Hy0 Hy1]) & _ & _).
  cbn [terraform_neighbours]. cbv zeta.
  set (tile' := uint32 (tile + ToTileIndexDiff w ttm)).
  change (MapSize (Some (main_map w))) with (map_size_x m * map_size_y m).
  change (TileX (main_tile w orig)) with (corner_x m orig).
  change (TileX (main_tile w tile')) with (corner_x m tile').
  change (TileY (main_tile w orig)) with (corner_y m orig).
  change (TileY (main_tile w tile')) with (corner_y m tile').
  change (MapSizeX (Some (main_map w))) with (map_size_x m).
  change (MapSizeY (Some (main_map w))) with (map_size_y m).
  rewrite !uint32_small by lia.
  rewrite Z.geb_leb.
  destruct (Z.leb_spec (map_size_x m * map_size_y m) tile');
    destruct (Z.ltb_spec tile' (map_size_x m * map_size_y m)); try lia; cbn [andb negb];
    [reflexivity | ].
  destruct (Delta (corner_x m orig) (corner_x m tile') =? map_size_x m - 1);
    cbn [andb negb]; [reflexivity | ].
  destruct (Delta (corner_y m orig) (corner_y m tile') =? map_size_y m - 1);
    cbn [andb negb]; reflexivity.
Qed.

(** The body of the loop does not tell continuations apart that agree. *)
Lemma terraform_neighbour_ext height n k1 k2 total ts :
  (forall total ts, k1 total ts = k2 total ts) ->
  terraform_neighbour recurse w height n k1 total ts =
  terraform_neighbour recurse w height n k2 total ts.
Proof.
  intros Hk. unfold terraform_neighbour.
  destruct (Z.abs (int32 (height - TerraformGetHeightOfTile w ts n)) >? 1); [ | apply Hk].
  destruct (recurse ts n _); cbn [bind]; [reflexivity | reflexivity | apply Hk].
Qed.

Section AroundTile.

Variable t : Z.
Hypothesis Ht : tile_exists m t.

(** The values of the loop variable. *)
Lemma loop_tiles :
  uint32 (t + ToTileIndexDiff w (mkDiffC 1 0)) = t + 1 /\
  uint32 (t + 1 + ToTileIndexDiff w (mkDiffC (-2) 0)) = uint32 (t - 1) /\
  uint32 (uint32 (t - 1) + ToTileIndexDiff w (mkDiffC 1 1)) = t + map_size_x m /\
  uint32 (t + map_size_x m + ToTileIndexDiff w (mkDiffC 0 (-2))) = uint32 (t - map_size_x m).
Proof.
  destruct Hwide as (Hok & Hsx & Hsy). pose proof (map_ok_size m Hok) as Hsize.
  unfold MapSize in Hsize. cbn [MapSizeX MapSizeY] in Hsize.
  destruct Hok as ([Hx0 Hx1] & [Hy0 Hy1]). unfold tile_exists in Ht.
  unfold ToTileIndexDiff. cbn [diff_x diff_y MapSizeX].
  rewrite !int32_small by lia.
  split; [apply uint32_small; lia | ].
  split; [f_equal; lia | ].
  split.
  - unfold uint32. rewrite Z.add_mod_idemp_l by lia.
    replace (t - 1 + (1 * map_size_x m + 1)) with (t + map_size_x m) by lia.
    apply Z.mod_small. lia.
  - f_equal. lia.
Qed.

Lemma uint32_wrapped z : - 2 ^ 32 <= z < 0 -> uint32 z = z + 2 ^ 32.
Proof.
  intros Hz. unfold uint32. symmetry. apply Z.mod_unique with (q := -1); lia.
Qed.

(** Which of the four neighbours the loop visits. *)
Lemma visits_SE :
  (t + 1 <? map_size_x m * map_size_y m) &&
  negb (Delta (corner_x m t) (corner_x m (t + 1)) =? map_size_x m - 1) &&
  negb (Delta (corner_y m t) (corner_y m (t + 1)) =? map_size_y m - 1)
  = (corner_x m t + 1 <? map_size_x m).
Proof.
  destruct (coordinates m Hwide t Ht) as (HX & HY & Et).
  destruct Hwide as (Hok & Hsx & Hsy).
  destruct (Z.ltb_spec (corner_x m t + 1) (map_size_x m)) as [Hin | Hout].
  - destruct (coordinates_of m (corner_x m t + 1) (corner_y m t) ltac:(lia) HY) as (He & EX & EY).
    replace (corner_y m t * map_size_x m + (corner_x m t + 1)) with (t + 1) in * by lia.
    rewrite EX, EY. unfold tile_exists in He. unfold Delta.
    destruct (Z.ltb_spec (t + 1) (map_size_x m * map_size_y m)); [ | lia].
    destruct (Z.ltb_spec (corner_x m t) (corner_x m t + 1)); [ | lia].
    destruct (Z.ltb_spec (corner_y m t) (corner_y m t)); [lia | ].
    destruct (Z.eqb_spec (corner_x m t + 1 - corner_x m t) (map_size_x m - 1)); [lia | ].
    destruct (Z.eqb_spec (corner_y m t - corner_y m t) (map_size_y m - 1)); [lia | ].
    reflexivity.
  - destruct (Z.ltb_spec (t + 1) (map_size_x m * map_size_y m)) as [Hlt | Hge];
      [ | reflexivity].
    assert (Hy1 : corner_y m t + 1 < map_size_y m) by nia.
    destruct (coordinates_of m 0 (corner_y m t + 1) ltac:(lia) ltac:(lia)) as (He & EX & EY).
    replace ((corner_y m t + 1) * map_size_x m + 0) with (t + 1) in * by lia.
    rewrite EX. unfold Delta.
    destruct (Z.ltb_spec (corner_x m t) 0); [lia | ].
    destruct (Z.eqb_spec (corner_x m t - 0) (map_size_x m - 1)); [reflexivity | lia].
Qed.

Lemma visits_NW :
  (uint32 (t - 1) <? map_size_x m * map_size_y m) &&
  negb (Delta (corner_x m t) (corner_x m (uint32 (t - 1))) =? map_size_x m - 1) &&
  negb (Delta (corner_y m t) (corner_y m (uint32 (t - 1))) =? map_size_y m - 1)
  = (1 <=? corner_x m t) /\
  (1 <= corner_x m t -> uint32 (t - 1) = t - 1).
Proof.
  destruct (coordinates m Hwide t Ht) as (HX & HY & Et).
  destruct Hwide as (Hok & Hsx & Hsy). pose proof (map_ok_size m Hok) as Hsize.
  unfold MapSize in Hsize. cbn [MapSizeX MapSizeY] in Hsize. unfold tile_exists in Ht.
  split; [ | intros H1; apply uint32_small; nia].
  destruct (Z.leb_spec 1 (corner_x m t)) as [Hin | Hout].
  - rewrite uint32_small by nia.
    destruct (coordinates_of m (corner_x m t - 1) (corner_y m t) ltac:(lia) HY) as (He & EX & EY).
    replace (corner_y m t * map_size_x m + (corner_x m t - 1)) with (t - 1) in * by lia.
    rewrite EX, EY. unfold tile_exists in He. unfold Delta.
    destruct (Z.ltb_spec (t - 1) (map_size_x m * map_size_y m)); [ | lia].
    destruct (Z.ltb_spec (corner_x m t) (corner_x m t - 1)); [lia | ].
    destruct (Z.ltb_spec (corner_y m t) (corner_y m t)); [lia | ].
    destruct (Z.eqb_spec (corner_x m t - (corner_x m t - 1)) (map_size_x m - 1)); [lia | ].
    destruct (Z.eqb_spec (corner_y m t - corner_y m t) (map_size_y m - 1)); [lia | ].
    reflexivity.
  - destruct (Z.eq_dec t 0) as [-> | Hpos].
    + rewrite uint32_wrapped by lia.
      destruct (Z.ltb_spec (0 - 1 + 2 ^ 32) (map_size_x m * map_size_y m)); [lia | reflexivity].
    + rewrite uint32_small by lia.
      destruct (Z.ltb_spec (t - 1) (map_size_x m * map_size_y m)) as [Hlt | Hge];
        [ | reflexivity].
      assert (Hy1 : 1 <= corner_y m t) by nia.
      destruct (coordinates_of m (map_size_x m - 1) (corner_y m t - 1) ltac:(lia) ltac:(lia))
        as (He & EX & EY).
      replace ((corner_y m t - 1) * map_size_x m + (map_size_x m - 1)) with (t - 1) in * by lia.
      rewrite EX. unfold Delta.
      destruct (Z.ltb_spec (corner_x m t) (map_size_x m - 1)); [ | lia].
      destruct (Z.eqb_spec (map_size_x m - 1 - corner_x m t) (map_size_x m - 1));
        [reflexivity | lia].
Qed.

Lemma visits_SW :
  (t + map_size_x m <? map_size_x m * map_size_y m) &&
  negb (Delta (corner_x m t) (corner_x m (t + map_size_x m)) =? map_size_x m - 1) &&
  negb (Delta (corner_y m t) (corner_y m (t + map_size_x m)) =? map_size_y m - 1)
  = (corner_y m t + 1 <? map_size_y m).
Proof.
  destruct (coordinates m Hwide t Ht) as (HX & HY & Et).
  destruct Hwide as (Hok & Hsx & Hsy).
  destruct (Z.ltb_spec (corner_y m t + 1) (map_size_y m)) as [Hin | Hout].
  - destruct (coordinates_of m (corner_x m t) (corner_y m t + 1) HX ltac:(lia)) as (He & EX & EY).
    replace ((corner_y m t + 1) * map_size_x m + corner_x m t) with (t + map_size_x m) in * by lia.
    rewrite EX, EY. unfold tile_exists in He. unfold Delta.
    destruct (Z.ltb_spec (t + map_size_x m) (map_size_x m * map_size_y m)); [ | lia].
    destruct (Z.ltb_spec (corner_x m t) (corner_x m t)); [lia | ].
    destruct (Z.ltb_spec (corner_y m t) (corner_y m t + 1)); [ | lia].
    destruct (Z.eqb_spec (corner_x m t - corner_x m t) (map_size_x m - 1)); [lia | ].
    destruct (Z.eqb_spec (corner_y m t + 1 - corner_y m t) (map_size_y m - 1)); [lia | ].
    reflexivity.
  - destruct (Z.ltb_spec (t + map_size_x m) (map_size_x m * map_size_y m)); [nia | reflexivity].
Qed.

Lemma visits_NE :
  (uint32 (t - map_size_x m) <? map_size_x m * map_size_y m) &&
  negb (Delta (corner_x m t) (corner_x m (uint32 (t - map_size_x m))) =? map_size_x m - 1) &&
  negb (Delta (corner_y m t) (corner_y m (uint32 (t - map_size_x m))) =? map_size_y m - 1)
  = (1 <=? corner_y m t) /\
  (1 <= corner_y m t -> uint32 (t - map_size_x m) = t - map_size_x m).
Proof.
  destruct (coordinates m Hwide t Ht) as (HX & HY & Et).
  destruct Hwide as (Hok & Hsx & Hsy). pose proof (map_ok_size m Hok) as Hsize.
  unfold MapSize in Hsize. cbn [MapSizeX MapSizeY] in Hsize. unfold tile_exists in Ht.
  destruct Hok as ([Hx0 Hx1] & [Hy0 Hy1]).
  split; [ | intros H1; apply uint32_small; nia].
  destruct (Z.leb_spec 1 (corner_y m t)) as [Hin | Hout].
  - rewrite uint32_small by nia.
    destruct (coordinates_of m (corner_x m t) (corner_y m t - 1) HX ltac:(lia)) as (He & EX & EY).
    replace ((corner_y m t - 1) * map_size_x m + corner_x m t) with (t - map_size_x m) in * by lia.
    rewrite EX, EY. unfold tile_exists in He. unfold Delta.
    destruct (Z.ltb_spec (t - map_size_x m) (map_size_x m * map_size_y m)); [ | lia].
    destruct (Z.ltb_spec (corner_x m t) (corner_x m t)); [lia | ].
    destruct (Z.ltb_spec (corner_y m t) (corner_y m t - 1)); [lia | ].
    destruct (Z.eqb_spec (corner_x m t - corner_x m t) (map_size_x m - 1)); [lia | ].
    destruct (Z.eqb_spec (corner_y m t - (corner_y m t - 1)) (map_size_y m - 1)); [lia | ].
    reflexivity.
  - rewrite uint32_wrapped by nia.
    destruct (Z.ltb_spec (t - map_size_x m + 2 ^ 32) (map_size_x m * map_size_y m));
      [nia | reflexivity].
Qed.

(** The loop of [TerraformTileHeight] visits the adjacent corners, each once. *)
Lemma terraform_neighbours_visit height total ts :
  terraform_neighbours recurse w t height _terraform_tilepos t total ts =
  visit_neighbours recurse w height (neighbour_tiles m t) total ts.
Proof.
  destruct loop_tiles as (E1 & E2 & E3 & E4).
  destruct visits_NW as [V2 U2]. destruct visits_NE as [V4 U4].
  pose proof visits_SE as V1. pose proof visits_SW as V3.
  assert (L4 : forall total ts,
    terraform_neighbours recurse w t height [mkDiffC 0 (-2)] (t + map_size_x m) total ts =
    visit_neighbours recurse w height
      (if 1 <=? corner_y m t then [t - map_size_x m] else []) total ts).
  { intros total' ts'. rewrite terraform_neighbours_step. cbv zeta. rewrite E4, V4.
    destruct (Z.leb_spec 1 (corner_y m t)) as [H1 | H1]; [ | reflexivity].
    rewrite (U4 H1). reflexivity. }
  assert (L3 : forall total ts,
    terraform_neighbours recurse w t height [mkDiffC 1 1; mkDiffC 0 (-2)]
      (uint32 (t - 1)) total ts =
    visit_neighbours recurse w height
      ((if corner_y m t + 1 <? map_size_y m then [t + map_size_x m] else []) ++
       (if 1 <=? corner_y m t then [t - map_size_x m] else [])) total ts).
  { intros total' ts'. rewrite terraform_neighbours_step. cbv zeta. rewrite E3, V3.
    destruct (corner_y m t + 1 <? map_size_y m); [ | apply L4].
    cbn [app visit_neighbours]. apply terraform_neighbour_ext. exact L4. }
  assert (L2 : forall total ts,
    terraform_neighbours recurse w t height [mkDiffC (-2) 0; mkDiffC 1 1; mkDiffC 0 (-2)]
      (t + 1) total ts =
    visit_neighbours recurse w height
      ((if 1 <=? corner_x m t then [t - 1] else []) ++
       (if corner_y m t + 1 <? map_size_y m then [t + map_size_x m] else []) ++
       (if 1 <=? corner_y m t then [t - map_size_x m] else [])) total ts).
  { intros total' ts'. rewrite terraform_neighbours_step. cbv zeta. rewrite E2, V2.
    destruct (Z.leb_spec 1 (corner_x m t)) as [H1 | H1]; [ | apply L3].
    cbn [app visit_neighbours]. rewrite (U2 H1) at 1.
    apply terraform_neighbour_ext. exact L3. }
  unfold _terraform_tilepos, neighbour_tiles.
  rewrite terraform_neighbours_step. cbv zeta. rewrite E1, V1.
  destruct (corner_x m t + 1 <? map_size_x m); [ | apply L2].
  cbn [app visit_neighbours]. apply terraform_neighbour_ext. exact L2.
Qed.

End AroundTile.

End Neighbours.

(** *** The propagation of a change of height *)

(** Arithmetic in which the direction [s] of the command is 1 or -1. *)
Ltac by_sign Hs :=
  let Es := fresh "Es" in
  destruct Hs as [Es | Es]; rewrite ?Es in *;
  cbn [Z.eqb Pos.eqb] in *; lia.

Section Propagation.

Context {Content : Type}.
Variable w : World Content.
Hypothesis Hwide : map_wide (main_map w).

Local Abbreviation m := (main_map w).
Local Abbreviation h0 := (tile_height w).
Local Abbreviation maxh := (max_heightlevel (settings w)).

(** The heights of the map as tiles store them, and the height limit. *)
Hypothesis Hheights : forall t, 0 <= h0 t <= 255.
Hypothesis Hmaxh : 0 <= maxh <= 255.

(** The terrain up ([s = 1]) or down ([s = -1]) which the command moves. *)
Variable s : Z.
Hypothesis Hs : s = 1 \/ s = -1.

Local Abbreviation heights_of := (PropagationProps.heights_of w).
Local Abbreviation values_ok := (PropagationProps.values_ok w).
Local Abbreviation within_one := (PropagationProps.within_one w s).
Local Abbreviation no_new_steps := (PropagationProps.no_new_steps w s).
Local Abbreviation ready := (PropagationProps.ready w s).
Local Abbreviation settled := (PropagationProps.settled w s).
Local Abbreviation depth := (PropagationProps.depth w s).
Local Abbreviation call_ok := (PropagationProps.call_ok w s).
Local Abbreviation collected := (PropagationProps.collected w s).
Local Abbreviation moved := (PropagationProps.moved w s).

Lemma depth_sign v : (s = 1 /\ depth v = v + 2) \/ (s = -1 /\ depth v = maxh - v + 2).
Proof. unfold PropagationProps.depth. destruct Hs as [-> | ->]; [left | right]; split; reflexivity. Qed.

Lemma heights_of_set ts t v x :
  heights_of (TerraformSetHeightOfTile ts t v) x = if x =? t then v else heights_of ts x.
Proof.
  unfold PropagationProps.heights_of, TerraformGetHeightOfTile, TerraformSetHeightOfTile.
  cbn [tile_to_new_height]. destruct (Z.eqb_spec x t) as [-> | Hne].
  - rewrite lookup_insert_eq. reflexivity.
  - rewrite lookup_insert_ne by congruence. reflexivity.
Qed.

Lemma TerraformAddDirtyTileAround_heights ts t :
  tile_to_new_height (TerraformAddDirtyTileAround w ts t) = tile_to_new_height ts.
Proof.
  unfold TerraformAddDirtyTileAround.
  destruct (TileY (main_tile w t) >=? 1), (TileX (main_tile w t) >=? 1); reflexivity.
Qed.

Lemma values_ok_set ts t v :
  values_ok ts -> 0 <= v <= maxh ->
  values_ok (TerraformSetHeightOfTile (TerraformAddDirtyTileAround w ts t) t v).
Proof.
  intros Hok Hv t' v'. unfold TerraformSetHeightOfTile. cbn [tile_to_new_height].
  rewrite TerraformAddDirtyTileAround_heights.
  destruct (Z.eq_dec t t') as [-> | Hne].
  - rewrite lookup_insert_eq. intros E. inversion E; subst. exact Hv.
  - rewrite lookup_insert_ne by congruence. apply Hok.
Qed.

Lemma heights_of_set_around ts t v x :
  heights_of (TerraformSetHeightOfTile (TerraformAddDirtyTileAround w ts t) t v) x =
  if x =? t then v else heights_of ts x.
Proof.
  rewrite heights_of_set. destruct (x =? t); [reflexivity | ].
  unfold PropagationProps.heights_of, TerraformGetHeightOfTile.
  rewrite TerraformAddDirtyTileAround_heights. reflexivity.
Qed.

(** The walk over the neighbours of [t] after [t] has been set to [v]. *)
Lemma visit_neighbours_settles fuel h t v :
  call_ok fuel ->
  tile_exists m t -> ready h t v -> 0 <= v <= maxh -> depth v <= Z.of_nat fuel + 1 ->
  forall l total ts,
    (forall n, In n l -> adjacent m t n) ->
    values_ok ts -> settled h (heights_of ts) t v l ->
    match visit_neighbours (fun ts tile height => TerraformTileHeight fuel w ts tile height)
            w v l total ts with
    | OutOfFuel => False
    | Fails _ _ => True
    | Gives _ ts' => values_ok ts' /\ settled h (heights_of ts') t v []
    end.
Proof.
  intros Hcall Ht (Hht & Hh0t & Hgentle & Hwithin & Hlow) Hv Hdepth.
  induction l as [ | n l IH]; intros total ts Hadj Hvals (Hst & Hw1 & Hmono & Hsteps).
  - cbn [visit_neighbours]. split; [exact Hvals | ].
    exact (conj Hst (conj Hw1 (conj Hmono Hsteps))).
  - cbn [visit_neighbours]. unfold terraform_neighbour.
    fold (heights_of ts n).
    assert (Htn : adjacent m t n) by (apply Hadj; left; reflexivity).
    assert (Hadj' : forall n', In n' l -> adjacent m t n')
      by (intros n' Hn'; apply Hadj; right; exact Hn').
    (* where the neighbour stands *)
    pose proof (Hgentle t n Htn) as Hg1.
    pose proof (Hgentle n t (adjacent_sym m t n Htn)) as Hg2.
    pose proof (Hw1 n) as Hwn. pose proof (Hheights n) as Hrange.
    pose proof (Hheights t) as Hranget.
    set (r := heights_of ts n) in *.
    assert (Hr : s * v - 2 <= s * r <= s * v + 1) by (by_sign Hs).
    rewrite (int32_small (v - r)) by (by_sign Hs).
    rewrite Z.gtb_ltb.
    destruct (Z.ltb_spec 1 (Z.abs (v - r))) as [Hfar | Hnear].
    + (* the neighbour is two levels away: it is moved to one level from v *)
      assert (Er : r = v - 2 * s) by (by_sign Hs).
      assert (Etarget : int32 (r + int32 (v - r + (if v - r <? 0 then 1 else -1))) = v - s).
      { destruct (Z.ltb_spec (v - r) 0).
        - rewrite (int32_small (v - r + 1)) by (by_sign Hs).
          rewrite int32_small by (by_sign Hs). by_sign Hs.
        - rewrite (int32_small (v - r + -1)) by (by_sign Hs).
          rewrite int32_small by (by_sign Hs). by_sign Hs. }
      rewrite Etarget.
      assert (Hready : ready (heights_of ts) n (v - s)).
      { unfold PropagationProps.ready. fold r.
        split; [by_sign Hs | ].
        split; [by_sign Hs | ].
        split; [exact Hgentle | ]. split; [exact Hw1 | ].
        intros a b Hab Hb.
        destruct (Z_le_gt_dec (s * heights_of ts a) (s * heights_of ts b + 1)) as [Hle | Hgt];
          [exact Hle | exfalso].
        destruct (Hsteps a b Hab ltac:(lia)) as [Hold | [-> Hin]].
        * pose proof (Hmono b). pose proof (Hlow a b Hab ltac:(by_sign Hs)). lia.
        * pose proof (Hadj b Hin) as Htb.
          pose proof (Hgentle t b Htb). pose proof (Hgentle b t (adjacent_sym m t b Htb)).
          pose proof (Hw1 b). by_sign Hs. }
      assert (Hn : tile_exists m n) by apply Htn.
      pose proof (depth_sign v) as Dv. pose proof (depth_sign (v - s)) as Dv'.
      assert (Hfuel1 : 1 <= Z.of_nat fuel) by lia.
      assert (Hfuel2 : 0 <= v - s <= maxh -> depth (v - s) <= Z.of_nat fuel).
      { intros _. lia. }
      pose proof (Hcall ts n (v - s) Hn Hvals Hready Hfuel1 Hfuel2) as Hrec.
      destruct (TerraformTileHeight fuel w ts n (v - s)) as [ | msg ts' | c ts'];
        cbn [bind]; [exact Hrec | exact I | ].
      destruct Hrec as (Hvals' & Hn' & Hw1' & Hmono' & Hsteps').
      apply IH; [exact Hadj' | exact Hvals' | ].
      assert (Ht' : heights_of ts' t = v).
      { pose proof (Hmono' t). pose proof (Hw1' t). rewrite Hst in *.
        by_sign Hs. }
      split; [exact Ht' | ]. split; [exact Hw1' | ]. split.
      * intros x. pose proof (Hmono x). pose proof (Hmono' x). lia.
      * intros a b Hab Hstep.
        destruct (Hsteps' a b Hab Hstep) as [Hbefore | [_ []]].
        destruct (Hsteps a b Hab Hbefore) as [Hold | [-> [<- | Hin]]].
        -- left. exact Hold.
        -- exfalso. rewrite Ht', Hn' in Hstep. by_sign Hs.
        -- right. auto.
    + (* the neighbour is within one level *)
      apply IH; [exact Hadj' | exact Hvals | ].
      split; [exact Hst | ]. split; [exact Hw1 | ]. split; [exact Hmono | ].
      intros a b Hab Hstep.
      destruct (Hsteps a b Hab Hstep) as [Hold | [-> [<- | Hin]]].
      * left. exact Hold.
      * exfalso. rewrite Hst in Hstep. fold r in Hstep. by_sign Hs.
      * right. auto.
Qed.

(** [TerraformTileHeight] returns within [depth v] nested calls, and when it
    succeeds it leaves no step that was not there before. *)
Lemma TerraformTileHeight_settles : forall fuel, call_ok fuel.
Proof.
  induction fuel as [ | fuel IH]; intros ts t v Ht Hvals Hready Hfuel Hdepth.
  - simpl in Hfuel. lia.
  - cbn [TerraformTileHeight]. fold (heights_of ts t).
    destruct (Z.ltb_spec v 0) as [Hneg | Hpos]; [exact I | ].
    rewrite Z.gtb_ltb.
    destruct (Z.ltb_spec maxh v) as [Hhigh | Hlow]; [exact I | ].
    destruct (v =? heights_of ts t); [exact I | ].
    destruct (negb (freeform_edges (settings w)) && _); [exact I | ].
    rewrite (terraform_neighbours_visit w Hwide _ t Ht).
    assert (Hv : 0 <= v <= maxh) by lia.
    apply (visit_neighbours_settles fuel (heights_of ts) t v IH Ht Hready Hv).
    + specialize (Hdepth Hv). lia.
    + intros n Hn. apply (neighbour_tiles_adjacent m Hwide t n Ht). exact Hn.
    + apply values_ok_set; assumption.
    + destruct Hready as (Hht & Hh0t & Hgentle & Hwithin & Hlowsteps).
      split; [ | split; [ | split]].
      * rewrite heights_of_set_around, Z.eqb_refl. reflexivity.
      * intros x. rewrite heights_of_set_around.
        destruct (Z.eqb_spec x t) as [-> | Hne]; [ | apply Hwithin].
        rewrite Hh0t. by_sign Hs.
      * intros x. rewrite heights_of_set_around.
        destruct (Z.eqb_spec x t) as [-> | Hne]; [by_sign Hs | lia].
      * intros a b Hab. rewrite !heights_of_set_around.
        destruct (Z.eqb_spec a t) as [-> | Hna].
        -- intros _. right. split; [reflexivity | ].
           apply (neighbour_tiles_adjacent m Hwide t b Ht). exact Hab.
        -- destruct (Z.eqb_spec b t) as [-> | Hnb]; intros Hstep; left; [ | exact Hstep].
           by_sign Hs.
Qed.

Lemma gentle_either h a b : gentle m h -> adjacent m a b -> s * h a <= s * h b + 1.
Proof.
  intros Hg Hab. pose proof (Hg a b Hab). pose proof (Hg b a (adjacent_sym m a b Hab)).
  by_sign Hs.
Qed.

(** Terraforming a corner to the height it already has is refused. *)
Lemma TerraformTileHeight_same fuel ts t :
  1 <= Z.of_nat fuel ->
  match TerraformTileHeight fuel w ts t (heights_of ts t) with
  | Gives _ _ | OutOfFuel => False
  | Fails _ _ => True
  end.
Proof.
  intros Hfuel. destruct fuel as [ | fuel]; [simpl in Hfuel; lia | ].
  cbn [TerraformTileHeight]. fold (heights_of ts t).
  destruct (heights_of ts t <? 0); [exact I | ].
  destruct (heights_of ts t >? maxh); [exact I | ].
  rewrite Z.eqb_refl. exact I.
Qed.

(** A call of [TerraformTileHeight] from [CmdTerraformLand], which asks for
    the height of the map plus the direction. *)
Lemma TerraformTileHeight_from_command fuel ts t :
  gentle m h0 -> maxh + 2 <= Z.of_nat fuel ->
  tile_exists m t -> collected ts ->
  match TerraformTileHeight fuel w ts t (h0 t + s) with
  | OutOfFuel => False
  | Fails _ _ => True
  | Gives _ ts' => collected ts'
  end.
Proof.
  intros Hg0 Hfuel Ht (Hvals & Hgentle & Hwithin).
  destruct (Z.eq_dec (heights_of ts t) (h0 t)) as [Esame | Emoved].
  - assert (Hready : ready (heights_of ts) t (h0 t + s)).
    { split; [rewrite Esame; by_sign Hs | ]. split; [congruence | ].
      split; [exact Hg0 | ]. split; [exact Hwithin | ].
      intros a b Hab _. apply gentle_either; assumption. }
    pose proof (depth_sign (h0 t + s)) as Dv.
    pose proof (TerraformTileHeight_settles fuel ts t (h0 t + s) Ht Hvals Hready
                  ltac:(lia) ltac:(intros Hv; by_sign Hs)) as Hcall.
    destruct (TerraformTileHeight fuel w ts t (h0 t + s)) as [ | msg ts' | c ts'];
      [exact Hcall | exact I | ].
    destruct Hcall as (Hvals' & _ & Hwithin' & _ & Hsteps).
    split; [exact Hvals' | ]. split; [ | exact Hwithin'].
    intros a b Hab.
    destruct (Z_le_gt_dec (heights_of ts' a - heights_of ts' b) 1) as [Hle | Hgt];
      [exact Hle | exfalso].
    pose proof (Hgentle a b Hab) as G1.
    pose proof (Hgentle b a (adjacent_sym m a b Hab)) as G2.
    destruct Hs as [Es | Es].
    + destruct (Hsteps a b Hab ltac:(rewrite Es; lia)) as [Hold | [_ []]].
      rewrite Es in Hold. lia.
    + destruct (Hsteps b a (adjacent_sym m a b Hab) ltac:(rewrite Es; lia)) as [Hold | [_ []]].
      rewrite Es in Hold. lia.
  - assert (Ev : h0 t + s = heights_of ts t).
    { pose proof (Hwithin t). by_sign Hs. }
    rewrite Ev.
    pose proof (TerraformTileHeight_same fuel ts t ltac:(lia)) as Hsame.
    destruct (TerraformTileHeight fuel w ts t (heights_of ts t)); [exact Hsame | exact I | ].
    destruct Hsame.
Qed.

Lemma tile_add_xy_0_0 tile : tile_exists m tile -> tile_add_xy w tile 0 0 = tile.
Proof.
  intros Ht. destruct Hwide as (Hok & _ & _). pose proof (map_ok_size m Hok) as Hsize.
  unfold MapSize in Hsize. cbn [MapSizeX MapSizeY] in Hsize. unfold tile_exists in Ht.
  unfold tile_add_xy, TileDiffXY. cbn [MapSizeX].
  replace (0 * map_size_x m + 0) with 0 by lia.
  rewrite (uint32_small 0), (int32_small 0) by lia.
  rewrite Z.add_0_r. apply uint32_small. lia.
Qed.

Lemma terraform_corner_ok fuel tile p1 corner x y bounded total ts :
  gentle m h0 -> maxh + 2 <= Z.of_nat fuel ->
  tile_exists m tile -> (bounded = false -> x = 0 /\ y = 0) ->
  collected ts ->
  match terraform_corner fuel w tile s p1 corner x y bounded total ts with
  | OutOfFuel => False
  | Fails _ _ => True
  | Gives _ ts' => collected ts'
  end.
Proof.
  intros Hg0 Hfuel Htile Hxy Hts. unfold terraform_corner.
  destruct (has_bit p1 corner && _) eqn:Hcond; [ | exact Hts].
  apply andb_true_iff in Hcond. destruct Hcond as [_ Hbound].
  set (t := tile_add_xy w tile x y) in *.
  assert (Ht : tile_exists m t).
  { destruct bounded.
    - apply Z.ltb_lt in Hbound. unfold tile_exists.
      change (MapSize (Some (main_map w))) with (map_size_x m * map_size_y m) in Hbound.
      pose proof (uint32_range (tile + TileDiffXY x y (Some (main_map w)))) as Hr.
      fold (tile_add_xy w tile x y) in Hr. fold t in Hr. lia.
    - destruct (Hxy eq_refl) as [-> ->]. unfold t. rewrite (tile_add_xy_0_0 tile Htile).
      exact Htile. }
  assert (Ev : int32 (uint32 (TileHeight w t + s)) = h0 t + s).
  { unfold TileHeight. apply int32_uint32. pose proof (Hheights t). by_sign Hs. }
  rewrite Ev.
  pose proof (TerraformTileHeight_from_command fuel ts t Hg0 Hfuel Ht Hts) as Hcall.
  destruct (TerraformTileHeight fuel w ts t (h0 t + s)) as [ | msg ts' | c ts'];
    cbn [bind]; [exact Hcall | exact I | exact Hcall].
Qed.

(** The collecting phase of [CmdTerraformLand] on a gentle terrain. *)
Lemma terraform_collect_ok fuel tile p1 :
  gentle m h0 -> maxh + 2 <= Z.of_nat fuel -> tile_exists m tile ->
  match terraform_collect fuel w tile s p1 with
  | OutOfFuel => False
  | Fails _ _ => True
  | Gives _ ts => collected ts
  end.
Proof.
  intros Hg0 Hfuel Htile. unfold terraform_collect.
  assert (Hstart : collected (mkState [] ∅ INVALID_TILE_INDEX)).
  { assert (E : forall x, heights_of (mkState [] ∅ INVALID_TILE_INDEX) x = h0 x).
    { intros x. unfold PropagationProps.heights_of, TerraformGetHeightOfTile. cbn [tile_to_new_height].
      rewrite lookup_empty. reflexivity. }
    split; [ | split].
    - intros t v Hl. cbn [tile_to_new_height] in Hl. rewrite lookup_empty in Hl. discriminate.
    - intros a b Hab. rewrite !E. apply Hg0, Hab.
    - intros x. rewrite E. lia. }
  pose proof (terraform_corner_ok fuel tile p1 SLOPE_W 1 0 true 0 _ Hg0 Hfuel Htile
                ltac:(discriminate) Hstart) as H1.
  destruct (terraform_corner fuel w tile s p1 SLOPE_W 1 0 true 0 _) as [ | ? ? | c1 ts1];
    cbn [bind]; [exact H1 | exact I | ].
  pose proof (terraform_corner_ok fuel tile p1 SLOPE_S 1 1 true c1 ts1 Hg0 Hfuel Htile
                ltac:(discriminate) H1) as H2.
  destruct (terraform_corner fuel w tile s p1 SLOPE_S 1 1 true c1 ts1) as [ | ? ? | c2 ts2];
    cbn [bind]; [exact H2 | exact I | ].
  pose proof (terraform_corner_ok fuel tile p1 SLOPE_E 0 1 true c2 ts2 Hg0 Hfuel Htile
                ltac:(discriminate) H2) as H3.
  destruct (terraform_corner fuel w tile s p1 SLOPE_E 0 1 true c2 ts2) as [ | ? ? | c3 ts3];
    cbn [bind]; [exact H3 | exact I | ].
  apply (terraform_corner_ok fuel tile p1 SLOPE_N 0 0 false c3 ts3 Hg0 Hfuel Htile);
    [auto | exact H3].
Qed.

(** A call from [CmdTerraformLand] that succeeds has moved its corner, and
    no corner back. *)
Lemma TerraformTileHeight_from_command_moves fuel ts t :
  gentle m h0 -> maxh + 2 <= Z.of_nat fuel ->
  tile_exists m t -> collected ts ->
  match TerraformTileHeight fuel w ts t (h0 t + s) with
  | Gives _ ts' =>
      heights_of ts' t = h0 t + s /\ forall x, s * heights_of ts x <= s * heights_of ts' x
  | _ => True
  end.
Proof.
  intros Hg0 Hfuel Ht (Hvals & Hgentle & Hwithin).
  destruct (Z.eq_dec (heights_of ts t) (h0 t)) as [Esame | Emoved].
  - assert (Hready : ready (heights_of ts) t (h0 t + s)).
    { split; [rewrite Esame; by_sign Hs | ]. split; [congruence | ].
      split; [exact Hg0 | ]. split; [exact Hwithin | ].
      intros a b Hab _. apply gentle_either; assumption. }
    pose proof (depth_sign (h0 t + s)) as Dv.
    pose proof (TerraformTileHeight_settles fuel ts t (h0 t + s) Ht Hvals Hready
                  ltac:(lia) ltac:(intros Hv; by_sign Hs)) as Hcall.
    destruct (TerraformTileHeight fuel w ts t (h0 t + s)) as [ | msg ts' | c ts'];
      [exact I | exact I | ].
    destruct Hcall as (_ & Hst & _ & Hmono & _). split; [exact Hst | exact Hmono].
  - assert (Ev : h0 t + s = heights_of ts t).
    { pose proof (Hwithin t). by_sign Hs. }
    rewrite Ev.
    pose proof (TerraformTileHeight_same fuel ts t ltac:(lia)) as Hsame.
    destruct (TerraformTileHeight fuel w ts t (heights_of ts t));
      [exact I | exact I | destruct Hsame].
Qed.

(** A corner step of [CmdTerraformLand] that succeeds has moved its corner,
    if it is asked for, and has left the corners moved before where they
    are. *)
Lemma terraform_corner_moves fuel tile p1 corner x y bounded total ts done :
  gentle m h0 -> maxh + 2 <= Z.of_nat fuel ->
  tile_exists m tile -> (bounded = false -> x = 0 /\ y = 0) ->
  collected ts -> moved done ts ->
  match terraform_corner fuel w tile s p1 corner x y bounded total ts with
  | Gives _ ts' =>
      moved ((if has_bit p1 corner &&
                 (if bounded then tile_add_xy w tile x y <? MapSize (Some m) else true)
              then [tile_add_xy w tile x y] else []) ++ done) ts'
  | _ => True
  end.
Proof.
  intros Hg0 Hfuel Htile Hxy Hts Hdone.
  pose proof (terraform_corner_ok fuel tile p1 corner x y bounded total ts
                Hg0 Hfuel Htile Hxy Hts) as Hok.
  unfold terraform_corner in *.
  destruct (has_bit p1 corner && _) eqn:Hcond; [ | exact Hdone].
  apply andb_true_iff in Hcond. destruct Hcond as [_ Hbound].
  set (t := tile_add_xy w tile x y) in *.
  assert (Ht : tile_exists m t).
  { destruct bounded.
    - apply Z.ltb_lt in Hbound. unfold tile_exists.
      change (MapSize (Some (main_map w))) with (map_size_x m * map_size_y m) in Hbound.
      pose proof (uint32_range (tile + TileDiffXY x y (Some (main_map w)))) as Hr.
      fold (tile_add_xy w tile x y) in Hr. fold t in Hr. lia.
    - destruct (Hxy eq_refl) as [-> ->]. unfold t. rewrite (tile_add_xy_0_0 tile Htile).
      exact Htile. }
  assert (Ev : int32 (uint32 (TileHeight w t + s)) = h0 t + s).
  { unfold TileHeight. apply int32_uint32. pose proof (Hheights t). by_sign Hs. }
  rewrite Ev in *.
  pose proof (TerraformTileHeight_from_command_moves fuel ts t Hg0 Hfuel Ht Hts) as Hcall.
  destruct (TerraformTileHeight fuel w ts t (h0 t + s)) as [ | msg ts' | c ts'];
    cbn [bind] in *; [exact I | exact I | ].
  destruct Hcall as [Hst Hmono]. destruct Hok as (_ & _ & Hwithin').
  intros t' [<- | Hin]; [exact Hst | ].
  pose proof (Hdone t' Hin) as Hbefore. pose proof (Hmono t') as Hm.
  pose proof (Hwithin' t') as Hw. rewrite Hbefore in Hm. by_sign Hs.
Qed.

(** The collecting phase of [CmdTerraformLand] moves every corner that is
    asked for. *)
Lemma terraform_collect_moves fuel tile p1 :
  gentle m h0 -> maxh + 2 <= Z.of_nat fuel -> tile_exists m tile ->
  match terraform_collect fuel w tile s p1 with
  | Gives _ ts => moved (PropagationProps.requested_corners w tile p1) ts
  | _ => True
  end.
Proof.
  intros Hg0 Hfuel Htile. unfold terraform_collect.
  set (ts0 := mkState [] ∅ INVALID_TILE_INDEX).
  assert (Hstart : collected ts0).
  { assert (E : forall x, heights_of ts0 x = h0 x).
    { intros x. unfold PropagationProps.heights_of, TerraformGetHeightOfTile.
      cbn [tile_to_new_height ts0]. rewrite lookup_empty. reflexivity. }
    split; [ | split].
    - intros t v Hl. cbn [tile_to_new_height ts0] in Hl. rewrite lookup_empty in Hl.
      discriminate.
    - intros a b Hab. rewrite !E. apply Hg0, Hab.
    - intros x. rewrite E. lia. }
  assert (Hnone : moved [] ts0) by (intros t []).
  pose proof (terraform_corner_ok fuel tile p1 SLOPE_W 1 0 true 0 ts0 Hg0 Hfuel Htile
                ltac:(discriminate) Hstart) as H1.
  pose proof (terraform_corner_moves fuel tile p1 SLOPE_W 1 0 true 0 ts0 [] Hg0 Hfuel Htile
                ltac:(discriminate) Hstart Hnone) as M1.
  destruct (terraform_corner fuel w tile s p1 SLOPE_W 1 0 true 0 ts0) as [ | ? ? | c1 ts1];
    cbn [bind]; [exact I | exact I | ].
  pose proof (terraform_corner_ok fuel tile p1 SLOPE_S 1 1 true c1 ts1 Hg0 Hfuel Htile
                ltac:(discriminate) H1) as H2.
  pose proof (terraform_corner_moves fuel tile p1 SLOPE_S 1 1 true c1 ts1 _ Hg0 Hfuel Htile
                ltac:(discriminate) H1 M1) as M2.
  destruct (terraform_corner fuel w tile s p1 SLOPE_S 1 1 true c1 ts1) as [ | ? ? | c2 ts2];
    cbn [bind]; [exact I | exact I | ].
  pose proof (terraform_corner_ok fuel tile p1 SLOPE_E 0 1 true c2 ts2 Hg0 Hfuel Htile
                ltac:(discriminate) H2) as H3.
  pose proof (terraform_corner_moves fuel tile p1 SLOPE_E 0 1 true c2 ts2 _ Hg0 Hfuel Htile
                ltac:(discriminate) H2 M2) as M3.
  destruct (terraform_corner fuel w tile s p1 SLOPE_E 0 1 true c2 ts2) as [ | ? ? | c3 ts3];
    cbn [bind]; [exact I | exact I | ].
  pose proof (terraform_corner_moves fuel tile p1 SLOPE_N 0 0 false c3 ts3 _ Hg0 Hfuel Htile
                ltac:(auto) H3 M3) as M4.
  destruct (terraform_corner fuel w tile s p1 SLOPE_N 0 0 false c3 ts3) as [ | ? ? | c4 ts4];
    [exact I | exact I | ].
  intros t Hin. apply M4. unfold PropagationProps.requested_corners in Hin.
  rewrite andb_true_r. rewrite !in_app_iff in *. tauto.
Qed.

(** The heights that the [DC_EXEC] block writes are the heights collected. *)
Lemma terraform_commit_heights ts :
  values_ok ts -> forall x, terraform_commit h0 ts x = heights_of ts x.
Proof.
  intros Hvals. unfold terraform_commit, PropagationProps.heights_of, TerraformGetHeightOfTile, TileHeight.
  revert Hvals. unfold PropagationProps.values_ok.
  generalize (tile_to_new_height ts). intros heights.
  apply (map_fold_weak_ind
           (fun r (hm : gmap Z Z) =>
              (forall t v, hm !! t = Some v -> 0 <= v <= maxh) ->
              forall x, r x = match hm !! x with Some v => v | None => h0 x end)).
  - intros _ x. rewrite lookup_empty. reflexivity.
  - intros i v hm r Hnone IH Hvals x.
    assert (Hv : 0 <= v <= maxh) by (apply (Hvals i); apply lookup_insert_eq).
    unfold SetTileHeight. destruct (Z.eqb_spec x i) as [-> | Hne].
    + rewrite lookup_insert_eq. apply uint32_small. lia.
    + rewrite lookup_insert_ne by congruence. apply IH.
      intros t' v' Hl. apply (Hvals t').
      destruct (Z.eq_dec i t') as [-> | Hne']; [congruence | ].
      rewrite lookup_insert_ne by exact Hne'. exact Hl.
Qed.

End Propagation.

(** *** The command *)

Section Command.

Context {Content : Type}.
Variable hooks : Collaborators Content.

(** C1, as the code has it.  On a map of at least 3 by 3 tiles whose
    adjacent corners differ by at most one level, [CmdTerraformLand] returns
    (the recursion of [TerraformTileHeight] ends within
    [max_heightlevel + 2] nested calls), and when it succeeds in execute
    mode every corner that was asked for stands one level higher (or lower)
    than before; every neighbour along an axis of such a corner that stood
    more than one level from the new height of the corner has been moved by
    one level and stands one level from it; and the heights written differ
    by at most one level between corners adjacent along an axis, by at most
    two between the corners across a tile, and by at most one from the
    heights before; they are heights that a tile can store. *)
Theorem CmdTerraformLand_keeps_terrain_gentle
    (w : World Content) (fuel : nat) (tile flags p1 p2 : Z) :
  map_wide (main_map w) ->
  (forall t, 0 <= tile_height w t <= 255) ->
  0 <= max_heightlevel (settings w) <= 255 ->
  gentle (main_map w) (tile_height w) ->
  tile_exists (main_map w) tile ->
  max_heightlevel (settings w) + 2 <= Z.of_nat fuel ->
  exists res w',
    CmdTerraformLand fuel hooks w tile flags p1 p2 = Some (res, w') /\
    (Failed res = false -> has_bit flags DC_EXEC = true ->
     (forall c, In c (requested_corners w tile p1) ->
        tile_height w' c = tile_height w c + (if p2 =? 0 then -1 else 1)) /\
     (forall c n, In c (requested_corners w tile p1) -> adjacent (main_map w) c n ->
        1 < Z.abs (tile_height w c + (if p2 =? 0 then -1 else 1) - tile_height w n) ->
        tile_height w' n = tile_height w n + (if p2 =? 0 then -1 else 1) /\
        Z.abs (tile_height w' c - tile_height w' n) = 1) /\
     (forall a b, adjacent (main_map w) a b ->
        Z.abs (tile_height w' a - tile_height w' b) <= 1) /\
     (forall a b, diagonal (main_map w) a b ->
        Z.abs (tile_height w' a - tile_height w' b) <= 2) /\
     (forall t, Z.abs (tile_height w' t - tile_height w t) <= 1) /\
     (forall t, 0 <= tile_height w' t <= 255)).
Proof.
  intros Hwide Hheights Hmaxh Hgentle Htile Hfuel.
  set (w0 := set_terraform_err_tile w INVALID_TILE_INDEX).
  set (s := if p2 =? 0 then -1 else 1).
  assert (Hs : s = 1 \/ s = -1) by (unfold s; destruct (p2 =? 0); auto).
  pose proof (terraform_collect_ok w0 Hwide Hheights Hmaxh s Hs fuel tile p1
                Hgentle Hfuel Htile) as Hcollect.
  pose proof (terraform_collect_moves w0 Hwide Hheights Hmaxh s Hs fuel tile p1
                Hgentle Hfuel Htile) as Hmoves.
  change (requested_corners w0 tile p1) with (requested_corners w tile p1) in Hmoves.
  unfold CmdTerraformLand. fold w0. fold s.
  destruct (terraform_collect fuel w0 tile s p1) as [ | msg ts | total ts];
    [destruct Hcollect | | ].
  { eexists _, _. split; [reflexivity | ]. discriminate. }
  destruct Hcollect as (Hvals & Hgentle' & Hwithin).
  (* the heights that a commit writes *)
  assert (Hcommit : forall x,
            terraform_commit (tile_height w0) ts x = heights_of w0 ts x)
    by (apply (terraform_commit_heights w0 Hmaxh ts Hvals)).
  assert (Hresult : forall h' : Z -> Z,
            (forall x, h' x = heights_of w0 ts x) ->
            (forall c, In c (requested_corners w tile p1) -> h' c = tile_height w c + s) /\
            (forall c n, In c (requested_corners w tile p1) -> adjacent (main_map w) c n ->
               1 < Z.abs (tile_height w c + s - tile_height w n) ->
               h' n = tile_height w n + s /\ Z.abs (h' c - h' n) = 1) /\
            (forall a b, adjacent (main_map w) a b -> Z.abs (h' a - h' b) <= 1) /\
            (forall a b, diagonal (main_map w) a b -> Z.abs (h' a - h' b) <= 2) /\
            (forall t, Z.abs (h' t - tile_height w t) <= 1) /\
            (forall t, 0 <= h' t <= 255)).
  { intros h' Eh'.
    assert (Hadj : forall a b, adjacent (main_map w) a b -> Z.abs (h' a - h' b) <= 1).
    { intros a b Hab. rewrite !Eh'.
      apply (gentle_abs (main_map w) (heights_of w0 ts) a b Hgentle' Hab). }
    assert (Hreq : forall c, In c (requested_corners w tile p1) ->
              h' c = tile_height w c + s).
    { intros c Hc. rewrite Eh'. apply (Hmoves c Hc). }
    split; [exact Hreq | ]. split.
    { intros c n Hc Hcn Hfar.
      pose proof (Hreq c Hc) as Ec. pose proof (Hadj c n Hcn) as Hnear.
      pose proof (Hwithin n) as Hn. rewrite <- Eh' in Hn.
      change (tile_height w0 n) with (tile_height w n) in Hn.
      pose proof (Hgentle c n Hcn) as G1.
      pose proof (Hgentle n c (adjacent_sym (main_map w) c n Hcn)) as G2.
      destruct Hs as [Es | Es]; rewrite Es in *; lia. }
    split; [exact Hadj | ]. split; [ | split].
    - intros a b Hab.
      destruct (diagonal_between (main_map w) Hwide a b Hab) as (c & Hac & Hcb).
      pose proof (Hadj a c Hac). pose proof (Hadj c b Hcb). lia.
    - intros t. rewrite Eh'. pose proof (Hwithin t) as Ht.
      change (tile_height w0 t) with (tile_height w t) in Ht.
      destruct Hs as [Es | Es]; rewrite Es in Ht; lia.
    - intros t. rewrite Eh'. unfold heights_of, TerraformGetHeightOfTile.
      destruct (tile_to_new_height ts !! t) as [v | ] eqn:El.
      + pose proof (Hvals t v El) as Hv.
        change (max_heightlevel (settings w0)) with (max_heightlevel (settings w)) in Hv. lia.
      + apply Hheights. }
  destruct (terraform_validate hooks 0 s flags ts (dirty_tiles ts) w0 total)
    as [res0 w1] eqn:Hpass0.
  pose proof (TerraformFacts.terraform_validate_preserves hooks _ _ _ _ _ _ _ _ _ Hpass0)
    as (Eh1 & _).
  destruct res0 as [total0 | message0];
    [ | eexists _, _; split; [reflexivity | discriminate]].
  destruct (terraform_validate hooks 1 s flags ts (dirty_tiles ts) w1 total0)
    as [res1 w2] eqn:Hpass1.
  pose proof (TerraformFacts.terraform_validate_preserves hooks _ _ _ _ _ _ _ _ _ Hpass1)
    as (Eh2 & _).
  destruct res1 as [total1 | message1];
    [ | eexists _, _; split; [reflexivity | discriminate]].
  assert (Eh : tile_height w2 = tile_height w0) by congruence.
  unfold terraform_finish.
  destruct (terraform_limit w2) as [l | ].
  - destruct (GB l 16 16 <? changed_corners ts);
      [eexists _, _; split; [reflexivity | discriminate] | ].
    destruct (has_bit flags DC_EXEC); eexists _, _; (split; [reflexivity | ]).
    + intros _ _. apply Hresult. intros x.
      cbn [tile_height set_terraform_limit set_tile_height]. rewrite Eh. apply Hcommit.
    + intros _ Habs. discriminate.
  - destruct (has_bit flags DC_EXEC); eexists _, _; (split; [reflexivity | ]).
    + intros _ _. apply Hresult. intros x.
      cbn [tile_height set_tile_height]. rewrite Eh. apply Hcommit.
    + intros _ Habs. discriminate.
Qed.

End Command.

(** *** On the small world *)

Lemma hill_world_gentle : gentle (main_map hill_world) (tile_height hill_world).
Proof.
  intros a b _. cbn [tile_height hill_world]. unfold hill_heights.
  destruct (a =? 27), (b =? 27); lia.
Qed.

Lemma CmdTerraformLand_keeps_terrain_gentle_witness :
  map_wide (main_map hill_world) /\
  (forall t, 0 <= tile_height hill_world t <= 255) /\
  0 <= max_heightlevel (settings hill_world) <= 255 /\
  gentle (main_map hill_world) (tile_height hill_world) /\
  tile_exists (main_map hill_world) 27 /\
  max_heightlevel (settings hill_world) + 2 <= Z.of_nat 20 /\
  (exists res w',
    CmdTerraformLand 20 (bare_collaborators 20) hill_world 27 DC_EXEC SLOPE_N 1
      = Some (res, w') /\
    (Failed res = false -> has_bit DC_EXEC DC_EXEC = true ->
     (forall c, In c (requested_corners hill_world 27 SLOPE_N) ->
        tile_height w' c = tile_height hill_world c + (if 1 =? 0 then -1 else 1)) /\
     (forall c n, In c (requested_corners hill_world 27 SLOPE_N) ->
        adjacent (main_map hill_world) c n ->
        1 < Z.abs (tile_height hill_world c + (if 1 =? 0 then -1 else 1)
                   - tile_height hill_world n) ->
        tile_height w' n = tile_height hill_world n + (if 1 =? 0 then -1 else 1) /\
        Z.abs (tile_height w' c - tile_height w' n) = 1) /\
     (forall a b, adjacent (main_map hill_world) a b ->
        Z.abs (tile_height w' a - tile_height w' b) <= 1) /\
     (forall a b, diagonal (main_map hill_world) a b ->
        Z.abs (tile_height w' a - tile_height w' b) <= 2) /\
     (forall t, Z.abs (tile_height w' t - tile_height hill_world t) <= 1) /\
     (forall t, 0 <= tile_height w' t <= 255))) /\
  (exists res w',
     CmdTerraformLand 20 (bare_collaborators 20) hill_world 27 DC_EXEC SLOPE_N 1
       = Some (res, w') /\
     Failed res = false /\ In 27 (requested_corners hill_world 27 SLOPE_N) /\
     adjacent (main_map hill_world) 27 26 /\
     tile_height hill_world 27 = 1 /\ tile_height hill_world 26 = 0 /\
     tile_height w' 27 = 2 /\ tile_height w' 26 = 1).
Proof.
  assert (H1 : map_wide (main_map hill_world)).
  { unfold map_wide, map_ok. cbn. lia. }
  assert (H2 : forall t, 0 <= tile_height hill_world t <= 255).
  { intros t. cbn [tile_height hill_world]. unfold hill_heights. destruct (t =? 27); lia. }
  assert (H3 : 0 <= max_heightlevel (settings hill_world) <= 255) by (cbn; lia).
  assert (H5 : tile_exists (main_map hill_world) 27) by (unfold tile_exists; cbn; lia).
  assert (H6 : max_heightlevel (settings hill_world) + 2 <= Z.of_nat 20) by (cbn; lia).
  split; [exact H1 | ]. split; [exact H2 | ]. split; [exact H3 | ].
  split; [exact hill_world_gentle | ]. split; [exact H5 | ]. split; [exact H6 | ].
  pose proof (CmdTerraformLand_keeps_terrain_gentle (bare_collaborators 20) hill_world 20 27
                DC_EXEC SLOPE_N 1 H1 H2 H3 hill_world_gentle H5 H6) as Hrun.
  split; [exact Hrun | ].
  destruct Hrun as (res & w' & Hrun & Hok).
  assert (Hres : Failed res = false).
  { revert Hrun. vm_compute. intros E. injection E as <- _. reflexivity. }
  assert (Hin : In 27 (requested_corners hill_world 27 SLOPE_N))
    by (vm_compute; left; reflexivity).
  assert (Hadj : adjacent (main_map hill_world) 27 26).
  { unfold adjacent, tile_exists. repeat split; vm_compute; try reflexivity;
      intros H; discriminate H. }
  destruct (Hok Hres eq_refl) as (Hreq & Hnb & _).
  exists res, w'. split; [exact Hrun | ]. split; [exact Hres | ].
  split; [exact Hin | ]. split; [exact Hadj | ].
  split; [reflexivity | ]. split; [reflexivity | ].
  split; [rewrite (Hreq 27 Hin); reflexivity | ].
  destruct (Hnb 27 26 Hin Hadj ltac:(vm_compute; reflexivity)) as [E _].
  rewrite E. reflexivity.
Defined.

(** C1, as stated, fails for the corners across a tile.  Raising the corner
    at (3, 3) of the small world from 1 to 2 succeeds and raises its four
    neighbours along the axes to 1; the corner at (4, 4), a neighbour of the
    changed corners at (4, 3) and (3, 4), stays at 0, two levels below the
    corner across the tile. *)
Lemma raised_hill_is_steep_across_tile :
  match CmdTerraformLand 20 (bare_collaborators 20) hill_world 27 DC_EXEC SLOPE_N 1 with
  | Some (Cost _, w') =>
      tile_height w' 27 = 2 /\ tile_height w' 36 = 0 /\
      tile_height w' 28 = 1 /\ tile_height w' 35 = 1 /\
      ~ Z.abs (tile_height w' 27 - tile_height w' 36) <= 1
  | _ => False
  end /\
  gentle (main_map hill_world) (tile_height hill_world) /\
  diagonal (main_map hill_world) 27 36 /\
  adjacent (main_map hill_world) 28 36 /\
  adjacent (main_map hill_world) 35 36 /\
  tile_height hill_world 28 = 0 /\ tile_height hill_world 35 = 0.
Proof.
  split.
  - vm_compute. repeat split. intros H. apply H. reflexivity.
  - split; [exact hill_world_gentle | ].
    unfold diagonal, adjacent, tile_exists.
    repeat split; vm_compute; try reflexivity; intros H; discriminate H.
Qed.

End TerraformSlopes.

(** ** The other conversions of directions *)

Module DirectionsFacts.
Import Int IntFacts Direction DirectionFacts Directions.

Lemma valid_diagdir_cases d :
  IsValidDiagDirection d = true -> d = 0 \/ d = 1 \/ d = 2 \/ d = 3.
Proof.
  unfold IsValidDiagDirection, DIAGDIR_END. intros H.
  apply andb_true_iff in H. destruct H as [H0 H1].
  apply Z.leb_le in H0. apply Z.ltb_lt in H1. lia.
Qed.

Lemma valid_axis_cases a : IsValidAxis a = true -> a = 0 \/ a = 1.
Proof.
  unfold IsValidAxis, AXIS_END. intros H.
  apply andb_true_iff in H. destruct H as [H0 H1].
  apply Z.leb_le in H0. apply Z.ltb_lt in H1. lia.
Qed.

Ltac enum_diagdir H :=
  apply valid_diagdir_cases in H;
  repeat (destruct H as [H | H]); subst.

Ltac enum_axis H :=
  apply valid_axis_cases in H; destruct H as [H | H]; subst.

(** X1.  The difference of two directions is the rotation that leads from the
    second to the first: [ChangeDir d1 (DirDifference d0 d1) = d0]; and the
    difference between a direction rotated by [delta] and the direction
    itself is [delta]. *)
Theorem ChangeDir_DirDifference (d0 d1 delta : Z) :
  IsValidDirection d0 = true -> IsValidDirection d1 = true -> 0 <= delta < 8 ->
  ChangeDir d1 (DirDifference d0 d1) = d0 /\
  DirDifference (ChangeDir d1 delta) d1 = delta /\
  IsValidDirection (ChangeDir d1 delta) = true.
Proof.
  intros H0 H1 Hdelta.
  assert (Hd : delta = 0 \/ delta = 1 \/ delta = 2 \/ delta = 3 \/
               delta = 4 \/ delta = 5 \/ delta = 6 \/ delta = 7) by lia.
  enum_direction H0; enum_direction H1;
    repeat (destruct Hd as [Hd | Hd]); subst; vm_compute; auto.
Qed.

Lemma ChangeDir_DirDifference_witness :
  ChangeDir DIR_SE (DirDifference DIR_N DIR_SE) = DIR_N /\
  DirDifference (ChangeDir DIR_SE 7) DIR_SE = 7 /\
  IsValidDirection (ChangeDir DIR_SE 7) = true.
Proof. apply (ChangeDir_DirDifference DIR_N DIR_SE 7); [reflexivity | reflexivity | lia]. Defined.

(** What a build with assertions does in [TransformDiagDir]: the call is
    aborted when a reflection is asked for any direction but [DIAGDIR_NE]. *)
Lemma TransformDiagDir_asserting_cases d t :
  IsValidDiagDirection d = true -> IsValidDirTransform t = true ->
  TransformDiagDir_asserting d t =
    if reflects t && negb (d =? DIAGDIR_NE) then None else Some (TransformDiagDir d t).
Proof.
  intros Hd Ht. enum_diagdir Hd; enum_transform Ht; reflexivity.
Qed.

(** Split the hypothesis that a call of [TransformDiagDir] has returned. *)
Ltac returned E :=
  vm_compute in E; first [discriminate E | injection E as <-].

(** X2.  [ReverseDir] is the half turn: it is [ChangeDir] by four steps, it undoes
    itself, and it commutes with every rotation: where [TransformDir] by a
    transformation without reflection gives [v], it gives the reverse of [v]
    for the reversed direction.  With a reflection one of the two calls is
    aborted by the assertion of [ChangeDir]. *)
Theorem ReverseDir_half_turn (d t : Z) :
  IsValidDirection d = true -> IsValidDirTransform t = true ->
  ReverseDir d = ChangeDir d 4 /\
  ReverseDir (ReverseDir d) = d /\
  IsValidDirection (ReverseDir d) = true /\
  (reflects t = false ->
   exists v, TransformDir_asserting d t = Some v /\ IsValidDirection v = true /\
             TransformDir_asserting (ReverseDir d) t = Some (ReverseDir v)) /\
  (reflects t = true ->
   TransformDir_asserting d t = None \/ TransformDir_asserting (ReverseDir d) t = None).
Proof.
  intros Hd Ht.
  enum_direction Hd; enum_transform Ht;
    (split; [reflexivity | ]); (split; [reflexivity | ]); (split; [reflexivity | ]);
    (split; [intros E; first [discriminate E | eexists; repeat split]
            | intros E; first [discriminate E | left; reflexivity | right; reflexivity]]).
Qed.

Lemma ReverseDir_half_turn_witness :
  ReverseDir DIR_NE = ChangeDir DIR_NE 4 /\
  ReverseDir (ReverseDir DIR_NE) = DIR_NE /\
  IsValidDirection (ReverseDir DIR_NE) = true /\
  (exists v, TransformDir_asserting DIR_NE DTR_ROTATE_90_L = Some v /\
             IsValidDirection v = true /\
             TransformDir_asserting (ReverseDir DIR_NE) DTR_ROTATE_90_L = Some (ReverseDir v)) /\
  (TransformDir_asserting DIR_NE DTR_REFLECT_W_E = None \/
   TransformDir_asserting (ReverseDir DIR_NE) DTR_REFLECT_W_E = None).
Proof.
  destruct (ReverseDir_half_turn DIR_NE DTR_ROTATE_90_L eq_refl eq_refl)
    as (H1 & H2 & H3 & Hrotation & _).
  destruct (ReverseDir_half_turn DIR_NE DTR_REFLECT_W_E eq_refl eq_refl)
    as (_ & _ & _ & _ & Hreflection).
  split; [exact H1 | ]. split; [exact H2 | ]. split; [exact H3 | ].
  split; [exact (Hrotation eq_refl) | exact (Hreflection eq_refl)].
Defined.

(** X3.  Where [TransformDiagDir] returns, it agrees with [TransformDir]: the
    result is a 4-way direction, and transforming the 8-way direction that
    the argument stands for returns the 8-way direction that the result
    stands for.  It returns for every rotation, and for a reflection of
    [DIAGDIR_NE] only. *)
Theorem TransformDiagDir_agrees_with_TransformDir (d t v : Z) :
  IsValidDiagDirection d = true -> IsValidDirTransform t = true ->
  TransformDiagDir_asserting d t = Some v ->
  IsValidDiagDirection v = true /\
  IsValidDirection (DiagDirToDir d) = true /\
  TransformDir_asserting (DiagDirToDir d) t = Some (DiagDirToDir v) /\
  DirToDiagDir (DiagDirToDir v) = v /\
  (reflects t = false \/ d = DIAGDIR_NE).
Proof.
  intros Hd Ht E.
  enum_diagdir Hd; enum_transform Ht; returned E; repeat split; auto.
Qed.

Lemma TransformDiagDir_agrees_with_TransformDir_witness :
  IsValidDiagDirection DIAGDIR_SW = true /\
  IsValidDirection (DiagDirToDir DIAGDIR_SE) = true /\
  TransformDir_asserting (DiagDirToDir DIAGDIR_SE) DTR_ROTATE_90_R
    = Some (DiagDirToDir DIAGDIR_SW) /\
  DirToDiagDir (DiagDirToDir DIAGDIR_SW) = DIAGDIR_SW /\
  (reflects DTR_ROTATE_90_R = false \/ DIAGDIR_SE = DIAGDIR_NE).
Proof.
  apply (TransformDiagDir_agrees_with_TransformDir DIAGDIR_SE DTR_ROTATE_90_R DIAGDIR_SW);
    reflexivity.
Defined.

(** X4.  Where [TransformDiagDir] by [a] returns [d1] and by [b] returns [d2]
    from there, transforming by [CombineDirTransform a b] returns [d2]
    unless it is aborted, and it is not aborted when [b] is a rotation;
    transforming [d1] by the inverse of [a] returns the direction started
    from unless it is aborted, and it is not when [a] is a rotation. *)
Theorem TransformDiagDir_combine (d a b d1 d2 : Z) :
  IsValidDiagDirection d = true ->
  IsValidDirTransform a = true -> IsValidDirTransform b = true ->
  TransformDiagDir_asserting d a = Some d1 ->
  TransformDiagDir_asserting d1 b = Some d2 ->
  (TransformDiagDir_asserting d (CombineDirTransform a b) = Some d2 \/
   TransformDiagDir_asserting d (CombineDirTransform a b) = None) /\
  (reflects b = false -> TransformDiagDir_asserting d (CombineDirTransform a b) = Some d2) /\
  (TransformDiagDir_asserting d1 (InvertDirTransform a) = Some d \/
   TransformDiagDir_asserting d1 (InvertDirTransform a) = None) /\
  (reflects a = false -> TransformDiagDir_asserting d1 (InvertDirTransform a) = Some d).
Proof.
  intros Hd Ha Hb E1 E2.
  enum_diagdir Hd; enum_transform Ha; returned E1; enum_transform Hb; returned E2;
    (split; [first [left; reflexivity | right; reflexivity] | ]);
    (split; [intros E; first [discriminate E | reflexivity] | ]);
    (split; [first [left; reflexivity | right; reflexivity] | ]);
    intros E; first [discriminate E | reflexivity].
Qed.

Lemma TransformDiagDir_combine_witness :
  TransformDiagDir_asserting DIAGDIR_SE DTR_ROTATE_90_R = Some DIAGDIR_SW /\
  TransformDiagDir_asserting DIAGDIR_SW DTR_ROTATE_180 = Some DIAGDIR_NE /\
  TransformDiagDir_asserting DIAGDIR_SE (CombineDirTransform DTR_ROTATE_90_R DTR_ROTATE_180)
    = Some DIAGDIR_NE /\
  TransformDiagDir_asserting DIAGDIR_SW (InvertDirTransform DTR_ROTATE_90_R) = Some DIAGDIR_SE.
Proof.
  destruct (TransformDiagDir_combine DIAGDIR_SE DTR_ROTATE_90_R DTR_ROTATE_180
              DIAGDIR_SW DIAGDIR_NE eq_refl eq_refl eq_refl eq_refl eq_refl)
    as (_ & Hcombined & _ & Hinverse).
  split; [reflexivity | ]. split; [reflexivity | ].
  split; [exact (Hcombined eq_refl) | exact (Hinverse eq_refl)].
Defined.

(** X5.  [CombineDirTransform] is associative on the eight transformations, has
    [DTR_IDENTITY] as unit on both sides and gives a valid transformation. *)
Theorem CombineDirTransform_associative (a b c : Z) :
  IsValidDirTransform a = true -> IsValidDirTransform b = true ->
  IsValidDirTransform c = true ->
  CombineDirTransform (CombineDirTransform a b) c
    = CombineDirTransform a (CombineDirTransform b c) /\
  CombineDirTransform a DTR_IDENTITY = a /\
  CombineDirTransform DTR_IDENTITY a = a /\
  IsValidDirTransform (CombineDirTransform a b) = true.
Proof.
  intros Ha Hb Hc. enum_transform Ha; enum_transform Hb; enum_transform Hc; vm_compute; auto.
Qed.

Lemma CombineDirTransform_associative_witness :
  CombineDirTransform (CombineDirTransform DTR_ROTATE_90_R DTR_REFLECT_W_E) DTR_ROTATE_90_L
    = CombineDirTransform DTR_ROTATE_90_R (CombineDirTransform DTR_REFLECT_W_E DTR_ROTATE_90_L) /\
  CombineDirTransform DTR_ROTATE_90_R DTR_IDENTITY = DTR_ROTATE_90_R /\
  CombineDirTransform DTR_IDENTITY DTR_ROTATE_90_R = DTR_ROTATE_90_R /\
  IsValidDirTransform (CombineDirTransform DTR_ROTATE_90_R DTR_REFLECT_W_E) = true.
Proof.
  apply (CombineDirTransform_associative DTR_ROTATE_90_R DTR_REFLECT_W_E DTR_ROTATE_90_L);
    reflexivity.
Defined.



(** The directions made from an axis lie on that axis: [XYNSToDiagDir] with
    the flag 1 is the southern direction [AxisToDiagDir] of the axis, with the
    flag 0 its reverse, and [AxisToDirection] is the 8-way form of
    [AxisToDiagDir]. *)
Lemma directions_of_axis (a : Z) :
  IsValidAxis a = true ->
  XYNSToDiagDir a 1 = AxisToDiagDir a /\
  XYNSToDiagDir a 0 = ReverseDiagDir (AxisToDiagDir a) /\
  DiagDirToAxis (AxisToDiagDir a) = a /\
  AxisToDirection a = DiagDirToDir (AxisToDiagDir a) /\
  OtherAxis (OtherAxis a) = a /\ OtherAxis a <> a.
Proof.
  intros Ha. enum_axis Ha; vm_compute; repeat split; discriminate.
Qed.

Lemma directions_of_axis_witness :
  XYNSToDiagDir AXIS_Y 1 = AxisToDiagDir AXIS_Y /\
  XYNSToDiagDir AXIS_Y 0 = ReverseDiagDir (AxisToDiagDir AXIS_Y) /\
  DiagDirToAxis (AxisToDiagDir AXIS_Y) = AXIS_Y /\
  AxisToDirection AXIS_Y = DiagDirToDir (AxisToDiagDir AXIS_Y) /\
  OtherAxis (OtherAxis AXIS_Y) = AXIS_Y /\ OtherAxis AXIS_Y <> AXIS_Y.
Proof. apply (directions_of_axis AXIS_Y); reflexivity. Defined.

End DirectionsFacts.

(** ** Road bits *)

Module RoadFacts.
Import Int IntFacts Direction DirectionFacts Directions DirectionsFacts Road.

Lemma valid_road_bits_cases r :
  IsValidRoadBits r = true -> In r all_road_bits.
Proof.
  unfold IsValidRoadBits. intros H.
  apply andb_true_iff in H. destruct H as [H0 H1].
  apply Z.leb_le in H0. apply Z.ltb_lt in H1.
  change ROAD_END with 16 in H1. unfold all_road_bits.
  assert (Hr : r = 0 \/ r = 1 \/ r = 2 \/ r = 3 \/ r = 4 \/ r = 5 \/ r = 6 \/ r = 7 \/
               r = 8 \/ r = 9 \/ r = 10 \/ r = 11 \/ r = 12 \/ r = 13 \/ r = 14 \/ r = 15)
    by lia.
  repeat (destruct Hr as [Hr | Hr]); subst; simpl; tauto.
Qed.

Ltac enum_road_bits H :=
  apply valid_road_bits_cases in H; unfold all_road_bits in H; simpl in H;
  repeat (destruct H as [H | H]); [subst .. | contradiction].

(** X7.  Where [TransformDiagDir] returns, the road piece towards the direction
    given, transformed, is the road piece towards the direction returned; it
    is one of the four road pieces. *)
Theorem TransformRoadBits_of_direction (d t v : Z) :
  IsValidDiagDirection d = true -> IsValidDirTransform t = true ->
  TransformDiagDir_asserting d t = Some v ->
  TransformRoadBits (DiagDirToRoadBits d) t = DiagDirToRoadBits v /\
  IsValidRoadBits (DiagDirToRoadBits d) = true /\
  IsValidDiagDirection v = true.
Proof.
  intros Hd Ht E.
  enum_diagdir Hd; enum_transform Ht; returned E; repeat split.
Qed.

Lemma TransformRoadBits_of_direction_witness :
  TransformRoadBits (DiagDirToRoadBits DIAGDIR_SE) DTR_ROTATE_90_L = DiagDirToRoadBits DIAGDIR_NE /\
  IsValidRoadBits (DiagDirToRoadBits DIAGDIR_SE) = true /\
  IsValidDiagDirection DIAGDIR_NE = true.
Proof.
  apply (TransformRoadBits_of_direction DIAGDIR_SE DTR_ROTATE_90_L DIAGDIR_NE); reflexivity.
Defined.

(** X8.  Transforming road bits by [a] and then by [b] is transforming them by
    [CombineDirTransform a b]; the result is a valid set of road bits, and
    transforming by the inverse gives the road bits back. *)
Theorem TransformRoadBits_combine (r a b : Z) :
  IsValidRoadBits r = true ->
  IsValidDirTransform a = true -> IsValidDirTransform b = true ->
  TransformRoadBits (TransformRoadBits r a) b = TransformRoadBits r (CombineDirTransform a b) /\
  IsValidRoadBits (TransformRoadBits r a) = true /\
  TransformRoadBits (TransformRoadBits r a) (InvertDirTransform a) = r.
Proof.
  intros Hr Ha Hb.
  enum_road_bits Hr; enum_transform Ha; enum_transform Hb; vm_compute; auto.
Qed.

Lemma TransformRoadBits_combine_witness :
  TransformRoadBits (TransformRoadBits 3 DTR_ROTATE_90_R) DTR_REFLECT_W_E
    = TransformRoadBits 3 (CombineDirTransform DTR_ROTATE_90_R DTR_REFLECT_W_E) /\
  IsValidRoadBits (TransformRoadBits 3 DTR_ROTATE_90_R) = true /\
  TransformRoadBits (TransformRoadBits 3 DTR_ROTATE_90_R) (InvertDirTransform DTR_ROTATE_90_R) = 3.
Proof.
  apply (TransformRoadBits_combine 3 DTR_ROTATE_90_R DTR_REFLECT_W_E); reflexivity.
Defined.

(** A transformation keeps the shape of the road: the complement of the
    transformed bits is the transformed complement, a straight road stays
    straight, lying on the transformed axis, and mirroring is the half turn. *)
Lemma TransformRoadBits_keeps_shape (r t : Z) :
  IsValidRoadBits r = true -> IsValidDirTransform t = true ->
  ComplementRoadBits (TransformRoadBits r t) = TransformRoadBits (ComplementRoadBits r) t /\
  IsStraightRoad (TransformRoadBits r t) = IsStraightRoad r /\
  TransformRoadBits (AxisToRoadBits AXIS_X) t = AxisToRoadBits (TransformAxis AXIS_X t) /\
  TransformRoadBits (AxisToRoadBits AXIS_Y) t = AxisToRoadBits (TransformAxis AXIS_Y t) /\
  MirrorRoadBits r = TransformRoadBits r DTR_ROTATE_180.
Proof.
  intros Hr Ht. enum_road_bits Hr; enum_transform Ht; vm_compute; auto.
Qed.

Lemma TransformRoadBits_keeps_shape_witness :
  ComplementRoadBits (TransformRoadBits ROAD_X DTR_ROTATE_90_L)
    = TransformRoadBits (ComplementRoadBits ROAD_X) DTR_ROTATE_90_L /\
  IsStraightRoad (TransformRoadBits ROAD_X DTR_ROTATE_90_L) = IsStraightRoad ROAD_X /\
  TransformRoadBits (AxisToRoadBits AXIS_X) DTR_ROTATE_90_L
    = AxisToRoadBits (TransformAxis AXIS_X DTR_ROTATE_90_L) /\
  TransformRoadBits (AxisToRoadBits AXIS_Y) DTR_ROTATE_90_L
    = AxisToRoadBits (TransformAxis AXIS_Y DTR_ROTATE_90_L) /\
  MirrorRoadBits ROAD_X = TransformRoadBits ROAD_X DTR_ROTATE_180.
Proof. apply (TransformRoadBits_keeps_shape ROAD_X DTR_ROTATE_90_L); reflexivity. Defined.

End RoadFacts.

(** ** Moving between tiles *)

Module MapTilesFacts.
Import Int IntFacts Direction Directions TileMap TileMapProps TileMapFacts MapTiles.

Lemma on_main_on_map main tile :
  0 <= tile < MapSize (Some main) -> on_map main (on_main main tile).
Proof.
  intros H. unfold on_map, on_main, IsValidTileIndex. cbn [MapOf IndexOf].
  split; [reflexivity | ]. split; [lia | ]. apply Z.ltb_lt. lia.
Qed.

(** X9.  A tile index is made from its coordinates and gives them back:
    [TileX] and [TileY] of [TileXY(x, y, map)] are [x] and [y] for
    coordinates of the map, the tile made exists, and a tile of the map is
    the tile made from its own coordinates. *)
Theorem TileXY_round_trip (m : Map) (x y : Z) (t : GenericTileIndex) :
  map_ok m -> 0 <= x < map_size_x m -> 0 <= y < map_size_y m -> on_map m t ->
  IsValidTileIndex (TileXY x y (Some m)) = true /\
  TileX (TileXY x y (Some m)) = x /\
  TileY (TileXY x y (Some m)) = y /\
  TileXY (TileX t) (TileY t) (MapOf t) = t.
Proof.
  intros Hok Hx Hy Ht.
  split; [apply (TileXY_on_map m x y Hok Hx Hy) | ].
  split; [apply (TileX_TileXY m x y Hok Hx Hy) | ].
  split; [apply (TileY_TileXY m x y Hok Hx Hy) | ].
  destruct Ht as (Hm & Ht). rewrite Hm.
  apply (TileXY_coordinates m t Hok). exact (conj Hm Ht).
Qed.

Lemma TileXY_round_trip_witness :
  IsValidTileIndex (TileXY 5 3 (Some (mkMap 8 8))) = true /\
  TileX (TileXY 5 3 (Some (mkMap 8 8))) = 5 /\
  TileY (TileXY 5 3 (Some (mkMap 8 8))) = 3 /\
  TileXY (TileX (mkTile 29 (Some (mkMap 8 8)))) (TileY (mkTile 29 (Some (mkMap 8 8))))
         (MapOf (mkTile 29 (Some (mkMap 8 8)))) = mkTile 29 (Some (mkMap 8 8)).
Proof.
  apply (TileXY_round_trip (mkMap 8 8) 5 3 (mkTile 29 (Some (mkMap 8 8)))).
  - unfold map_ok. simpl. lia.
  - simpl. lia.
  - simpl. lia.
  - unfold on_map. simpl. split; [reflexivity | ]. split; [lia | reflexivity].
Defined.

Lemma TILE_ADDXY_moves (m : Map) (t : GenericTileIndex) (dx dy : Z) :
  map_ok m -> on_map m t ->
  0 <= TileX t + dx < map_size_x m -> 0 <= TileY t + dy < map_size_y m ->
  TILE_ADDXY t dx dy = TileXY (TileX t + dx) (TileY t + dy) (Some m) /\
  IsValidTileIndex (TILE_ADDXY t dx dy) = true /\
  TileX (TILE_ADDXY t dx dy) = TileX t + dx /\
  TileY (TILE_ADDXY t dx dy) = TileY t + dy.
Proof.
  intros Hok Ht Hx Hy.
  pose proof (on_map_X m t Hok Ht) as HX. pose proof (on_map_Y m t Hok Ht) as HY.
  pose proof (index_of_coordinates m t Hok Ht) as Hi.
  destruct (TileXY_index m _ _ Hok Hx Hy) as [Hi' Hr].
  assert (E : TILE_ADDXY t dx dy = TileXY (TileX t + dx) (TileY t + dy) (Some m)).
  { destruct Hok as [[Hsx Hsx'] [Hsy Hsy']].
    destruct Ht as (Hm & H0 & Hv).
    unfold TILE_ADDXY, SetIndexOf, TileXY, TileDiffXY. rewrite Hm. cbn [MapSizeX].
    f_equal. unfold int32, signed, uint32.
    set (d := dy * map_size_x m + dx).
    rewrite (Z.mod_mod d) by lia.
    transitivity ((IndexOf t + d) mod 2 ^ 32).
    - destruct (d mod 2 ^ 32 <? 2 ^ (32 - 1)).
      + rewrite Zplus_mod_idemp_r. reflexivity.
      + replace (IndexOf t + (d mod 2 ^ 32 - 2 ^ 32))
          with (IndexOf t + d mod 2 ^ 32 + (-1) * 2 ^ 32) by lia.
        rewrite Z.mod_add by lia. rewrite Zplus_mod_idemp_r. reflexivity.
    - f_equal. unfold d. lia. }
  rewrite E.
  split; [reflexivity | ].
  split; [apply (TileXY_on_map m _ _ Hok Hx Hy) | ].
  split; [apply (TileX_TileXY m _ _ Hok Hx Hy) | apply (TileY_TileXY m _ _ Hok Hx Hy)].
Qed.

(** X10.  [TILE_ADDXY] moves by [(dx, dy)] as long as the target is on the map: the
    result is then the tile at the coordinates of [tile] plus the offset. *)
Theorem TILE_ADDXY_coordinates (m : Map) (t : GenericTileIndex) (dx dy : Z) :
  map_ok m -> on_map m t ->
  0 <= TileX t + dx < map_size_x m -> 0 <= TileY t + dy < map_size_y m ->
  TILE_ADDXY t dx dy = TileXY (TileX t + dx) (TileY t + dy) (Some m) /\
  IsValidTileIndex (TILE_ADDXY t dx dy) = true /\
  TileX (TILE_ADDXY t dx dy) = TileX t + dx /\
  TileY (TILE_ADDXY t dx dy) = TileY t + dy.
Proof. exact (TILE_ADDXY_moves m t dx dy). Qed.

Lemma TILE_ADDXY_coordinates_witness :
  let t := mkTile 29 (Some (mkMap 8 8)) in
  TILE_ADDXY t (-2) 1 = TileXY (TileX t + -2) (TileY t + 1) (Some (mkMap 8 8)) /\
  IsValidTileIndex (TILE_ADDXY t (-2) 1) = true /\
  TileX (TILE_ADDXY t (-2) 1) = TileX t + -2 /\
  TileY (TILE_ADDXY t (-2) 1) = TileY t + 1.
Proof.
  apply (TILE_ADDXY_coordinates (mkMap 8 8) (mkTile 29 (Some (mkMap 8 8))) (-2) 1).
  - unfold map_ok. simpl. lia.
  - unfold on_map. simpl. split; [reflexivity | ]. split; [lia | reflexivity].
  - vm_compute. split; [discriminate | reflexivity].
  - vm_compute. split; [discriminate | reflexivity].
Defined.

Section MainMap.

Variable main : Map.
Hypothesis Hok : map_ok main.

Lemma main_coordinates tile :
  0 <= tile < MapSize (Some main) ->
  0 <= TileX (on_main main tile) < map_size_x main /\
  0 <= TileY (on_main main tile) < map_size_y main /\
  tile = TileY (on_main main tile) * map_size_x main + TileX (on_main main tile).
Proof.
  intros H. pose proof (on_main_on_map main tile H) as Ht.
  split; [apply (on_map_X main _ Hok Ht) | ].
  split; [apply (on_map_Y main _ Hok Ht) | ].
  apply (index_of_coordinates main _ Hok Ht).
Qed.

Lemma wrapped_coordinate z s :
  - 2 ^ 31 <= z < 2 ^ 31 -> 0 < s <= 2 ^ 14 ->
  (uint32 (int32 (uint32 z)) >=? s) = negb ((0 <=? z) && (z <? s)) /\
  (0 <= z < s -> uint32 (int32 (uint32 z)) = z).
Proof.
  intros Hz Hs. rewrite (int32_uint32 z Hz).
  destruct (Z_lt_le_dec z 0) as [Hn | Hp].
  - assert (E : uint32 z = z + 2 ^ 32).
    { unfold uint32. symmetry. apply Z.mod_unique with (q := -1); lia. }
    rewrite E. split; [ | lia].
    destruct (Z.leb_spec 0 z); [lia | ]. cbn [andb negb].
    apply Z.geb_le. lia.
  - rewrite (uint32_small z) by lia. split; [ | reflexivity].
    destruct (Z.leb_spec 0 z); [ | lia]. cbn [andb].
    rewrite Z.geb_leb. destruct (Z.ltb_spec z s), (Z.leb_spec s z); try reflexivity; lia.
Qed.

Lemma AddTileIndexDiffCWrap_cases (tile : Z) (diff : TileIndexDiffC) :
  0 <= tile < MapSize (Some main) ->
  - 2 ^ 15 <= diff_x diff < 2 ^ 15 -> - 2 ^ 15 <= diff_y diff < 2 ^ 15 ->
  let x := TileX (on_main main tile) + diff_x diff in
  let y := TileY (on_main main tile) + diff_y diff in
  (0 <= x < map_size_x main /\ 0 <= y < map_size_y main ->
   AddTileIndexDiffCWrap main tile diff = y * map_size_x main + x /\
   AddTileIndexDiffCWrap main tile diff < MapSize (Some main) /\
   AddTileIndexDiffCWrap main tile diff <> INVALID_TILE) /\
  (~ (0 <= x < map_size_x main /\ 0 <= y < map_size_y main) ->
   AddTileIndexDiffCWrap main tile diff = INVALID_TILE).
Proof.
  intros Htile Hdx Hdy x y.
  destruct (main_coordinates tile Htile) as (HX & HY & _).
  pose proof Hok as [[Hsx Hsx'] [Hsy Hsy']].
  assert (Hx : - 2 ^ 31 <= x < 2 ^ 31) by (unfold x; lia).
  assert (Hy : - 2 ^ 31 <= y < 2 ^ 31) by (unfold y; lia).
  destruct (wrapped_coordinate x (map_size_x main) Hx (conj Hsx Hsx')) as [Ex Ex'].
  destruct (wrapped_coordinate y (map_size_y main) Hy (conj Hsy Hsy')) as [Ey Ey'].
  unfold AddTileIndexDiffCWrap. fold x. fold y. cbn [MapSizeX MapSizeY].
  rewrite Ex, Ey. split.
  - intros [Hxin Hyin].
    destruct (Z.leb_spec 0 x), (Z.ltb_spec x (map_size_x main)); try lia.
    destruct (Z.leb_spec 0 y), (Z.ltb_spec y (map_size_y main)); try lia.
    cbn [andb negb orb]. rewrite (Ex' Hxin), (Ey' Hyin).
    destruct (TileXY_index main x y Hok Hxin Hyin) as [Hi Hr].
    rewrite Hi. pose proof (map_ok_size main Hok) as Hsize.
    unfold MapSize in *. cbn [MapSizeX MapSizeY] in *. unfold INVALID_TILE.
    split; [reflexivity | ]. split; lia.
  - intros Hout.
    destruct (Z.leb_spec 0 x), (Z.ltb_spec x (map_size_x main));
      destruct (Z.leb_spec 0 y), (Z.ltb_spec y (map_size_y main));
      cbn [andb negb orb]; try reflexivity; lia.
Qed.

(** X11.  [AddTileIndexDiffCWrap] gives the tile at the coordinates of [tile] plus
    the offset when these are coordinates of the map, and [INVALID_TILE] in
    every other case, so that it never wraps around an edge of the map; the
    tile it gives is never mistaken for [INVALID_TILE]. *)
Theorem AddTileIndexDiffCWrap_never_wraps (tile : Z) (diff : TileIndexDiffC) :
  0 <= tile < MapSize (Some main) ->
  - 2 ^ 15 <= diff_x diff < 2 ^ 15 -> - 2 ^ 15 <= diff_y diff < 2 ^ 15 ->
  let x := TileX (on_main main tile) + diff_x diff in
  let y := TileY (on_main main tile) + diff_y diff in
  (0 <= x < map_size_x main /\ 0 <= y < map_size_y main ->
   AddTileIndexDiffCWrap main tile diff = y * map_size_x main + x /\
   AddTileIndexDiffCWrap main tile diff < MapSize (Some main) /\
   AddTileIndexDiffCWrap main tile diff <> INVALID_TILE) /\
  (~ (0 <= x < map_size_x main /\ 0 <= y < map_size_y main) ->
   AddTileIndexDiffCWrap main tile diff = INVALID_TILE).
Proof. exact (AddTileIndexDiffCWrap_cases tile diff). Qed.

(** X12.  The offset between two tiles of the map, added to the second, leads back
    to the first. *)
Theorem AddTileIndexDiffCWrap_of_difference (tile_a tile_b : Z) :
  0 <= tile_a < MapSize (Some main) -> 0 <= tile_b < MapSize (Some main) ->
  AddTileIndexDiffCWrap main tile_b (TileIndexToTileIndexDiffC main tile_a tile_b) = tile_a.
Proof.
  intros Ha Hb.
  destruct (main_coordinates tile_a Ha) as (HXa & HYa & Ea).
  destruct (main_coordinates tile_b Hb) as (HXb & HYb & Eb).
  pose proof Hok as [[Hsx Hsx'] [Hsy Hsy']].
  set (diff := TileIndexToTileIndexDiffC main tile_a tile_b).
  assert (Edx : diff_x diff = TileX (on_main main tile_a) - TileX (on_main main tile_b)).
  { unfold diff, TileIndexToTileIndexDiffC. cbn [diff_x].
    apply DiagonalFacts.int16_uint32. lia. }
  assert (Edy : diff_y diff = TileY (on_main main tile_a) - TileY (on_main main tile_b)).
  { unfold diff, TileIndexToTileIndexDiffC. cbn [diff_y].
    apply DiagonalFacts.int16_uint32. lia. }
  assert (Hdx : - 2 ^ 15 <= diff_x diff < 2 ^ 15) by lia.
  assert (Hdy : - 2 ^ 15 <= diff_y diff < 2 ^ 15) by lia.
  destruct (AddTileIndexDiffCWrap_cases tile_b diff Hb Hdx Hdy) as [Hin _].
  destruct Hin as [E _]; [lia | ].
  rewrite E, Edx, Edy.
  replace (TileX (on_main main tile_b) + (TileX (on_main main tile_a) - TileX (on_main main tile_b)))
    with (TileX (on_main main tile_a)) by lia.
  replace (TileY (on_main main tile_b) + (TileY (on_main main tile_a) - TileY (on_main main tile_b)))
    with (TileY (on_main main tile_a)) by lia.
  symmetry. exact Ea.
Qed.

(** X13.  [DiagdirBetweenTiles] gives no direction exactly for a tile and itself
    and for two tiles that share neither coordinate; when it gives one, it is
    a valid 4-way direction, and the direction back is its reverse. *)
Theorem DiagdirBetweenTiles_reverse (tile_from tile_to : Z) :
  0 <= tile_from < MapSize (Some main) -> 0 <= tile_to < MapSize (Some main) ->
  (DiagdirBetweenTiles main tile_from tile_to = INVALID_DIAGDIR <->
   tile_from = tile_to \/
   (TileX (on_main main tile_from) <> TileX (on_main main tile_to) /\
    TileY (on_main main tile_from) <> TileY (on_main main tile_to))) /\
  (DiagdirBetweenTiles main tile_from tile_to <> INVALID_DIAGDIR ->
   IsValidDiagDirection (DiagdirBetweenTiles main tile_from tile_to) = true /\
   DiagdirBetweenTiles main tile_to tile_from
     = ReverseDiagDir (DiagdirBetweenTiles main tile_from tile_to)).
Proof.
  intros Ha Hb.
  destruct (main_coordinates tile_from Ha) as (HXa & HYa & Ea).
  destruct (main_coordinates tile_to Hb) as (HXb & HYb & Eb).
  pose proof Hok as [[Hsx Hsx'] [Hsy Hsy']].
  unfold DiagdirBetweenTiles.
  set (xa := TileX (on_main main tile_from)) in *.
  set (ya := TileY (on_main main tile_from)) in *.
  set (xb := TileX (on_main main tile_to)) in *.
  set (yb := TileY (on_main main tile_to)) in *.
  rewrite (int32_small xa), (int32_small xb), (int32_small ya), (int32_small yb) by lia.
  rewrite (int32_small (xb - xa)), (int32_small (yb - ya)) by lia.
  rewrite (int32_small (xa - xb)), (int32_small (ya - yb)) by lia.
  assert (Hsame : tile_from = tile_to <-> xa = xb /\ ya = yb).
  { split; [intros E; unfold xa, xb, ya, yb; rewrite E; auto
           | intros [Ex Ey]; rewrite Ea, Eb, Ex, Ey; reflexivity]. }
  unfold INVALID_DIAGDIR, DIAGDIR_NW, DIAGDIR_SE, DIAGDIR_NE, DIAGDIR_SW.
  destruct (Z.eqb_spec (xb - xa) 0) as [Ex | Ex], (Z.eqb_spec (yb - ya) 0) as [Ey | Ey];
    destruct (Z.eqb_spec (xa - xb) 0), (Z.eqb_spec (ya - yb) 0); try lia; cbn [negb].
  - destruct (Z.ltb_spec (yb - ya) 0), (Z.ltb_spec (ya - yb) 0); try lia;
      (split; [split; [discriminate | intros [E | [E _]]; [apply Hsame in E | ]; lia]
              | intros _; split; reflexivity]).
  - destruct (Z.ltb_spec (xb - xa) 0), (Z.ltb_spec (xa - xb) 0); try lia;
      (split; [split; [discriminate | intros [E | [_ E]]; [apply Hsame in E | ]; lia]
              | intros _; split; reflexivity]).
  - split; [split; [intros _; right; lia | reflexivity] | intros H; contradiction].
Qed.

End MainMap.

Lemma AddTileIndexDiffCWrap_never_wraps_witness :
  let main := mkMap 8 8 in
  let x := TileX (on_main main 31) + diff_x (mkDiffC 1 0) in
  let y := TileY (on_main main 31) + diff_y (mkDiffC 1 0) in
  (0 <= x < map_size_x main /\ 0 <= y < map_size_y main ->
   AddTileIndexDiffCWrap main 31 (mkDiffC 1 0) = y * map_size_x main + x /\
   AddTileIndexDiffCWrap main 31 (mkDiffC 1 0) < MapSize (Some main) /\
   AddTileIndexDiffCWrap main 31 (mkDiffC 1 0) <> INVALID_TILE) /\
  (~ (0 <= x < map_size_x main /\ 0 <= y < map_size_y main) ->
   AddTileIndexDiffCWrap main 31 (mkDiffC 1 0) = INVALID_TILE).
Proof.
  apply (AddTileIndexDiffCWrap_never_wraps (mkMap 8 8)).
  - unfold map_ok. simpl. lia.
  - vm_compute. split; [discriminate | reflexivity].
  - simpl. lia.
  - simpl. lia.
Defined.

Lemma AddTileIndexDiffCWrap_of_difference_witness :
  AddTileIndexDiffCWrap (mkMap 8 8) 31
    (TileIndexToTileIndexDiffC (mkMap 8 8) 2 31) = 2.
Proof.
  apply (AddTileIndexDiffCWrap_of_difference (mkMap 8 8)).
  - unfold map_ok. simpl. lia.
  - vm_compute. split; [discriminate | reflexivity].
  - vm_compute. split; [discriminate | reflexivity].
Defined.

Lemma DiagdirBetweenTiles_reverse_witness :
  let main := mkMap 8 8 in
  (DiagdirBetweenTiles main 26 30 = INVALID_DIAGDIR <->
   26 = 30 \/
   (TileX (on_main main 26) <> TileX (on_main main 30) /\
    TileY (on_main main 26) <> TileY (on_main main 30))) /\
  (DiagdirBetweenTiles main 26 30 <> INVALID_DIAGDIR ->
   IsValidDiagDirection (DiagdirBetweenTiles main 26 30) = true /\
   DiagdirBetweenTiles main 30 26 = ReverseDiagDir (DiagdirBetweenTiles main 26 30)).
Proof.
  apply (DiagdirBetweenTiles_reverse (mkMap 8 8)).
  - unfold map_ok. simpl. lia.
  - vm_compute. split; [discriminate | reflexivity].
  - vm_compute. split; [discriminate | reflexivity].
Defined.

End MapTilesFacts.

(** ** More of the orthogonal tile area *)

Module TileAreasFacts.
Import Int IntFacts Direction TileMap TileMapProps TileMapFacts TileArea TileAreaProps.
Import TileAreaFacts MapTiles MapTilesFacts TileAreas.

(** The tile at given coordinates inside an area. *)
Lemma tile_inside m ta x y :
  map_ok m -> area_ok m ta ->
  TileX (tile ta) <= x < TileX (tile ta) + w ta ->
  TileY (tile ta) <= y < TileY (tile ta) + h ta ->
  on_map m (TileXY x y (Some m)) /\ Contains ta (TileXY x y (Some m)) = true.
Proof.
  intros Hok Ha Hx Hy. pose proof Ha as (Hb & Hw & Hh & Hbx & Hby).
  pose proof (on_map_X m _ Hok Hb) as HbX. pose proof (on_map_Y m _ Hok Hb) as HbY.
  assert (Hx' : 0 <= x < map_size_x m) by lia.
  assert (Hy' : 0 <= y < map_size_y m) by lia.
  split; [apply (TileXY_on_map m x y Hok Hx' Hy') | ].
  apply (Contains_coordinates m ta _ Hok Ha).
  rewrite (TileX_TileXY m x y Hok Hx' Hy'), (TileY_TileXY m x y Hok Hx' Hy'). lia.
Qed.

Lemma Intersects_coordinates m a b :
  map_ok m -> area_ok m a -> area_ok m b ->
  Intersects a b = true <->
  (TileX (tile b) < TileX (tile a) + w a /\ TileX (tile a) < TileX (tile b) + w b /\
   TileY (tile b) < TileY (tile a) + h a /\ TileY (tile a) < TileY (tile b) + h b).
Proof.
  intros Hok (Ha & Haw & Hah & Hax & Hay) (Hb & Hbw & Hbh & Hbx & Hby).
  pose proof (on_map_X m _ Hok Ha). pose proof (on_map_Y m _ Hok Ha).
  pose proof (on_map_X m _ Hok Hb). pose proof (on_map_Y m _ Hok Hb).
  destruct Hok as [[? ?] [? ?]].
  unfold Intersects.
  destruct (Z.eqb_spec (w b) 0) as [E | _]; [lia | ].
  destruct (Z.eqb_spec (w a) 0) as [E | _]; [lia | ].
  cbn [orb]. rewrite !uint32_small by lia.
  rewrite negb_true_iff, !orb_false_iff, !Z.gtb_ltb, !Z.ltb_ge. lia.
Qed.

(** X14.  Two areas of a map intersect exactly when some tile of the map lies in
    both, whichever of the two is asked; an area without tiles intersects
    nothing. *)
Theorem Intersects_common_tile (m : Map) (a b : OrthogonalTileArea) :
  map_ok m -> area_ok m a -> area_ok m b ->
  (Intersects a b = true <->
   exists t, on_map m t /\ Contains a t = true /\ Contains b t = true) /\
  Intersects a b = Intersects b a /\
  Intersects a (empty_area (Some m)) = false /\
  Intersects (empty_area (Some m)) a = false.
Proof.
  intros Hok Ha Hb.
  pose proof (Intersects_coordinates m a b Hok Ha Hb) as Hab.
  pose proof (Intersects_coordinates m b a Hok Hb Ha) as Hba.
  split; [ | split; [ | split]].
  - rewrite Hab. split.
    + intros (H1 & H2 & H3 & H4).
      pose proof Ha as (_ & Haw & Hah & _ & _). pose proof Hb as (_ & Hbw & Hbh & _ & _).
      set (x := Z.max (TileX (tile a)) (TileX (tile b))).
      set (y := Z.max (TileY (tile a)) (TileY (tile b))).
      destruct (tile_inside m a x y Hok Ha) as [Ht Hina]; [unfold x; lia | unfold y; lia | ].
      destruct (tile_inside m b x y Hok Hb) as [_ Hinb]; [unfold x; lia | unfold y; lia | ].
      exists (TileXY x y (Some m)). auto.
    + intros (t & Ht & Hina & Hinb).
      apply (Contains_coordinates m a t Hok Ha) in Hina.
      apply (Contains_coordinates m b t Hok Hb) in Hinb. lia.
  - apply Bool.eq_true_iff_eq. rewrite Hab, Hba. lia.
  - reflexivity.
  - unfold Intersects, empty_area. cbn [w]. rewrite orb_true_r. reflexivity.
Qed.

(** X15.  One area contains another exactly when it contains every tile of it. *)
Theorem ContainsArea_every_tile (m : Map) (box ta : OrthogonalTileArea) :
  map_ok m -> area_ok m box -> area_ok m ta ->
  ContainsArea box ta = true <->
  (forall t, on_map m t -> Contains ta t = true -> Contains box t = true).
Proof.
  intros Hok Hbox Hta.
  rewrite (ContainsArea_coordinates m box ta Hok Hbox Hta). split.
  - intros H t Ht Hin.
    apply (Contains_coordinates m ta t Hok Hta) in Hin.
    apply (Contains_coordinates m box t Hok Hbox). lia.
  - intros H.
    destruct (area_corners m ta Hok Hta) as (lo & hi & Hlo & Hhi & Clo & Chi & Xlo & Ylo & Xhi & Yhi).
    pose proof (H lo Hlo Clo) as Blo. pose proof (H hi Hhi Chi) as Bhi.
    apply (Contains_coordinates m box lo Hok Hbox) in Blo.
    apply (Contains_coordinates m box hi Hok Hbox) in Bhi. lia.
Qed.

(** X16.  The area between two corners is the area got by adding both corners to
    an empty area; it lies on the map, contains both corners, and does not
    depend on the order of the corners. *)
Theorem OrthogonalTileArea_of_corners_adds_both (m : Map) (start end_ : GenericTileIndex) :
  map_ok m -> on_map m start -> on_map m end_ ->
  OrthogonalTileArea_of_corners start end_
    = Add (Add (empty_area (Some m)) start) end_ /\
  OrthogonalTileArea_of_corners start end_ = OrthogonalTileArea_of_corners end_ start /\
  area_ok m (OrthogonalTileArea_of_corners start end_) /\
  Contains (OrthogonalTileArea_of_corners start end_) start = true /\
  Contains (OrthogonalTileArea_of_corners start end_) end_ = true.
Proof.
  intros Hok Hs He.
  pose proof (on_map_X m _ Hok Hs) as HsX. pose proof (on_map_Y m _ Hok Hs) as HsY.
  pose proof (on_map_X m _ Hok He) as HeX. pose proof (on_map_Y m _ Hok He) as HeY.
  pose proof Hok as [[Hsx Hsx'] [Hsy Hsy']].
  assert (Ms : MapOf start = Some m) by apply Hs.
  assert (Me : MapOf end_ = Some m) by apply He.
  assert (Ecorners : forall a b, MapOf a = Some m -> MapOf b = Some m ->
            0 <= TileX a < map_size_x m -> 0 <= TileX b < map_size_x m ->
            0 <= TileY a < map_size_y m -> 0 <= TileY b < map_size_y m ->
            OrthogonalTileArea_of_corners a b
            = mkArea (TileXY (Z.min (TileX a) (TileX b)) (Z.min (TileY a) (TileY b)) (Some m))
                     (Z.max (TileX a) (TileX b) - Z.min (TileX a) (TileX b) + 1)
                     (Z.max (TileY a) (TileY b) - Z.min (TileY a) (TileY b) + 1)).
  { intros a b Ma Mb HaX HbX HaY HbY. unfold OrthogonalTileArea_of_corners. rewrite Ma.
    destruct (Z.gtb_spec (TileX a) (TileX b)), (Z.gtb_spec (TileY a) (TileY b));
      cbv beta iota zeta;
      (f_equal;
       [ f_equal; lia
       | rewrite uint32_small by lia; rewrite uint16_small by lia; lia .. ]). }
  assert (Eadd : Add (Add (empty_area (Some m)) start) end_
            = mkArea (TileXY (Z.min (TileX start) (TileX end_))
                             (Z.min (TileY start) (TileY end_)) (Some m))
                     (Z.max (TileX start) (TileX end_) - Z.min (TileX start) (TileX end_) + 1)
                     (Z.max (TileY start) (TileY end_) - Z.min (TileY start) (TileY end_) + 1)).
  { assert (E0 : Add (empty_area (Some m)) start = mkArea start 1 1).
    { apply Add_empty. unfold empty_area, IsValidTileIndex. cbn [tile MapOf IndexOf].
      apply Z.ltb_ge. pose proof (map_ok_size m Hok). unfold INVALID_TILE_INDEX. lia. }
    rewrite E0. unfold Add. cbn [tile w h].
    assert (Hv : IsValidTileIndex start = true) by apply Hs.
    rewrite Hv, Me. cbn [negb].
    rewrite (uint32_small (TileX start + 1 - 1)), (uint32_small (TileY start + 1 - 1)) by lia.
    replace (TileX start + 1 - 1) with (TileX start) by lia.
    replace (TileY start + 1 - 1) with (TileY start) by lia.
    rewrite (Z.min_comm (TileX end_)), (Z.min_comm (TileY end_)).
    rewrite (Z.max_comm (TileX end_)), (Z.max_comm (TileY end_)).
    rewrite !uint32_small by lia. rewrite !uint16_small by lia. reflexivity. }
  rewrite (Ecorners start end_ Ms Me HsX HeX HsY HeY).
  rewrite (Ecorners end_ start Me Ms HeX HsX HeY HsY).
  set (x0 := Z.min (TileX start) (TileX end_)). set (y0 := Z.min (TileY start) (TileY end_)).
  assert (Hx0 : 0 <= x0 < map_size_x m) by (unfold x0; lia).
  assert (Hy0 : 0 <= y0 < map_size_y m) by (unfold y0; lia).
  assert (Hbox : area_ok m (mkArea (TileXY x0 y0 (Some m))
                    (Z.max (TileX start) (TileX end_) - x0 + 1)
                    (Z.max (TileY start) (TileY end_) - y0 + 1))).
  { unfold area_ok. cbn [tile w h].
    rewrite (TileX_TileXY m x0 y0 Hok Hx0 Hy0), (TileY_TileXY m x0 y0 Hok Hx0 Hy0).
    split; [apply (TileXY_on_map m x0 y0 Hok Hx0 Hy0) | unfold x0, y0; lia]. }
  split; [symmetry; exact Eadd | ].
  split.
  { rewrite (Z.min_comm (TileX end_)), (Z.min_comm (TileY end_)).
    rewrite (Z.max_comm (TileX end_)), (Z.max_comm (TileY end_)). reflexivity. }
  split; [exact Hbox | ].
  split; apply (Contains_coordinates m _ _ Hok Hbox); cbn [tile w h];
    rewrite (TileX_TileXY m x0 y0 Hok Hx0 Hy0), (TileY_TileXY m x0 y0 Hok Hx0 Hy0);
    unfold x0, y0; lia.
Qed.

(** X17.  [ClampToMap] cuts the extents of an area with a valid base tile at the
    far edges of its own map and changes nothing else: the clamped area ends
    on the map, an area that already lies on the map stays as it is, and
    clamping twice is clamping once. *)
Theorem ClampToMap_fits (m : Map) (ta : OrthogonalTileArea) :
  map_ok m -> on_map m (tile ta) -> 0 <= w ta < 2 ^ 16 -> 0 <= h ta < 2 ^ 16 ->
  tile (ClampToMap ta) = tile ta /\
  w (ClampToMap ta) = Z.min (w ta) (map_size_x m - TileX (tile ta)) /\
  h (ClampToMap ta) = Z.min (h ta) (map_size_y m - TileY (tile ta)) /\
  TileX (tile ta) + w (ClampToMap ta) <= map_size_x m /\
  TileY (tile ta) + h (ClampToMap ta) <= map_size_y m /\
  (area_ok m ta -> ClampToMap ta = ta) /\
  ClampToMap (ClampToMap ta) = ClampToMap ta.
Proof.
  intros Hok Hb Hw Hh.
  pose proof (on_map_X m _ Hok Hb) as HbX. pose proof (on_map_Y m _ Hok Hb) as HbY.
  pose proof Hok as [[Hsx Hsx'] [Hsy Hsy']].
  assert (Mb : MapOf (tile ta) = Some m) by apply Hb.
  assert (E : forall a, tile a = tile ta -> 0 <= w a < 2 ^ 16 -> 0 <= h a < 2 ^ 16 ->
            ClampToMap a = mkArea (tile ta) (Z.min (w a) (map_size_x m - TileX (tile ta)))
                                  (Z.min (h a) (map_size_y m - TileY (tile ta)))).
  { intros a Ea Haw Hah. unfold ClampToMap. rewrite Ea, Mb. cbn [MapSizeX MapSizeY].
    rewrite !uint32_small by lia. rewrite !uint16_small by lia. reflexivity. }
  rewrite (E ta eq_refl Hw Hh). cbn [tile w h].
  split; [reflexivity | ]. split; [reflexivity | ]. split; [reflexivity | ].
  split; [lia | ]. split; [lia | ]. split.
  - intros (_ & _ & _ & Hx & Hy). destruct ta as [t w0 h0]. cbn [tile w h] in *.
    rewrite Z.min_l, Z.min_l by lia. reflexivity.
  - rewrite (E (mkArea (tile ta) (Z.min (w ta) (map_size_x m - TileX (tile ta)))
                               (Z.min (h ta) (map_size_y m - TileY (tile ta)))) eq_refl)
      by (cbn [w h]; lia).
    cbn [w h]. f_equal; lia.
Qed.

(** X18.  The centre tile of an area of the map is a tile of the area: the tile
    half the width and half the height (rounded down) from the base. *)
Theorem GetCenterTile_inside (m : Map) (ta : OrthogonalTileArea) :
  map_ok m -> area_ok m ta ->
  on_map m (GetCenterTile ta) /\
  Contains ta (GetCenterTile ta) = true /\
  TileX (GetCenterTile ta) = TileX (tile ta) + w ta / 2 /\
  TileY (GetCenterTile ta) = TileY (tile ta) + h ta / 2.
Proof.
  intros Hok Ha. pose proof Ha as (Hb & Hw & Hh & Hx & Hy).
  pose proof (on_map_X m _ Hok Hb) as HbX. pose proof (on_map_Y m _ Hok Hb) as HbY.
  assert (Hw2 : 0 <= w ta / 2 < w ta) by (split; [apply Z.div_pos | apply Z.div_lt]; lia).
  assert (Hh2 : 0 <= h ta / 2 < h ta) by (split; [apply Z.div_pos | apply Z.div_lt]; lia).
  unfold GetCenterTile.
  destruct (TILE_ADDXY_moves m (tile ta) (w ta / 2) (h ta / 2) Hok Hb) as (E & _ & EX & EY);
    [lia | lia | ].
  destruct (tile_inside m ta (TileX (tile ta) + w ta / 2) (TileY (tile ta) + h ta / 2) Hok Ha)
    as [Hon Hin]; [lia | lia | ].
  rewrite E at 1 2. auto.
Qed.

(** X19.  On the main map [Expand] by a radius that is not negative gives an area
    of the map that contains the area expanded, and whose tiles are the tiles
    of the map at most [rad] columns and rows away from the area. *)
Theorem Expand_grows_on_main_map (main : Map) (ta : OrthogonalTileArea) (rad : Z) :
  map_ok main -> area_ok main ta -> 0 <= rad <= 2 ^ 16 ->
  area_ok main (Expand main ta rad) /\
  ContainsArea (Expand main ta rad) ta = true /\
  (forall t, on_map main t ->
     Contains (Expand main ta rad) t = true <->
     (TileX (tile ta) - rad <= TileX t < TileX (tile ta) + w ta + rad /\
      TileY (tile ta) - rad <= TileY t < TileY (tile ta) + h ta + rad)).
Proof.
  intros Hok Ha Hrad. pose proof Ha as (Hb & Hw & Hh & Hx & Hy).
  pose proof (on_map_X main _ Hok Hb) as HbX. pose proof (on_map_Y main _ Hok Hb) as HbY.
  destruct (Expand_on_main_map main ta rad Hok Ha Hrad) as (E & EX & EY & EW & EH).
  assert (Hr : area_ok main (Expand main ta rad)).
  { unfold area_ok. split; [ | lia].
    rewrite E. unfold ExpandedOnOwnGrid. cbn [tile].
    assert (Mb : MapOf (tile ta) = Some main) by apply Hb. rewrite Mb.
    apply (TileXY_on_map main _ _ Hok); lia. }
  split; [exact Hr | ]. split.
  - apply (ContainsArea_coordinates main _ ta Hok Hr Ha). lia.
  - intros t Ht. rewrite (Contains_coordinates main _ t Hok Hr).
    pose proof (on_map_X main t Hok Ht). pose proof (on_map_Y main t Hok Ht). lia.
Qed.

Ltac by_evaluation :=
  vm_compute; repeat match goal with |- _ /\ _ => split end;
  first [reflexivity | discriminate].

Lemma Intersects_common_tile_witness :
  let m := mkMap 8 8 in
  let a := mkArea (TileXY 1 1 (Some m)) 3 3 in
  let b := mkArea (TileXY 3 2 (Some m)) 4 2 in
  (Intersects a b = true <->
   exists t, on_map m t /\ Contains a t = true /\ Contains b t = true) /\
  Intersects a b = Intersects b a /\
  Intersects a (empty_area (Some m)) = false /\
  Intersects (empty_area (Some m)) a = false.
Proof.
  intros m a b. apply (Intersects_common_tile m a b); by_evaluation.
Defined.

Lemma ContainsArea_every_tile_witness :
  let m := mkMap 8 8 in
  let box := mkArea (TileXY 1 1 (Some m)) 5 4 in
  let ta := mkArea (TileXY 3 2 (Some m)) 2 2 in
  ContainsArea box ta = true <->
  (forall t, on_map m t -> Contains ta t = true -> Contains box t = true).
Proof.
  intros m box ta. apply (ContainsArea_every_tile m box ta); by_evaluation.
Defined.

Lemma OrthogonalTileArea_of_corners_adds_both_witness :
  let m := mkMap 8 8 in
  let start := TileXY 5 2 (Some m) in
  let end_ := TileXY 3 6 (Some m) in
  OrthogonalTileArea_of_corners start end_
    = Add (Add (empty_area (Some m)) start) end_ /\
  OrthogonalTileArea_of_corners start end_ = OrthogonalTileArea_of_corners end_ start /\
  area_ok m (OrthogonalTileArea_of_corners start end_) /\
  Contains (OrthogonalTileArea_of_corners start end_) start = true /\
  Contains (OrthogonalTileArea_of_corners start end_) end_ = true.
Proof.
  intros m start end_.
  apply (OrthogonalTileArea_of_corners_adds_both m start end_); by_evaluation.
Defined.

Lemma ClampToMap_fits_witness :
  let m := mkMap 8 8 in
  let ta := mkArea (TileXY 6 5 (Some m)) 4 2 in
  tile (ClampToMap ta) = tile ta /\
  w (ClampToMap ta) = Z.min (w ta) (map_size_x m - TileX (tile ta)) /\
  h (ClampToMap ta) = Z.min (h ta) (map_size_y m - TileY (tile ta)) /\
  TileX (tile ta) + w (ClampToMap ta) <= map_size_x m /\
  TileY (tile ta) + h (ClampToMap ta) <= map_size_y m /\
  (area_ok m ta -> ClampToMap ta = ta) /\
  ClampToMap (ClampToMap ta) = ClampToMap ta.
Proof.
  intros m ta. apply (ClampToMap_fits m ta); by_evaluation.
Defined.

Lemma GetCenterTile_inside_witness :
  let m := mkMap 8 8 in
  let ta := mkArea (TileXY 1 2 (Some m)) 4 3 in
  on_map m (GetCenterTile ta) /\
  Contains ta (GetCenterTile ta) = true /\
  TileX (GetCenterTile ta) = TileX (tile ta) + w ta / 2 /\
  TileY (GetCenterTile ta) = TileY (tile ta) + h ta / 2.
Proof.
  intros m ta. apply (GetCenterTile_inside m ta); by_evaluation.
Defined.

Lemma Expand_grows_on_main_map_witness :
  let main := mkMap 8 8 in
  let ta := mkArea (TileXY 1 5 (Some main)) 2 2 in
  area_ok main (Expand main ta 2) /\
  ContainsArea (Expand main ta 2) ta = true /\
  (forall t, on_map main t ->
     Contains (Expand main ta 2) t = true <->
     (TileX (tile ta) - 2 <= TileX t < TileX (tile ta) + w ta + 2 /\
      TileY (tile ta) - 2 <= TileY t < TileY (tile ta) + h ta + 2)).
Proof.
  intros main ta. apply (Expand_grows_on_main_map main ta 2); by_evaluation.
Defined.

End TileAreasFacts.

(** ** The iterator over an orthogonal area *)

Module OrthogonalIteratorFacts.
Import Int IntFacts TileMap TileMapProps TileMapFacts TileArea TileAreaProps TileAreaFacts.
Import OrthogonalIterator OrthogonalIteratorProps.

Lemma quotient_and_rest b q r n :
  0 <= r < b -> n = b * q + r -> n / b = q /\ n mod b = r.
Proof.
  intros Hr Hn.
  pose proof (Z.mod_pos_bound n b ltac:(lia)) as Hm.
  pose proof (Z.div_mod n b ltac:(lia)) as Hd.
  apply (Z.div_mod_unique b (n / b) q (n mod b) r); [left; lia | left; lia | lia].
Qed.

Section Area.

Variable m : Map.
Hypothesis Hok : map_ok m.
Variable ta : OrthogonalTileArea.
Hypothesis Ha : area_ok m ta.

Local Abbreviation W := (TileArea.w ta).
Local Abbreviation H := (TileArea.h ta).
Local Abbreviation X0 := (TileX (TileArea.tile ta)).
Local Abbreviation Y0 := (TileY (TileArea.tile ta)).

Local Abbreviation standing_on := (OrthogonalIteratorProps.standing_on ta).

Lemma area_bounds :
  1 <= W /\ 1 <= H /\ 0 <= X0 /\ 0 <= Y0 /\
  X0 + W <= map_size_x m /\ Y0 + H <= map_size_y m /\
  map_size_x m <= 2 ^ 14 /\ map_size_y m <= 2 ^ 14 /\
  MapOf (TileArea.tile ta) = Some m.
Proof.
  pose proof Ha as (Hb & Hw & Hh & Hx & Hy).
  pose proof (on_map_X m _ Hok Hb). pose proof (on_map_Y m _ Hok Hb).
  destruct Hok as [[? ?] [? ?]]. destruct Hb as (Hm & _). repeat split; try lia. exact Hm.
Qed.

Lemma position n :
  0 <= n < W * H -> 0 <= n mod W < W /\ 0 <= n / W < H /\ n = W * (n / W) + n mod W.
Proof.
  intros Hn. destruct area_bounds as (Hw & Hh & _).
  pose proof (Z.mod_pos_bound n W ltac:(lia)). pose proof (Z.div_mod n W ltac:(lia)).
  split; [lia | ]. split; [ | lia]. split; [apply Z.div_pos; lia | ].
  apply Z.div_lt_upper_bound; lia.
Qed.

Lemma nth_tile_index n :
  0 <= n < W * H ->
  nth_tile ta n = mkTile ((Y0 + n / W) * map_size_x m + (X0 + n mod W)) (Some m) /\
  on_map m (nth_tile ta n) /\
  TileX (nth_tile ta n) = X0 + n mod W /\ TileY (nth_tile ta n) = Y0 + n / W.
Proof.
  intros Hn. destruct (position n Hn) as (Hi & Hj & _).
  destruct area_bounds as (Hw & Hh & Hx0 & Hy0 & Hx & Hy & _ & _ & Hm).
  unfold nth_tile. rewrite Hm.
  assert (Hx' : 0 <= X0 + n mod W < map_size_x m) by lia.
  assert (Hy' : 0 <= Y0 + n / W < map_size_y m) by lia.
  destruct (TileXY_index m _ _ Hok Hx' Hy') as [Hi' _].
  split.
  - unfold TileXY in *. cbn [IndexOf MapSizeX] in *. rewrite Hi'. reflexivity.
  - split; [apply (TileXY_on_map m _ _ Hok Hx' Hy') | ].
    split; [apply (TileX_TileXY m _ _ Hok Hx' Hy') | apply (TileY_TileXY m _ _ Hok Hx' Hy')].
Qed.

Lemma of_area_standing : of_area ta = standing_on 0.
Proof.
  destruct area_bounds as (Hw & Hh & _ & _ & _ & _ & _ & _ & Hm).
  unfold of_area, OrthogonalIteratorProps.standing_on.
  destruct (Z.eqb_spec W 0); [lia | ]. destruct (Z.eqb_spec H 0); [lia | ]. cbn [orb].
  rewrite Z.mod_0_l, Z.div_0_l by lia. rewrite !Z.sub_0_r.
  f_equal. unfold nth_tile. rewrite Z.mod_0_l, Z.div_0_l by lia. rewrite !Z.add_0_r.
  rewrite Hm. symmetry. apply (TileXY_coordinates m _ Hok). apply Ha.
Qed.

Lemma standing_valid n :
  0 <= n < W * H -> (IndexOf (tile (standing_on n)) =? INVALID_TILE_INDEX) = false.
Proof.
  intros Hn. destruct (nth_tile_index n Hn) as (_ & Hon & _).
  pose proof (on_map_index m _ Hon) as Hi. pose proof (map_ok_size m Hok) as Hs.
  unfold MapSize in Hs. cbn [MapSizeX MapSizeY] in Hs.
  unfold OrthogonalIteratorProps.standing_on. cbn [tile].
  apply Z.eqb_neq. unfold INVALID_TILE_INDEX. lia.
Qed.

Lemma next_standing n :
  0 <= n -> n + 1 < W * H -> next (standing_on n) = standing_on (n + 1).
Proof.
  intros Hn0 Hn.
  destruct (position n ltac:(lia)) as (Hi & Hj & En).
  destruct (position (n + 1) ltac:(lia)) as (Hi' & Hj' & En').
  destruct (nth_tile_index n ltac:(lia)) as (Et & _).
  destruct (nth_tile_index (n + 1) ltac:(lia)) as (Et' & _).
  destruct area_bounds as (Hw & Hh & Hx0 & Hy0 & Hx & Hy & Hsx & Hsy & Hm).
  unfold next, OrthogonalIteratorProps.standing_on. cbn [tile w x y]. rewrite Et, Et'.
  cbn [IndexOf MapOf SetIndexOf].
  rewrite (int32_small (W - n mod W - 1)) by lia.
  destruct (Z.gtb_spec (W - n mod W - 1) 0) as [Hrow | Hend].
  - destruct (quotient_and_rest W (n / W) (n mod W + 1) (n + 1)) as [E2 E1]; [lia | lia | ]. rewrite E1, E2. unfold SetIndexOf. cbn [MapOf].
    f_equal; [ | lia]. f_equal. rewrite uint32_small by nia. lia.
  - destruct (quotient_and_rest W (n / W + 1) 0 (n + 1)) as [E2 E1]; [lia | lia | ]. rewrite E1, E2.
    rewrite (int32_small (H - n / W - 1)) by lia.
    destruct (Z.gtb_spec (H - n / W - 1) 0) as [Hrows | Hlast]; [ | nia].
    unfold SetIndexOf, TileDiffXY. cbn [MapOf MapSizeX].
    rewrite (uint32_small (1 * map_size_x m + 1)) by lia.
    rewrite (int32_small (1 * map_size_x m + 1)) by lia.
    rewrite (int32_small (1 * map_size_x m + 1 - W)) by lia.
    f_equal; [ | lia | lia]. f_equal. rewrite uint32_small by nia. nia.
Qed.

Lemma next_after_last n :
  0 <= n -> n + 1 = W * H -> IndexOf (tile (next (standing_on n))) = INVALID_TILE_INDEX.
Proof.
  intros Hn0 Hn.
  destruct (position n ltac:(lia)) as (Hi & Hj & En).
  destruct area_bounds as (Hw & Hh & _).
  destruct (quotient_and_rest W (H - 1) (W - 1) n) as [E2 E1]; [lia | lia | ].
  unfold next, OrthogonalIteratorProps.standing_on. cbn [tile w x y]. rewrite E1, E2.
  rewrite (int32_small (W - (W - 1) - 1)), (int32_small (H - (H - 1) - 1)) by lia.
  replace (W - (W - 1) - 1) with 0 by lia. replace (H - (H - 1) - 1) with 0 by lia.
  reflexivity.
Qed.

Lemma visited_from (count : nat) : forall (from : nat) (fuel : nat),
  Z.of_nat from + Z.of_nat count = W * H -> (count < fuel)%nat ->
  (0 < count)%nat ->
  visited fuel (standing_on (Z.of_nat from)) = Some (tiles_from ta from count).
Proof.
  induction count as [ | count IH]; intros from fuel Hsum Hfuel Hpos; [lia | ].
  destruct fuel as [ | fuel]; [lia | ].
  cbn [visited]. rewrite standing_valid by lia.
  unfold tiles_from. cbn [seq map]. fold (tiles_from ta (S from) count).
  destruct count as [ | count'].
  - rewrite <- (Nat2Z.id 0), <- (Nat2Z.id 0) at 1.
    destruct fuel as [ | fuel]; [lia | ]. cbn [visited].
    rewrite (next_after_last (Z.of_nat from)) by lia.
    rewrite Z.eqb_refl. reflexivity.
  - rewrite (next_standing (Z.of_nat from)) by lia.
    replace (Z.of_nat from + 1) with (Z.of_nat (S from)) by lia.
    rewrite (IH (S from) fuel) by lia. reflexivity.
Qed.

Lemma area_tiles_member t :
  on_map m t -> In t (area_tiles ta) <-> Contains ta t = true.
Proof.
  intros Ht. destruct area_bounds as (Hw & Hh & Hx0 & Hy0 & Hx & Hy & Hsx & Hsy & Hm).
  rewrite (Contains_coordinates m ta t Hok Ha).
  unfold area_tiles, tiles_from. rewrite in_map_iff. split.
  - intros (k & <- & Hk). apply in_seq in Hk.
    assert (Hn : 0 <= Z.of_nat k < W * H) by lia.
    destruct (nth_tile_index _ Hn) as (_ & _ & EX & EY).
    destruct (position _ Hn) as (Hi & Hj & _). rewrite EX, EY. lia.
  - intros [HX HY].
    set (n := W * (TileY t - Y0) + (TileX t - X0)).
    assert (Hn : 0 <= n < W * H) by (unfold n; nia).
    destruct (quotient_and_rest W (TileY t - Y0) (TileX t - X0) n) as [Ed Em];
      [lia | reflexivity | ].
    exists (Z.to_nat n). rewrite Z2Nat.id by lia. split.
    + unfold nth_tile. rewrite Ed, Em, Hm.
      replace (X0 + (TileX t - X0)) with (TileX t) by lia.
      replace (Y0 + (TileY t - Y0)) with (TileY t) by lia.
      apply (TileXY_coordinates m t Hok Ht).
    + apply in_seq. lia.
Qed.

Lemma area_tiles_NoDup : List.NoDup (area_tiles ta).
Proof.
  unfold area_tiles, tiles_from.
  apply (proj2 (List.NoDup_nth _ (nth_tile ta 0))).
  rewrite length_map, length_seq. intros i j Hi Hj E.
  rewrite !(map_nth (fun n => nth_tile ta (Z.of_nat n)) _ 0%nat) in E.
  rewrite !seq_nth in E by lia. cbn [Nat.add] in E.
  assert (Hni : 0 <= Z.of_nat i < W * H) by lia.
  assert (Hnj : 0 <= Z.of_nat j < W * H) by lia.
  destruct (nth_tile_index _ Hni) as (_ & _ & EXi & EYi).
  destruct (nth_tile_index _ Hnj) as (_ & _ & EXj & EYj).
  rewrite E in EXi, EYi.
  destruct (position _ Hni) as (_ & _ & Ei). destruct (position _ Hnj) as (_ & _ & Ej).
  assert (Z.of_nat i = Z.of_nat j) by (rewrite Ei, Ej; f_equal; [f_equal | ]; lia). lia.
Qed.

End Area.

(** X20.  A loop over an area of the map ends and runs its body for the tiles of
    the area in the order of the rows: [w * h] tiles, every tile of the area
    once and no other tile.  Over an area without columns or without rows the
    body is not run at all. *)
Theorem OrthogonalTileIterator_visits_area
    (m : Map) (ta : OrthogonalTileArea) (fuel : nat) :
  map_ok m -> area_ok m ta -> TileArea.w ta * TileArea.h ta < Z.of_nat fuel ->
  visited fuel (of_area ta) = Some (area_tiles ta) /\
  Z.of_nat (length (area_tiles ta)) = TileArea.w ta * TileArea.h ta /\
  List.NoDup (area_tiles ta) /\
  (forall t, on_map m t -> In t (area_tiles ta) <-> Contains ta t = true) /\
  (forall empty, TileArea.w empty = 0 \/ TileArea.h empty = 0 ->
     visited fuel (of_area empty) = Some []).
Proof.
  intros Hok Ha Hfuel.
  destruct (area_bounds m Hok ta Ha) as (Hw & Hh & _).
  split; [ | split; [ | split; [ | split]]].
  - rewrite (of_area_standing m Hok ta Ha). unfold area_tiles.
    apply (visited_from m Hok ta Ha (Z.to_nat (TileArea.w ta * TileArea.h ta)) 0%nat fuel); nia.
  - unfold area_tiles, tiles_from. rewrite length_map, length_seq. nia.
  - apply (area_tiles_NoDup m Hok ta Ha).
  - intros t Ht. apply (area_tiles_member m Hok ta Ha t Ht).
  - intros empty Hempty. destruct fuel as [ | fuel]; [nia | ].
    cbn [visited]. unfold of_area.
    assert (E : (TileArea.w empty =? 0) || (TileArea.h empty =? 0) = true).
    { destruct Hempty as [-> | ->]; [reflexivity | apply orb_true_r]. }
    rewrite E. reflexivity.
Qed.

Lemma OrthogonalTileIterator_visits_area_witness :
  let m := mkMap 8 8 in
  let ta := mkArea (TileXY 5 2 (Some m)) 3 2 in
  visited 7 (of_area ta) = Some (area_tiles ta) /\
  Z.of_nat (length (area_tiles ta)) = TileArea.w ta * TileArea.h ta /\
  List.NoDup (area_tiles ta) /\
  (forall t, on_map m t -> In t (area_tiles ta) <-> Contains ta t = true) /\
  (forall empty, TileArea.w empty = 0 \/ TileArea.h empty = 0 ->
     visited 7 (of_area empty) = Some []).
Proof.
  intros m ta. apply (OrthogonalTileIterator_visits_area m ta 7); TileAreasFacts.by_evaluation.
Defined.

End OrthogonalIteratorFacts.

(** ** Diagonal areas between two corners *)

Module DiagonalAreaFacts.
Import Int IntFacts TileMap TileMapProps TileMapFacts DiagonalFacts.

(** In the rotated coordinates [x + y] and [y - x], the area between two
    corners holds the tiles that lie between the corners on both diagonals. *)
Lemma Contains_between m start end_ t :
  map_ok m -> on_map m start -> on_map m end_ -> on_map m t ->
  Diagonal.Contains (Diagonal.DiagonalTileArea_of_corners start end_) t = true <->
  (Z.min (TileY start + TileX start) (TileY end_ + TileX end_) <= TileY t + TileX t
     <= Z.max (TileY start + TileX start) (TileY end_ + TileX end_) /\
   Z.min (TileY start - TileX start) (TileY end_ - TileX end_) <= TileY t - TileX t
     <= Z.max (TileY start - TileX start) (TileY end_ - TileX end_)).
Proof.
  intros Hok Hs He Ht.
  pose proof (on_map_X m _ Hok Hs). pose proof (on_map_Y m _ Hok Hs).
  pose proof (on_map_X m _ Hok He). pose proof (on_map_Y m _ Hok He).
  pose proof (on_map_X m _ Hok Ht). pose proof (on_map_Y m _ Hok Ht).
  destruct Hok as [[? ?] [? ?]].
  unfold Diagonal.Contains, Diagonal.DiagonalTileArea_of_corners.
  cbn [Diagonal.tile Diagonal.a Diagonal.b].
  rewrite !int16_uint32 by lia. rewrite !int32_uint32 by lia. rewrite !Z.gtb_ltb.
  destruct (Z.ltb_spec 0 (TileY end_ + TileX end_ - TileY start - TileX start));
    destruct (Z.ltb_spec 0 (TileY end_ - TileX end_ - TileY start + TileX start));
    rewrite !int16_small by lia;
    rewrite (int32_small (TileY start + TileX start + _)),
            (int32_small (TileY start - TileX start + _)) by lia;
    repeat match goal with
           | |- context [Z.ltb ?a ?b] =>
               lazymatch goal with
               | |- context [if Z.ltb a b then _ else _] => destruct (Z.ltb_spec a b)
               end
           end;
    rewrite ?int32_small by lia;
    rewrite !Z.geb_leb, !andb_true_iff, !Z.leb_le, !Z.ltb_lt; lia.
Qed.

(** X21.  The diagonal area between two corners holds exactly the tiles of the map
    that lie between the corners on both diagonals; it contains both
    corners, and it holds the same tiles when the corners are exchanged. *)
Theorem DiagonalTileArea_between_corners (m : Map) (start end_ t : GenericTileIndex) :
  map_ok m -> on_map m start -> on_map m end_ -> on_map m t ->
  (Diagonal.Contains (Diagonal.DiagonalTileArea_of_corners start end_) t = true <->
   (Z.min (TileY start + TileX start) (TileY end_ + TileX end_) <= TileY t + TileX t
      <= Z.max (TileY start + TileX start) (TileY end_ + TileX end_) /\
    Z.min (TileY start - TileX start) (TileY end_ - TileX end_) <= TileY t - TileX t
      <= Z.max (TileY start - TileX start) (TileY end_ - TileX end_))) /\
  Diagonal.Contains (Diagonal.DiagonalTileArea_of_corners start end_) start = true /\
  Diagonal.Contains (Diagonal.DiagonalTileArea_of_corners start end_) end_ = true /\
  Diagonal.Contains (Diagonal.DiagonalTileArea_of_corners end_ start) t
    = Diagonal.Contains (Diagonal.DiagonalTileArea_of_corners start end_) t.
Proof.
  intros Hok Hs He Ht.
  split; [apply (Contains_between m start end_ t Hok Hs He Ht) | ].
  split; [apply (Contains_between m start end_ start Hok Hs He Hs); lia | ].
  split; [apply (Contains_between m start end_ end_ Hok Hs He He); lia | ].
  apply Bool.eq_true_iff_eq.
  rewrite (Contains_between m start end_ t Hok Hs He Ht).
  rewrite (Contains_between m end_ start t Hok He Hs Ht). lia.
Qed.

Lemma DiagonalTileArea_between_corners_witness :
  let m := mkMap 8 8 in
  let start := TileXY 6 6 (Some m) in
  let end_ := TileXY 1 5 (Some m) in
  let t := TileXY 4 5 (Some m) in
  (Diagonal.Contains (Diagonal.DiagonalTileArea_of_corners start end_) t = true <->
   (Z.min (TileY start + TileX start) (TileY end_ + TileX end_) <= TileY t + TileX t
      <= Z.max (TileY start + TileX start) (TileY end_ + TileX end_) /\
    Z.min (TileY start - TileX start) (TileY end_ - TileX end_) <= TileY t - TileX t
      <= Z.max (TileY start - TileX start) (TileY end_ - TileX end_))) /\
  Diagonal.Contains (Diagonal.DiagonalTileArea_of_corners start end_) start = true /\
  Diagonal.Contains (Diagonal.DiagonalTileArea_of_corners start end_) end_ = true /\
  Diagonal.Contains (Diagonal.DiagonalTileArea_of_corners end_ start) t
    = Diagonal.Contains (Diagonal.DiagonalTileArea_of_corners start end_) t.
Proof.
  intros m start end_ t.
  apply (DiagonalTileArea_between_corners m start end_ t); TileAreasFacts.by_evaluation.
Defined.

End DiagonalAreaFacts.

(** ** Terraforming: what the commands leave alone *)

Module TerraformBounds.
Import Int IntFacts TileMap TileMapProps TileMapFacts Terraform TerraformFacts TerraformProps.

Section AnyWorld.

Context {Content : Type}.
Variable hooks : Collaborators Content.

Lemma CmdTerraformLand_estimate_keeps
    (fuel : nat) (w : World Content) (tile flags p1 p2 : Z)
    (res : CommandCost) (w' : World Content) :
  has_bit flags DC_EXEC = false ->
  CmdTerraformLand fuel hooks w tile flags p1 p2 = Some (res, w') ->
  tile_height w' = tile_height w /\ terraform_limit w' = terraform_limit w /\
  main_map w' = main_map w /\ settings w' = settings w.
Proof.
  intros Hest. unfold CmdTerraformLand. intros Hrun.
  destruct (terraform_collect fuel _ tile _ p1) as [ | message ts | total ts].
  - discriminate.
  - inversion Hrun; subst. auto.
  - destruct (terraform_validate hooks 0 _ flags ts _ _ total) as [res0 w0] eqn:Hpass0.
    pose proof (terraform_validate_preserves _ _ _ _ _ _ _ _ _ _ Hpass0) as (Eh0 & El0 & Em0 & Es0).
    cbn [tile_height terraform_limit main_map settings set_terraform_err_tile]
      in Eh0, El0, Em0, Es0.
    destruct res0 as [total0 | message0].
    + destruct (terraform_validate hooks 1 _ flags ts _ w0 total0) as [res1 w1] eqn:Hpass1.
      pose proof (terraform_validate_preserves _ _ _ _ _ _ _ _ _ _ Hpass1)
        as (Eh1 & El1 & Em1 & Es1).
      destruct res1 as [total1 | message1].
      * unfold terraform_finish in Hrun. rewrite Hest in Hrun.
        destruct (terraform_limit w1) as [l | ] eqn:El.
        -- destruct (GB l 16 16 <? changed_corners ts); inversion Hrun; subst;
             (split; [congruence | ]; split; [congruence | ]; split; congruence).
        -- inversion Hrun; subst.
           split; [congruence | ]. split; [congruence | ]. split; congruence.
      * inversion Hrun; subst.
        split; [congruence | ]. split; [congruence | ]. split; congruence.
    + inversion Hrun; subst. auto.
Qed.

(** X22.  Without [DC_EXEC] the command only estimates: whatever it returns, no
    height of the map and no terraform limit has changed, and the map and the
    settings are the same. *)
Theorem CmdTerraformLand_estimate_changes_no_height
    (fuel : nat) (w : World Content) (tile flags p1 p2 : Z)
    (res : CommandCost) (w' : World Content) :
  has_bit flags DC_EXEC = false ->
  CmdTerraformLand fuel hooks w tile flags p1 p2 = Some (res, w') ->
  tile_height w' = tile_height w /\ terraform_limit w' = terraform_limit w /\
  main_map w' = main_map w /\ settings w' = settings w.
Proof. exact (CmdTerraformLand_estimate_keeps fuel w tile flags p1 p2 res w'). Qed.

(** *** Corners at sea level and at the highest level *)

Lemma terraform_corner_refused fuel (w : World Content) tile direction p1 corner x y bounded
    total ts message :
  TerraformTileHeight fuel w ts (tile_add_xy w tile x y)
    (int32 (uint32 (TileHeight w (tile_add_xy w tile x y) + direction))) = Fails message ts ->
  terraform_corner fuel w tile direction p1 corner x y bounded total ts = Gives total ts \/
  terraform_corner fuel w tile direction p1 corner x y bounded total ts = Fails message ts.
Proof.
  intros Hfail. unfold terraform_corner.
  destruct (has_bit p1 corner && _); [right | left; reflexivity].
  rewrite Hfail. reflexivity.
Qed.

Lemma terraform_collect_refused fuel (w : World Content) tile direction p1 message :
  has_bit p1 SLOPE_N = true ->
  (forall t ts, In t (corners_of w tile) ->
     TerraformTileHeight fuel w ts t (int32 (uint32 (TileHeight w t + direction)))
     = Fails message ts) ->
  terraform_collect fuel w tile direction p1
  = Fails message (mkState [] ∅ INVALID_TILE_INDEX).
Proof.
  intros HN Hfail. unfold terraform_collect.
  set (ts := mkState [] ∅ INVALID_TILE_INDEX).
  assert (Hlast : forall total,
            terraform_corner fuel w tile direction p1 SLOPE_N 0 0 false total ts
            = Fails message ts).
  { intros total. unfold terraform_corner. rewrite HN. cbn [andb].
    rewrite (Hfail _ ts) by (unfold corners_of; simpl; tauto). reflexivity. }
  destruct (terraform_corner_refused fuel w tile direction p1 SLOPE_W 1 0 true 0 ts message)
    as [E | E]; [apply Hfail; unfold corners_of; simpl; tauto | | rewrite E; reflexivity].
  rewrite E. cbn [bind].
  destruct (terraform_corner_refused fuel w tile direction p1 SLOPE_S 1 1 true 0 ts message)
    as [E' | E']; [apply Hfail; unfold corners_of; simpl; tauto | | rewrite E'; reflexivity].
  rewrite E'. cbn [bind].
  destruct (terraform_corner_refused fuel w tile direction p1 SLOPE_E 0 1 true 0 ts message)
    as [E'' | E'']; [apply Hfail; unfold corners_of; simpl; tauto | | rewrite E''; reflexivity].
  rewrite E''. cbn [bind]. apply Hlast.
Qed.

(** X23.  Lowering a tile whose corners are at sea level fails with the error
    "already at sea level", and raising a tile whose corners are at the
    highest level allowed fails with "too high"; in both cases nothing is
    changed and no error tile is set. *)
Theorem CmdTerraformLand_at_the_limits
    (fuel : nat) (w : World Content) (tile flags p1 p2 : Z) :
  (0 < fuel)%nat -> has_bit p1 SLOPE_N = true ->
  0 <= max_heightlevel (settings w) < 2 ^ 31 - 1 ->
  ((p2 = 0 /\ forall t, In t (corners_of w tile) -> tile_height w t = 0) ->
   exists w',
     CmdTerraformLand fuel hooks w tile flags p1 p2
       = Some (Error STR_ERROR_ALREADY_AT_SEA_LEVEL, w') /\
     tile_height w' = tile_height w /\ terraform_limit w' = terraform_limit w /\
     terraform_err_tile w' = INVALID_TILE_INDEX) /\
  ((p2 <> 0 /\
    forall t, In t (corners_of w tile) -> tile_height w t = max_heightlevel (settings w)) ->
   exists w',
     CmdTerraformLand fuel hooks w tile flags p1 p2 = Some (Error STR_ERROR_TOO_HIGH, w') /\
     tile_height w' = tile_height w /\ terraform_limit w' = terraform_limit w /\
     terraform_err_tile w' = INVALID_TILE_INDEX).
Proof.
  intros Hfuel HN Hmax. destruct fuel as [ | fuel]; [lia | ].
  set (w0 := set_terraform_err_tile w INVALID_TILE_INDEX).
  split.
  - intros [-> Hsea]. eexists. unfold CmdTerraformLand. fold w0.
    rewrite (terraform_collect_refused (S fuel) w0 tile _ p1 STR_ERROR_ALREADY_AT_SEA_LEVEL HN).
    + split; [reflexivity | ]. cbn. auto.
    + intros t ts Ht. unfold TileHeight. cbn [tile_height w0 set_terraform_err_tile].
      rewrite (Hsea t Ht). cbn [Z.eqb TerraformTileHeight]. reflexivity.
  - intros [Hp2 Hhigh]. eexists. unfold CmdTerraformLand. fold w0.
    rewrite (terraform_collect_refused (S fuel) w0 tile _ p1 STR_ERROR_TOO_HIGH HN).
    + split; [reflexivity | ]. cbn. auto.
    + intros t ts Ht. unfold TileHeight. cbn [tile_height w0 set_terraform_err_tile].
      rewrite (Hhigh t Ht). destruct (Z.eqb_spec p2 0) as [E | _]; [contradiction | ].
      rewrite int32_uint32 by lia. cbn [TerraformTileHeight].
      change (settings w0) with (settings w).
      destruct (Z.ltb_spec (max_heightlevel (settings w) + 1) 0); [lia | ].
      destruct (Z.gtb_spec (max_heightlevel (settings w) + 1) (max_heightlevel (settings w)));
        [reflexivity | lia].
Qed.

(** *** Batches *)

Section Iterating.

Context {Position : Type}.
Variable tile_of : Position -> Z.
Variable height_source : World Content -> Position -> Z.

Lemma terraform_tiles_loop_without_limit flags iter (s : @Batch Content) :
  limit s <= 0 ->
  terraform_tiles_loop tile_of height_source hooks flags iter s = Continue s.
Proof.
  intros Hl. destruct iter as [ | p iter]; [reflexivity | ].
  cbn [terraform_tiles_loop]. destruct (Z.gtb_spec (limit s) 0); [lia | reflexivity].
Qed.

Lemma terraform_tiles_loop_levelled flags iter : forall (s : @Batch Content),
  (forall p, In p iter -> height_source (world s) p = TileHeight (world s) (tile_of p)) ->
  terraform_tiles_loop tile_of height_source hooks flags iter s = Continue s.
Proof.
  induction iter as [ | p iter IH]; intros s Hlev; [reflexivity | ].
  cbn [terraform_tiles_loop]. destruct (limit s >? 0); [ | reflexivity].
  rewrite (Hlev p) by (left; reflexivity). rewrite Z.sub_diag. cbn [Z.abs Z.to_nat].
  cbn [terraform_tile_steps]. apply IH. intros q Hq. apply Hlev. right. exact Hq.
Qed.

(** X25.  [TerraformTiles] tries no corner at all when the company has no whole
    corner left of its terraform limit (a limit below [2 ^ 16]), and when
    every corner that the iterator gives already has its target height, in
    particular when the iterator gives none: it then reports "terraform
    limit reached" in the first case and "already levelled" otherwise, no
    success and no cost, and the world is the same except that no error tile
    is set. *)
Theorem TerraformTiles_nothing_to_do
    (iter : list Position) (flags : Z) (w : World Content) (money : Z) :
  batch_limit w = 0 \/
  (forall p, In p iter -> height_source w p = TileHeight w (tile_of p)) ->
  TerraformTiles tile_of height_source hooks iter flags w money
  = (mkResult 0 false
       (if batch_limit w =? 0 then STR_ERROR_TERRAFORM_LIMIT_REACHED
        else STR_ERROR_ALREADY_LEVELLED),
     set_terraform_err_tile w INVALID_TILE_INDEX) /\
  (forall l, terraform_limit w = Some l -> 0 <= l < 2 ^ 16 -> batch_limit w = 0).
Proof.
  intros Hcase. split.
  - unfold TerraformTiles.
    assert (Eloop : terraform_tiles_loop tile_of height_source hooks flags iter
                      (batch_start w money) = Continue (batch_start w money)).
    { destruct Hcase as [Hzero | Hlev].
      - apply terraform_tiles_loop_without_limit. unfold batch_start. cbn [limit]. lia.
      - apply terraform_tiles_loop_levelled. exact Hlev. }
    rewrite Eloop. unfold batch_end, batch_start.
    cbn [result had_success last_error world last_err_tile cost].
    destruct (batch_limit w =? 0); reflexivity.
  - intros l Hl Hr. unfold batch_limit. rewrite Hl.
    destruct (GB_16_16 l ltac:(lia)) as [E _]. rewrite E.
    rewrite Z.div_small by lia. reflexivity.
Qed.

(** *** Estimates *)

Lemma clear_bit_DC_EXEC flags : has_bit (clear_bit flags DC_EXEC) DC_EXEC = false.
Proof.
  unfold has_bit, clear_bit. rewrite <- Z.land_assoc.
  change (Z.land (Z.lnot DC_EXEC) DC_EXEC) with 0. rewrite Z.land_0_r. reflexivity.
Qed.

Section Estimates.

(** The terraform command that the batch runs changes no height when it is
    run without [DC_EXEC], as [CmdTerraformLand] does. *)
Hypothesis estimate_only : forall w t p1 p2 flags,
  has_bit flags DC_EXEC = false ->
  tile_height (snd (DoCommandTerraformLand hooks w t p1 p2 flags)) = tile_height w.

Lemma terraform_tile_steps_estimate (heights : Z -> Z) flags t h n :
  forall curh (s : @Batch Content),
  has_bit flags DC_EXEC = false -> tile_height (world s) = heights ->
  match terraform_tile_steps hooks flags t h n curh s with
  | Continue s' => tile_height (world s') = heights
  | Return s' => False
  end.
Proof.
  induction n as [ | n IH]; intros curh s Hest Hs; cbn [terraform_tile_steps].
  - exact Hs.
  - destruct (curh =? h); [exact Hs | ].
    pose proof (estimate_only (world s) t SLOPE_N (if curh >? h then 0 else 1)
                  (clear_bit flags DC_EXEC) (clear_bit_DC_EXEC flags)) as Hw.
    destruct (DoCommandTerraformLand hooks (world s) t SLOPE_N _ _) as [ret w1].
    cbn [snd] in Hw.
    destruct (Failed ret); [cbn [world]; congruence | ].
    rewrite Hest.
    destruct (int32 (limit s - 1) <=? 0); [cbn [world]; congruence | ].
    apply IH; [exact Hest | cbn [world]; congruence].
Qed.

(** X26.  An estimate of a batch changes no height: when [TerraformTiles] is run
    without [DC_EXEC], every terraform command that it runs is run without
    [DC_EXEC], and the heights of the map are afterwards as they were. *)
Theorem TerraformTiles_estimate_changes_no_height
    (iter : list Position) (flags : Z) (w : World Content) (money : Z) :
  has_bit flags DC_EXEC = false ->
  tile_height (snd (TerraformTiles tile_of height_source hooks iter flags w money))
  = tile_height w.
Proof.
  intros Hest. unfold TerraformTiles.
  assert (Hloop : forall (s : @Batch Content), tile_height (world s) = tile_height w ->
            match terraform_tiles_loop tile_of height_source hooks flags iter s with
            | Continue s' => tile_height (world s') = tile_height w
            | Return s' => False
            end).
  { induction iter as [ | p iter' IH]; intros s Hs; cbn [terraform_tiles_loop].
    - exact Hs.
    - destruct (limit s >? 0); [ | exact Hs].
      pose proof (terraform_tile_steps_estimate (tile_height w) flags (tile_of p)
                    (height_source (world s) p)
                    (Z.to_nat (Z.abs (height_source (world s) p - TileHeight (world s) (tile_of p))))
                    (TileHeight (world s) (tile_of p)) s Hest Hs) as Hstep.
      destruct (terraform_tile_steps hooks flags _ _ _ _ s) as [s1 | s1];
        [apply IH; exact Hstep | exact Hstep]. }
  specialize (Hloop (batch_start w money) eq_refl).
  destruct (terraform_tiles_loop tile_of height_source hooks flags iter (batch_start w money))
    as [s | s]; [ | contradiction].
  unfold batch_end. destruct (negb _ && _); cbn [snd tile_height set_terraform_err_tile];
    exact Hloop.
Qed.

End Estimates.

(** *** The money of a batch *)

Lemma terraform_tile_steps_budget money flags t h n : forall curh (s : @Batch Content),
  has_bit flags DC_EXEC = true -> within_budget money s ->
  match terraform_tile_steps hooks flags t h n curh s with
  | Continue s' => within_budget money s'
  | Return s' => cost (result s') <= money /\ available_money s' < 0
  end.
Proof.
  induction n as [ | n IH]; intros curh s Hexec Hs; cbn [terraform_tile_steps].
  - exact Hs.
  - destruct (curh =? h); [exact Hs | ].
    destruct (DoCommandTerraformLand hooks (world s) t SLOPE_N _ _) as [ret w1].
    destruct (Failed ret); [exact Hs | ].
    rewrite Hexec.
    destruct (Z.ltb_spec (available_money s - GetCost ret) 0) as [Hlow | Henough].
    + cbn [result available_money]. destruct Hs as [Hsum Hpos]. split; lia.
    + destruct (DoCommandTerraformLand hooks w1 t SLOPE_N _ flags) as [ret2 w2].
      apply IH; [exact Hexec | ].
      destruct Hs as [Hsum Hpos]. unfold within_budget. cbn [result available_money cost].
      split; lia.
Qed.

Lemma terraform_tiles_loop_budget money flags iter : forall (s : @Batch Content),
  has_bit flags DC_EXEC = true -> within_budget money s ->
  match terraform_tiles_loop tile_of height_source hooks flags iter s with
  | Continue s' => within_budget money s'
  | Return s' => cost (result s') <= money /\ available_money s' < 0
  end.
Proof.
  induction iter as [ | p iter IH]; intros s Hexec Hs; cbn [terraform_tiles_loop].
  - exact Hs.
  - destruct (limit s >? 0); [ | exact Hs].
    pose proof (terraform_tile_steps_budget money flags (tile_of p)
                  (height_source (world s) p)
                  (Z.to_nat (Z.abs (height_source (world s) p - TileHeight (world s) (tile_of p))))
                  (TileHeight (world s) (tile_of p)) s Hexec Hs) as Hstep.
    destruct (terraform_tile_steps hooks flags _ _ _ _ s) as [s1 | s1].
    + apply IH; assumption.
    + exact Hstep.
Qed.

(** X27.  In execute mode [TerraformTiles] never spends more than the money at
    hand: the cost it reports is at most [available_money], whatever the
    single steps cost and wherever the batch stops. *)
Theorem TerraformTiles_within_budget
    (iter : list Position) (flags : Z) (w : World Content) (money : Z) :
  has_bit flags DC_EXEC = true -> 0 <= money ->
  cost (fst (TerraformTiles tile_of height_source hooks iter flags w money)) <= money.
Proof.
  intros Hexec Hmoney. unfold TerraformTiles.
  assert (Hstart : within_budget money (batch_start w money)).
  { unfold within_budget, batch_start. cbn [result cost available_money]. lia. }
  pose proof (terraform_tiles_loop_budget money flags iter _ Hexec Hstart) as Hloop.
  destruct (terraform_tiles_loop tile_of height_source hooks flags iter (batch_start w money))
    as [s | s].
  - destruct Hloop as [Hsum Hpos]. unfold batch_end.
    destruct (negb (had_success (result s)) && _); cbn [fst cost]; lia.
  - cbn [fst]. lia.
Qed.

End Iterating.

End AnyWorld.

End TerraformBounds.

(** ** Terraforming stays on the map *)

Module TerraformOnMap.
Import Int IntFacts TileMap TileMapProps TileMapFacts Terraform TerraformFacts TerraformProps.
Import MapTiles MapTilesFacts.

Section OnMap.

Context {Content : Type}.
Variable w : World Content.
Hypothesis Hok : map_ok (main_map w).

Local Abbreviation m := (main_map w).
Local Abbreviation on_the_map := (TerraformProps.tile_of_map w).
Local Abbreviation state_ok := (TerraformProps.state_on_map w).

Lemma set_insert_Forall (P : Z -> Prop) t s :
  P t -> Forall P s -> Forall P (set_insert t s).
Proof.
  intros Ht Hs. induction Hs as [ | x s Hx Hs IH]; cbn [set_insert].
  - constructor; [exact Ht | constructor].
  - destruct (t <? x); [constructor; [exact Ht | constructor; assumption] | ].
    destruct (t =? x); constructor; assumption.
Qed.

Lemma TerraformAddDirtyTile_on_map ts t :
  on_the_map t -> state_ok ts -> state_ok (TerraformAddDirtyTile ts t).
Proof.
  intros Ht [Hd Hh]. split; [ | exact Hh].
  cbn [TerraformAddDirtyTile dirty_tiles]. apply set_insert_Forall; assumption.
Qed.

(** A step back along an axis from a tile that is not on the first row or
    column. *)
Lemma tile_add_xy_back t dx dy :
  on_the_map t -> (dx = 0 \/ dx = -1) -> (dy = 0 \/ dy = -1) ->
  (dx = -1 -> TileX (main_tile w t) >= 1) -> (dy = -1 -> TileY (main_tile w t) >= 1) ->
  on_the_map (tile_add_xy w t dx dy).
Proof.
  intros Ht Hdx Hdy Hx Hy. unfold TerraformProps.tile_of_map in *.
  destruct (main_coordinates m Hok t Ht) as (HX & HY & Et).
  change (on_main m t) with (main_tile w t) in *.
  pose proof Hok as [[Hsx Hsx'] [Hsy Hsy']].
  pose proof (map_ok_size m Hok) as Hsize.
  unfold MapSize in *. cbn [MapSizeX MapSizeY] in *.
  unfold tile_add_xy, TileDiffXY. cbn [MapSizeX].
  rewrite int32_uint32 by nia.
  rewrite uint32_small by nia. nia.
Qed.

Lemma TerraformAddDirtyTileAround_on_map ts t :
  on_the_map t -> state_ok ts -> state_ok (TerraformAddDirtyTileAround w ts t).
Proof.
  intros Ht Hs. unfold TerraformAddDirtyTileAround.
  apply TerraformAddDirtyTile_on_map; [exact Ht | ].
  destruct (Z.geb_spec (TileX (main_tile w t)) 1) as [Hx | Hx];
    destruct (Z.geb_spec (TileY (main_tile w t)) 1) as [Hy | Hy]; cbn [andb];
    repeat (apply TerraformAddDirtyTile_on_map;
            [apply tile_add_xy_back; (exact Ht || lia) | ]);
    exact Hs.
Qed.

Lemma TerraformSetHeightOfTile_on_map ts t height :
  on_the_map t -> state_ok ts -> state_ok (TerraformSetHeightOfTile ts t height).
Proof.
  intros Ht [Hd Hh]. split; [exact Hd | ].
  cbn [TerraformSetHeightOfTile tile_to_new_height]. intros t' v Hl.
  destruct (Z.eq_dec t t') as [<- | Hne]; [exact Ht | ].
  rewrite lookup_insert_ne in Hl by exact Hne. apply (Hh t' v Hl).
Qed.

Lemma set_err_tile_on_map ts t : state_ok ts -> state_ok (set_err_tile ts t).
Proof. intros H. exact H. Qed.

Section Recursion.

Variable recurse : TerraformerState -> Z -> Z -> Outcome Z.
Hypothesis recurse_on_map : forall ts t height,
  on_the_map t -> state_ok ts -> leaves_on_map w (recurse ts t height).

Lemma terraform_neighbours_on_map orig_tile height ttms :
  forall tile total ts,
  state_ok ts ->
  leaves_on_map w (terraform_neighbours recurse w orig_tile height ttms tile total ts).
Proof.
  induction ttms as [ | ttm ttms IH]; intros tile total ts Hs; cbn [terraform_neighbours].
  - exact Hs.
  - set (tile' := uint32 (tile + ToTileIndexDiff w ttm)).
    destruct (Z.geb_spec tile' (MapSize (Some m))) as [Hout | Hin]; [apply IH; exact Hs | ].
    destruct (_ =? _); [apply IH; exact Hs | ].
    destruct (_ =? _); [apply IH; exact Hs | ].
    unfold terraform_neighbour.
    destruct (_ >? 1); [ | apply IH; exact Hs].
    assert (Ht' : on_the_map tile').
    { unfold TerraformProps.tile_of_map. pose proof (uint32_range (tile + ToTileIndexDiff w ttm)).
      fold tile' in H. lia. }
    pose proof (recurse_on_map ts tile'
                  (int32 (TerraformGetHeightOfTile w ts tile' +
                          int32 (int32 (height - TerraformGetHeightOfTile w ts tile') +
                                 (if int32 (height - TerraformGetHeightOfTile w ts tile') <? 0
                                  then 1 else -1)))) Ht' Hs) as Hr.
    destruct (recurse ts tile' _) as [ | message ts1 | c ts1]; cbn [bind].
    + exact I.
    + exact Hr.
    + apply IH. exact Hr.
Qed.

End Recursion.

Lemma TerraformTileHeight_on_map fuel : forall ts tile height,
  on_the_map tile -> state_ok ts ->
  leaves_on_map w (TerraformTileHeight fuel w ts tile height).
Proof.
  induction fuel as [ | fuel IH]; intros ts tile height Ht Hs; cbn [TerraformTileHeight].
  - exact I.
  - destruct (height <? 0); [exact Hs | ].
    destruct (height >? _); [exact Hs | ].
    destruct (height =? _); [exact Hs | ].
    destruct (negb _ && _); [exact Hs | ].
    apply terraform_neighbours_on_map.
    + intros ts' t' h' Ht' Hs'. apply IH; assumption.
    + apply TerraformSetHeightOfTile_on_map; [exact Ht | ].
      apply TerraformAddDirtyTileAround_on_map; assumption.
Qed.

Lemma tile_add_xy_itself t : on_the_map t -> tile_add_xy w t 0 0 = t.
Proof.
  intros Ht. unfold TerraformProps.tile_of_map in Ht.
  pose proof (map_ok_size m Hok) as Hsize.
  unfold tile_add_xy, TileDiffXY. cbn [MapSizeX].
  replace (0 * map_size_x m + 0) with 0 by lia.
  rewrite (uint32_small 0), (int32_small 0) by lia.
  rewrite Z.add_0_r. apply uint32_small. lia.
Qed.

Lemma terraform_corner_on_map fuel tile direction p1 corner x y bounded total ts :
  on_the_map tile -> (bounded = false -> x = 0 /\ y = 0) -> state_ok ts ->
  leaves_on_map w (terraform_corner fuel w tile direction p1 corner x y bounded total ts).
Proof.
  intros Ht Hxy Hs. unfold terraform_corner.
  destruct (has_bit p1 corner && _) eqn:Hsel; [ | exact Hs].
  apply andb_true_iff in Hsel. destruct Hsel as [_ Hin].
  assert (Ht' : on_the_map (tile_add_xy w tile x y)).
  { destruct bounded.
    - apply Z.ltb_lt in Hin. unfold TerraformProps.tile_of_map.
      pose proof (uint32_range (tile + TileDiffXY x y (Some m))) as Hr.
      unfold tile_add_xy in *. lia.
    - destruct (Hxy eq_refl) as [-> ->]. rewrite tile_add_xy_itself; assumption. }
  pose proof (TerraformTileHeight_on_map fuel ts (tile_add_xy w tile x y)
                (int32 (uint32 (TileHeight w (tile_add_xy w tile x y) + direction))) Ht' Hs)
    as Hr.
  destruct (TerraformTileHeight fuel w ts _ _) as [ | message ts1 | c ts1]; cbn [bind];
    [exact I | exact Hr | exact Hr].
Qed.

Lemma terraform_collect_on_map fuel tile direction p1 :
  on_the_map tile -> leaves_on_map w (terraform_collect fuel w tile direction p1).
Proof.
  intros Ht. unfold terraform_collect.
  assert (H0 : state_ok (mkState [] ∅ INVALID_TILE_INDEX)).
  { split; [constructor | ]. intros t v Hl. cbn [tile_to_new_height] in Hl.
    rewrite lookup_empty in Hl. discriminate. }
  pose proof (terraform_corner_on_map fuel tile direction p1 SLOPE_W 1 0 true 0 _ Ht
                ltac:(discriminate) H0) as H1.
  destruct (terraform_corner fuel w tile direction p1 SLOPE_W 1 0 true 0 _)
    as [ | ? ts1 | c1 ts1]; cbn [bind]; [exact I | exact H1 | ].
  pose proof (terraform_corner_on_map fuel tile direction p1 SLOPE_S 1 1 true c1 _ Ht
                ltac:(discriminate) H1) as H2.
  destruct (terraform_corner fuel w tile direction p1 SLOPE_S 1 1 true c1 _)
    as [ | ? ts2 | c2 ts2]; cbn [bind]; [exact I | exact H2 | ].
  pose proof (terraform_corner_on_map fuel tile direction p1 SLOPE_E 0 1 true c2 _ Ht
                ltac:(discriminate) H2) as H3.
  destruct (terraform_corner fuel w tile direction p1 SLOPE_E 0 1 true c2 _)
    as [ | ? ts3 | c3 ts3]; cbn [bind]; [exact I | exact H3 | ].
  apply terraform_corner_on_map; auto.
Qed.

Lemma terraform_commit_on_map ts (heights : Z -> Z) :
  state_ok ts -> forall t, ~ on_the_map t -> terraform_commit heights ts t = heights t.
Proof.
  intros [_ Hh]. unfold terraform_commit. revert Hh.
  generalize (tile_to_new_height ts). intros new_heights.
  apply (map_fold_weak_ind
           (fun r (hm : gmap Z Z) =>
              (forall t v, hm !! t = Some v -> on_the_map t) ->
              forall t, ~ on_the_map t -> r t = heights t)).
  - intros _ t _. reflexivity.
  - intros i v hm r Hnone IH Hkeys t Ht.
    assert (Hi : on_the_map i) by (apply (Hkeys i v); apply lookup_insert_eq).
    unfold SetTileHeight. destruct (Z.eqb_spec t i) as [-> | Hne]; [contradiction | ].
    apply IH; [ | exact Ht].
    intros t' v' Hl. apply (Hkeys t' v').
    destruct (Z.eq_dec i t') as [<- | Hne']; [congruence | ].
    rewrite lookup_insert_ne by exact Hne'. exact Hl.
Qed.

End OnMap.

(** X24.  Every tile that the collecting phase of [CmdTerraformLand] marks dirty
    or gives a new height is a tile of the map, as the validation loop
    asserts; and whatever the command returns, the heights outside the map
    are as they were. *)
Theorem CmdTerraformLand_stays_on_map {Content : Type}
    (hooks : Collaborators Content) (fuel : nat) (w : World Content) (tile flags p1 p2 : Z)
    (res : CommandCost) (w' : World Content) :
  map_ok (main_map w) -> tile_of_map w tile ->
  CmdTerraformLand fuel hooks w tile flags p1 p2 = Some (res, w') ->
  leaves_on_map w (terraform_collect fuel (set_terraform_err_tile w INVALID_TILE_INDEX) tile
                     (if p2 =? 0 then -1 else 1) p1) /\
  (forall t, ~ tile_of_map w t -> tile_height w' t = tile_height w t).
Proof.
  intros Hok Htile Hrun.
  set (w0 := set_terraform_err_tile w INVALID_TILE_INDEX) in *.
  pose proof (terraform_collect_on_map w0 Hok fuel tile (if p2 =? 0 then -1 else 1) p1 Htile)
    as Hcollect.
  split; [exact Hcollect | ].
  intros t Ht. unfold CmdTerraformLand in Hrun. fold w0 in Hrun.
  destruct (terraform_collect fuel w0 tile _ p1) as [ | message ts | total ts].
  - discriminate.
  - inversion Hrun; subst. reflexivity.
  - destruct (terraform_validate hooks 0 _ flags ts _ _ total) as [res0 w1] eqn:Hpass0.
    pose proof (terraform_validate_preserves _ _ _ _ _ _ _ _ _ _ Hpass0) as (Eh0 & _).
    change (tile_height w0) with (tile_height w) in Eh0.
    destruct res0 as [total0 | message0]; [ | inversion Hrun; subst; congruence].
    destruct (terraform_validate hooks 1 _ flags ts _ w1 total0) as [res1 w2] eqn:Hpass1.
    pose proof (terraform_validate_preserves _ _ _ _ _ _ _ _ _ _ Hpass1) as (Eh1 & _).
    destruct res1 as [total1 | message1]; [ | inversion Hrun; subst; congruence].
    assert (Ecommit : terraform_commit (tile_height w2) ts t = tile_height w t).
    { rewrite (terraform_commit_on_map w0 ts (tile_height w2) Hcollect t Ht). congruence. }
    unfold terraform_finish in Hrun.
    destruct (terraform_limit w2) as [l | ].
    + destruct (GB l 16 16 <? changed_corners ts); [inversion Hrun; subst; congruence | ].
      destruct (has_bit flags DC_EXEC); inversion Hrun; subst;
        [exact Ecommit | congruence].
    + destruct (has_bit flags DC_EXEC); inversion Hrun; subst;
        [exact Ecommit | congruence].
Qed.

End TerraformOnMap.

(** ** The properties above on the small world *)

Module TerraformExamples.
Import Int IntFacts TileMap TileMapProps TileMapFacts Terraform TerraformFacts TerraformProps.
Import TerraformBounds TerraformOnMap.

Lemma CmdTerraformLand_estimate_changes_no_height_witness :
  let res := Cost 50 in
  let w' := set_terraform_err_tile hill_world INVALID_TILE_INDEX in
  tile_height w' = tile_height hill_world /\ terraform_limit w' = terraform_limit hill_world /\
  main_map w' = main_map hill_world /\ settings w' = settings hill_world.
Proof.
  intros res w'.
  apply (CmdTerraformLand_estimate_changes_no_height
           (bare_collaborators 20) 20 hill_world 27 0 SLOPE_N 1 res w').
  - reflexivity.
  - vm_compute. reflexivity.
Defined.

Lemma CmdTerraformLand_at_the_limits_witness :
  let hooks := bare_collaborators 20 in
  let w := hill_world in
  ((0 = 0 /\ forall t, In t (corners_of w 0) -> tile_height w t = 0) ->
   exists w',
     CmdTerraformLand 20 hooks w 0 DC_EXEC SLOPE_N 0
       = Some (Error STR_ERROR_ALREADY_AT_SEA_LEVEL, w') /\
     tile_height w' = tile_height w /\ terraform_limit w' = terraform_limit w /\
     terraform_err_tile w' = INVALID_TILE_INDEX) /\
  ((0 <> 0 /\
    forall t, In t (corners_of w 0) -> tile_height w t = max_heightlevel (settings w)) ->
   exists w',
     CmdTerraformLand 20 hooks w 0 DC_EXEC SLOPE_N 0 = Some (Error STR_ERROR_TOO_HIGH, w') /\
     tile_height w' = tile_height w /\ terraform_limit w' = terraform_limit w /\
     terraform_err_tile w' = INVALID_TILE_INDEX).
Proof.
  intros hooks w.
  apply (CmdTerraformLand_at_the_limits hooks 20 w 0 DC_EXEC SLOPE_N 0).
  - lia.
  - reflexivity.
  - vm_compute. split; [discriminate | reflexivity].
Defined.

Lemma TerraformTiles_nothing_to_do_witness :
  TerraformTiles (fun p : Z => p) (fun _ _ => 0) (bare_collaborators 20) [26; 28] DC_EXEC
    hill_world 100
  = (mkResult 0 false
       (if batch_limit hill_world =? 0 then STR_ERROR_TERRAFORM_LIMIT_REACHED
        else STR_ERROR_ALREADY_LEVELLED),
     set_terraform_err_tile hill_world INVALID_TILE_INDEX) /\
  (forall l, terraform_limit hill_world = Some l -> 0 <= l < 2 ^ 16 ->
     batch_limit hill_world = 0).
Proof.
  apply (TerraformTiles_nothing_to_do (bare_collaborators 20) (fun p : Z => p) (fun _ _ => 0)
           [26; 28] DC_EXEC hill_world 100).
  right. intros p [<- | [<- | []]]; reflexivity.
Defined.

Lemma TerraformTiles_estimate_changes_no_height_witness :
  tile_height (snd (TerraformTiles (fun p : Z => p) (fun _ _ => 1) (bare_collaborators 20)
                      [27; 28] 0 hill_world 100))
  = tile_height hill_world.
Proof.
  apply (TerraformTiles_estimate_changes_no_height (bare_collaborators 20)
           (fun p : Z => p) (fun _ _ => 1)).
  - intros w t p1 p2 flags Hest. cbn [bare_collaborators DoCommandTerraformLand].
    destruct (CmdTerraformLand 20 _ w t flags p1 p2) as [[res w'] | ] eqn:Hrun; [ | reflexivity].
    apply (CmdTerraformLand_estimate_keeps _ 20 w t flags p1 p2 res w' Hest Hrun).
  - reflexivity.
Defined.

Lemma TerraformTiles_within_budget_witness :
  cost (fst (TerraformTiles (fun p : Z => p) (fun _ _ => 1) (bare_collaborators 20)
               [27; 28] DC_EXEC hill_world 100)) <= 100.
Proof.
  apply (TerraformTiles_within_budget (bare_collaborators 20) (fun p : Z => p) (fun _ _ => 1)
           [27; 28] DC_EXEC hill_world 100).
  - reflexivity.
  - lia.
Defined.

Lemma CmdTerraformLand_stays_on_map_witness :
  let w := hill_world in
  let w' := set_terraform_err_tile hill_world INVALID_TILE_INDEX in
  leaves_on_map w (terraform_collect 20 (set_terraform_err_tile w INVALID_TILE_INDEX) 27
                     (if 1 =? 0 then -1 else 1) SLOPE_N) /\
  (forall t, ~ tile_of_map w t -> tile_height w' t = tile_height w t).
Proof.
  intros w w'.
  apply (CmdTerraformLand_stays_on_map (bare_collaborators 20) 20 w 27 0 SLOPE_N 1 (Cost 50) w').
  - unfold map_ok. simpl. lia.
  - vm_compute. split; [discriminate | reflexivity].
  - vm_compute. reflexivity.
Defined.

End TerraformExamples.

(** ** The item lists of the clipboard *)

Module ClipboardFacts.
Import Int Clipboard ClipboardProps.

Section Items.

Context {T : Type} `{ClipboardItem T}.

(** The [id] of a new item is the [id] it was given. *)
Hypothesis item_id_set : forall item i, item_id (set_id item i) = i.

Lemma Get_FindItem (items : list T) i :
  Get items i = match nth_error items (FindItem items i) with
                | Some item => Some item
                | None => None
                end /\
  (FindItem items i <= length items)%nat /\
  (forall item, Get items i = Some item -> item_id item = i).
Proof.
  induction items as [ | item items IH]; cbn [Get FindItem length].
  - split; [reflexivity | ]. split; [lia | discriminate].
  - destruct (Z.eqb_spec (item_id item) i) as [E | E].
    + split; [reflexivity | ]. split; [lia | ]. intros ? [= <-]. exact E.
    + destruct IH as (IH1 & IH2 & IH3). cbn [nth_error].
      split; [exact IH1 | ]. split; [lia | exact IH3].
Qed.

Lemma Get_app_absent (items more : list T) i :
  Get items i = None -> Get (items ++ more) i = Get more i.
Proof.
  induction items as [ | item items IH]; cbn [Get app]; [reflexivity | ].
  destruct (item_id item =? i); [discriminate | exact IH].
Qed.

Lemma Get_app_present (items more : list T) i item :
  Get items i = Some item -> Get (items ++ more) i = Some item.
Proof.
  induction items as [ | item' items IH]; cbn [Get app]; [discriminate | ].
  destruct (item_id item' =? i); [auto | exact IH].
Qed.

Lemma Get_absent_ids (items : list T) i :
  Get items i = None <-> ~ In i (map item_id items).
Proof.
  induction items as [ | item items IH]; cbn [Get map In]; [tauto | ].
  destruct (Z.eqb_spec (item_id item) i) as [E | E].
  - split; [discriminate | intros Hn; exfalso; apply Hn; left; exact E].
  - rewrite IH. tauto.
Qed.

Lemma FindItem_absent (items : list T) i :
  Get items i = None -> FindItem items i = length items.
Proof.
  induction items as [ | item items IH]; cbn [Get FindItem length]; [reflexivity | ].
  destruct (item_id item =? i); [discriminate | ]. intros Hn. rewrite (IH Hn). reflexivity.
Qed.

Lemma AddItem_cases (items : list T) i :
  (Get items i = None /\
   AddItem items i = (items ++ [set_id new_item i], length items)) \/
  (exists item, Get items i = Some item /\ AddItem items i = (items, FindItem items i) /\
     nth_error items (FindItem items i) = Some item).
Proof.
  destruct (Get_FindItem items i) as (E & Hle & _). unfold AddItem.
  destruct (nth_error items (FindItem items i)) as [item | ] eqn:En.
  - right. exists item. auto.
  - left. split; [exact E | ]. rewrite (FindItem_absent items i E). reflexivity.
Qed.

Lemma FindItem_added (items : list T) i :
  Get items i = None -> FindItem (items ++ [set_id new_item i]) i = length items.
Proof.
  induction items as [ | x items IH]; cbn [app FindItem length Get].
  - intros _. rewrite item_id_set, Z.eqb_refl. reflexivity.
  - destruct (item_id x =? i); [discriminate | ]. intros Hn. rewrite (IH Hn). reflexivity.
Qed.

(** The item that [AddItem] returns is where [FindItem] finds the [id]. *)
Lemma AddItem_found (items : list T) i :
  snd (AddItem items i) = FindItem (fst (AddItem items i)) i /\
  (forall j, j <> i -> Get (fst (AddItem items i)) j = Get items j) /\
  ((Get items i = None /\ Get (fst (AddItem items i)) i = Some (set_id new_item i)) \/
   (exists item, Get items i = Some item /\ fst (AddItem items i) = items)).
Proof.
  destruct (AddItem_cases items i) as [[Habsent E] | (item & Hpresent & E & Hn)]; rewrite E;
    cbn [fst snd].
  - split; [symmetry; apply (FindItem_added items i Habsent) | ]. split.
    + intros j Hj. destruct (Get items j) as [other | ] eqn:Ej.
      * apply (Get_app_present _ _ _ _ Ej).
      * rewrite (Get_app_absent _ _ _ Ej). cbn [Get]. rewrite item_id_set.
        destruct (Z.eqb_spec i j); [congruence | reflexivity].
    + left. split; [exact Habsent | ].
      rewrite (Get_app_absent _ _ _ Habsent). cbn [Get].
      rewrite item_id_set, Z.eqb_refl. reflexivity.
  - split; [reflexivity | ]. split; [reflexivity | ]. right. exists item. auto.
Qed.

(** A change of the item found for an [id] that keeps the [id]. *)
Lemma Get_change_at (items : list T) i (change : T -> T) j :
  (forall item, item_id (change item) = item_id item) ->
  Get (change_at items (FindItem items i) change) j =
  if j =? i then match Get items i with Some item => Some (change item) | None => None end
  else Get items j.
Proof.
  intros Hid. induction items as [ | x items IH]; cbn [FindItem change_at Get].
  - destruct (j =? i); reflexivity.
  - destruct (Z.eqb_spec (item_id x) i) as [Ex | Ex]; cbn [change_at Get].
    + rewrite Hid, Ex. rewrite (Z.eqb_sym i j).
      destruct (Z.eqb_spec j i) as [-> | Hne]; [reflexivity | ].
      reflexivity.
    + rewrite IH. destruct (Z.eqb_spec (item_id x) j) as [Ej | Ej]; [ | reflexivity].
      destruct (Z.eqb_spec j i); [congruence | reflexivity].
Qed.

Lemma change_at_Forall (P : T -> Prop) (items : list T) pos (change : T -> T) :
  (forall item, P item -> P (change item)) ->
  Forall P items -> Forall P (change_at items pos change).
Proof.
  intros Hch Hall. revert pos.
  induction Hall as [ | x items Hx Hall IH]; intros [ | pos]; cbn [change_at];
    constructor; auto.
Qed.

(** X28.  [AddItem] followed by a look-up: the item that [AddItem] returns is the
    item that [Get] finds for the [id], and it carries the [id]; an [id]
    that is in the list already leaves the list as it is, an [id] that is
    not is added at the end; the look-up of every other [id] is unchanged;
    and a list without two items of the same [id] stays such a list. *)
Theorem AddItem_then_Get (items : list T) (i : Z) :
  exists item,
    nth_error (fst (AddItem items i)) (snd (AddItem items i)) = Some item /\
    Get (fst (AddItem items i)) i = Some item /\
    item_id item = i /\
    (Get items i = Some item -> fst (AddItem items i) = items) /\
    (Get items i = None -> fst (AddItem items i) = items ++ [set_id new_item i]) /\
    (forall j, j <> i -> Get (fst (AddItem items i)) j = Get items j) /\
    (List.NoDup (map item_id items) -> List.NoDup (map item_id (fst (AddItem items i)))) /\
    AddItem (fst (AddItem items i)) i = AddItem items i.
Proof.
  destruct (AddItem_cases items i) as [[Habsent E] | (item & Hpresent & E & Hn)]; rewrite E;
    cbn [fst snd].
  - exists (set_id new_item i).
    assert (Hget : Get (items ++ [set_id new_item i]) i = Some (set_id new_item i)).
    { rewrite (Get_app_absent _ _ _ Habsent). cbn [Get].
      rewrite item_id_set, Z.eqb_refl. reflexivity. }
    split; [rewrite nth_error_app2, Nat.sub_diag by lia; reflexivity | ].
    split; [exact Hget | ]. split; [apply item_id_set | ].
    split; [congruence | ]. split; [reflexivity | ]. split; [ | split].
    + intros j Hj. destruct (Get items j) as [other | ] eqn:Ej.
      * apply (Get_app_present _ _ _ _ Ej).
      * rewrite (Get_app_absent _ _ _ Ej). cbn [Get]. rewrite item_id_set.
        destruct (Z.eqb_spec i j); [congruence | reflexivity].
    + intros Hnodup. rewrite map_app. cbn [map]. rewrite item_id_set.
      apply List.NoDup_app; [exact Hnodup | constructor; [intros [] | constructor] | ].
      intros a Ha [<- | []]. apply (proj1 (Get_absent_ids items i) Habsent). exact Ha.
    + destruct (AddItem_cases (items ++ [set_id new_item i]) i)
        as [[Habs' _] | (item' & Hp' & E' & _)]; [congruence | ].
      rewrite E'. f_equal.
      clear - Habsent item_id_set. induction items as [ | x items IH]; cbn [app FindItem length Get] in *.
      * rewrite item_id_set, Z.eqb_refl. reflexivity.
      * destruct (item_id x =? i); [discriminate | ]. rewrite (IH Habsent). reflexivity.
  - exists item. destruct (Get_FindItem items i) as (_ & _ & Hid).
    split; [exact Hn | ]. split; [exact Hpresent | ]. split; [apply (Hid item Hpresent) | ].
    split; [reflexivity | ]. split; [congruence | ]. split; [reflexivity | ].
    split; [auto | exact E].
Qed.

End Items.

(** *** The specs of a station *)

Lemma write_length {A : Type} (l : list (option A)) i a : length (write l i a) = length l.
Proof.
  revert i. induction l as [ | x l IH]; intros [ | i]; cbn [write length]; auto.
Qed.

Lemma write_nth {A : Type} (l : list (option A)) i a j :
  nth_error (write l i a) j =
  if (Nat.eqb j i && Nat.ltb i (length l))%bool then Some (Some a) else nth_error l j.
Proof.
  revert i j. induction l as [ | x l IH]; intros i j.
  - cbn [write length]. destruct i; rewrite andb_false_r; reflexivity.
  - destruct i as [ | i], j as [ | j]; cbn [write nth_error length]; try reflexivity.
    rewrite IH. reflexivity.
Qed.

Lemma write_after {A : Type} (l r : list (option A)) x a :
  write (l ++ x :: r) (length l) a = l ++ Some a :: r.
Proof.
  induction l as [ | y l IH]; cbn [app length write]; [reflexivity | ].
  rewrite IH. reflexivity.
Qed.

Lemma write_Forall {A : Type} (l : list (option A)) i a :
  Forall (fun entry => entry <> None) l -> Forall (fun entry => entry <> None) (write l i a).
Proof.
  intros Hl. revert i. induction Hl as [ | x l Hx Hl IH]; intros [ | i]; cbn [write];
    constructor; auto; discriminate.
Qed.

Section Specs.

Variables STAT_CLASS_DFLT STAT_CLASS_WAYP : Z.

Local Abbreviation placeholder := (Some (mkSpec STAT_CLASS_DFLT 0)).

Lemma fill_placeholders_after count : forall (l : list (option Spec)) rest,
  fill_placeholders STAT_CLASS_DFLT (l ++ repeat None (count + rest)) (length l) count
  = l ++ repeat placeholder count ++ repeat None rest.
Proof.
  induction count as [ | count IH]; intros l rest; cbn [fill_placeholders]; [reflexivity | ].
  cbn [Nat.add repeat]. rewrite write_after.
  replace (l ++ placeholder :: repeat None (count + rest))
    with ((l ++ [placeholder]) ++ repeat None (count + rest))
    by (rewrite <- app_assoc; reflexivity).
  replace (S (length l)) with (length (l ++ [placeholder]))
    by (rewrite length_app; cbn [length]; lia).
  rewrite IH. rewrite <- app_assoc. reflexivity.
Qed.

Lemma AddSpecToStation_list st station_class station_type specindex :
  specs_ok st -> 0 <= specindex < 255 ->
  let st' := AddSpecToStation STAT_CLASS_DFLT st station_class station_type specindex in
  station_id st' = station_id st /\ airport st' = airport st /\
  (specindex < num_specs st ->
   num_specs st' = num_specs st /\
   speclist st' = write (speclist st) (Z.to_nat specindex)
                        (mkSpec station_class station_type)) /\
  (num_specs st <= specindex ->
   num_specs st' = specindex + 1 /\
   speclist st' = speclist st
                  ++ repeat placeholder (Z.to_nat (specindex - num_specs st))
                  ++ [Some (mkSpec station_class station_type)]).
Proof.
  intros [Hlen Hall] Hi. unfold AddSpecToStation.
  destruct (Z.geb_spec specindex (num_specs st)) as [Hgrow | Hin]; cbn [station_id airport num_specs speclist].
  - split; [reflexivity | ]. split; [reflexivity | ]. split; [lia | ]. intros _.
    split; [apply Z.mod_small; lia | ].
    unfold ReallocT. rewrite firstn_all2 by lia.
    replace (Z.to_nat (specindex + 1) - length (speclist st))%nat
      with (Z.to_nat (specindex - num_specs st) + 1)%nat by lia.
    replace (Z.to_nat (num_specs st)) with (length (speclist st)) by lia.
    rewrite fill_placeholders_after. cbn [repeat].
    replace (Z.to_nat specindex)
      with (length (speclist st ++ repeat placeholder (Z.to_nat (specindex - num_specs st))))
      by (rewrite length_app, repeat_length; lia).
    rewrite app_assoc, write_after, <- app_assoc. reflexivity.
  - split; [reflexivity | ]. split; [reflexivity | ]. split; [auto | lia].
Qed.

(** What [AddSpecToStation] writes, on a station whose list of specs is
    whole. *)
Lemma AddSpecToStation_written
    (st : ClipboardStation) (station_class station_type specindex : Z) :
  specs_ok st -> 0 <= specindex < 255 ->
  let st' := AddSpecToStation STAT_CLASS_DFLT st station_class station_type specindex in
  specs_ok st' /\
  num_specs st' = Z.max (num_specs st) (specindex + 1) /\
  spec_at st' specindex = Some (Some (mkSpec station_class station_type)) /\
  (forall j, 0 <= j < num_specs st -> j <> specindex -> spec_at st' j = spec_at st j) /\
  (forall j, num_specs st <= j < specindex -> spec_at st' j = Some placeholder) /\
  station_id st' = station_id st /\ airport st' = airport st.
Proof.
  intros Hst Hi st'.
  destruct (AddSpecToStation_list st station_class station_type specindex Hst Hi)
    as (Eid & Eair & Hin & Hgrow).
  fold st' in Eid, Eair, Hin, Hgrow. destruct Hst as [Hlen Hall].
  unfold specs_ok, spec_at.
  destruct (Z_lt_le_dec specindex (num_specs st)) as [Hlt | Hle].
  - destruct (Hin Hlt) as [En El]. rewrite En, El.
    split; [split; [rewrite write_length; exact Hlen | apply write_Forall; exact Hall] | ].
    split; [lia | ]. split; [ | split; [ | split; [ | auto]]].
    + rewrite write_nth, Nat.eqb_refl.
      destruct (Nat.ltb_spec (Z.to_nat specindex) (length (speclist st))); [reflexivity | lia].
    + intros j Hj Hne. rewrite write_nth.
      destruct (Nat.eqb_spec (Z.to_nat j) (Z.to_nat specindex)); [lia | reflexivity].
    + intros j Hj. lia.
  - destruct (Hgrow Hle) as [En El]. rewrite En, El.
    set (k := Z.to_nat (specindex - num_specs st)) in *.
    split; [split | ].
    + rewrite !length_app, repeat_length. cbn [length]. lia.
    + apply Forall_app. split; [exact Hall | ]. apply Forall_app. split.
      * apply List.Forall_forall. intros x Hx. apply repeat_spec in Hx. subst x. discriminate.
      * constructor; [discriminate | constructor].
    + split; [lia | ]. split; [ | split; [ | split; [ | auto]]].
      * rewrite app_assoc, nth_error_app2 by (rewrite length_app, repeat_length; lia).
        rewrite length_app, repeat_length.
        replace (Z.to_nat specindex - (length (speclist st) + k))%nat with 0%nat by lia.
        reflexivity.
      * intros j Hj Hne. rewrite nth_error_app1 by lia. reflexivity.
      * intros j Hj. rewrite nth_error_app2 by lia.
        rewrite nth_error_app1 by (rewrite repeat_length; lia).
        apply nth_error_repeat. lia.
Qed.

(** What [AddSpecToStation] has done where it returns. *)
Lemma AddSpecToStation_returns
    (st st' : ClipboardStation) (station_class station_type specindex : Z) :
  specs_ok st -> 0 <= specindex < 255 ->
  AddSpecToStation_asserting STAT_CLASS_DFLT STAT_CLASS_WAYP st
    station_class station_type specindex = Some st' ->
  specs_ok st' /\
  num_specs st' = Z.max (num_specs st) (specindex + 1) /\
  spec_at st' specindex = Some (Some (mkSpec station_class station_type)) /\
  (forall j, 0 <= j < num_specs st -> j <> specindex -> spec_at st' j = spec_at st j) /\
  (forall j, num_specs st <= j < specindex -> spec_at st' j = Some placeholder) /\
  (forall j spec, 0 <= j -> spec_at st j = Some (Some spec) ->
     spec <> mkSpec STAT_CLASS_DFLT 0 -> spec_at st' j = Some (Some spec)) /\
  (specindex = 0 ->
   station_type = 0 /\ (station_class = STAT_CLASS_DFLT \/ station_class = STAT_CLASS_WAYP)) /\
  station_id st' = station_id st /\ airport st' = airport st.
Proof.
  intros Hst Hi Hrun. unfold AddSpecToStation_asserting in Hrun.
  destruct (AddSpecToStation_asserts _ _ st _ _ _) eqn:Hasserts; [ | discriminate].
  injection Hrun as <-.
  destruct (AddSpecToStation_written st station_class station_type specindex Hst Hi)
    as (Hok & Hnum & Hat & Hother & Hnew & Hid & Hair).
  unfold AddSpecToStation_asserts in Hasserts.
  apply andb_true_iff in Hasserts. destruct Hasserts as [Hfirst Hsecond].
  split; [exact Hok | ]. split; [exact Hnum | ]. split; [exact Hat | ].
  split; [exact Hother | ]. split; [exact Hnew | ]. split; [ | split; [ | auto]].
  - intros j spec Hj Hentry Hspec.
    assert (Hjn : 0 <= j < num_specs st).
    { destruct Hst as [Hlen _]. unfold spec_at in Hentry.
      assert (Hsome : nth_error (speclist st) (Z.to_nat j) <> None) by congruence.
      apply nth_error_Some in Hsome. lia. }
    destruct (Z.eq_dec j specindex) as [-> | Hne];
      [ | rewrite (Hother j Hjn Hne); exact Hentry].
    rewrite Hat. do 2 f_equal.
    destruct (Z.geb_spec specindex (num_specs st)) as [Hge | _]; [lia | ].
    cbn [orb] in Hsecond. unfold spec_at in Hentry. rewrite Hentry in Hsecond.
    cbn [given_or_placeholder] in Hsecond.
    destruct spec as [c t]. cbn [stat_class stat_type] in Hsecond.
    apply orb_true_iff in Hsecond. destruct Hsecond as [Hsame | Hplace];
      apply andb_true_iff in Hsame || apply andb_true_iff in Hplace.
    + destruct Hsame as [Ec Et]. apply Z.eqb_eq in Ec, Et. congruence.
    + destruct Hplace as [Ec Et]. apply Z.eqb_eq in Ec, Et. subst. contradiction.
  - intros ->. unfold default_at_index_zero in Hfirst. cbn [Z.eqb negb orb] in Hfirst.
    apply andb_true_iff in Hfirst. destruct Hfirst as [Et Ec].
    apply Z.eqb_eq in Et. apply orb_true_iff in Ec.
    split; [exact Et | ]. destruct Ec as [Ec | Ec]; apply Z.eqb_eq in Ec; auto.
Qed.

(** X29.  Where [AddSpecToStation] returns (its two assertions hold), it has
    written the spec at its index and kept the list of specs whole:
    afterwards the list has [num_specs] entries, all of them written; the
    entries there were before are unchanged except the one at the index; the
    entries that had to be added below the index hold the placeholder of the
    default class; and no spec other than the placeholder has been replaced
    by another.  The spec at index 0 is of type 0 in the default class of
    stations or of waypoints. *)
Theorem AddSpecToStation_keeps_specs
    (st st' : ClipboardStation) (station_class station_type specindex : Z) :
  specs_ok st -> 0 <= specindex < 255 ->
  AddSpecToStation_asserting STAT_CLASS_DFLT STAT_CLASS_WAYP st
    station_class station_type specindex = Some st' ->
  specs_ok st' /\
  num_specs st' = Z.max (num_specs st) (specindex + 1) /\
  spec_at st' specindex = Some (Some (mkSpec station_class station_type)) /\
  (forall j, 0 <= j < num_specs st -> j <> specindex -> spec_at st' j = spec_at st j) /\
  (forall j, num_specs st <= j < specindex -> spec_at st' j = Some placeholder) /\
  (forall j spec, 0 <= j -> spec_at st j = Some (Some spec) ->
     spec <> mkSpec STAT_CLASS_DFLT 0 -> spec_at st' j = Some (Some spec)) /\
  (specindex = 0 ->
   station_type = 0 /\ (station_class = STAT_CLASS_DFLT \/ station_class = STAT_CLASS_WAYP)) /\
  station_id st' = station_id st /\ airport st' = airport st.
Proof.
  exact (AddSpecToStation_returns st st' station_class station_type specindex).
Qed.

End Specs.

Section Stations.

Variables INVALID_STATION AT_INVALID STAT_CLASS_DFLT STAT_CLASS_WAYP : Z.

Local Abbreviation kind := (station_item INVALID_STATION AT_INVALID).

(** What [AddRailPart] does to the list, on stations whose lists of specs
    are whole. *)
Lemma AddRailPart_values
    (items : list ClipboardStation) (sid station_class station_type specindex : Z) :
  Forall specs_ok items -> 0 <= specindex < 255 ->
  let items' := AddRailPart INVALID_STATION AT_INVALID STAT_CLASS_DFLT items
                  sid station_class station_type specindex in
  (exists st, @Get _ kind items' sid = Some st /\ station_id st = sid /\
     spec_at st specindex = Some (Some (mkSpec station_class station_type))) /\
  Forall specs_ok items' /\
  (forall j, j <> sid -> @Get _ kind items' j = @Get _ kind items j).
Proof.
  intros Hall Hi items'.
  assert (Hset : forall (item : ClipboardStation) i, @item_id _ kind (@set_id _ kind item i) = i)
    by reflexivity.
  destruct (@AddItem_found _ kind Hset items sid) as (Epos & Hother & Hcase).
  assert (Hnew : specs_ok (@set_id _ kind (@new_item _ kind) sid)).
  { split; [reflexivity | constructor]. }
  assert (Hall' : Forall specs_ok (fst (@AddItem _ kind items sid))).
  { destruct (@AddItem_cases _ kind items sid) as [[_ E] | (item & _ & E & _)]; rewrite E;
      cbn [fst]; [ | exact Hall].
    apply Forall_app. split; [exact Hall | constructor; [exact Hnew | constructor]]. }
  assert (Hkeeps : forall st, specs_ok st ->
            specs_ok (AddSpecToStation STAT_CLASS_DFLT st station_class station_type specindex)).
  { intros st Hst.
    destruct (AddSpecToStation_list STAT_CLASS_DFLT st station_class station_type specindex Hst Hi)
      as (_ & _ & Hin & Hgrow).
    destruct Hst as [Hlen Hwritten]. unfold specs_ok.
    destruct (Z_lt_le_dec specindex (num_specs st)) as [Hlt | Hle].
    - destruct (Hin Hlt) as [En El]. rewrite En, El.
      split; [rewrite write_length; exact Hlen | apply write_Forall; exact Hwritten].
    - destruct (Hgrow Hle) as [En El]. rewrite En, El. split.
      + rewrite !length_app, repeat_length. cbn [length]. lia.
      + apply Forall_app. split; [exact Hwritten | ]. apply Forall_app. split.
        * apply List.Forall_forall. intros x Hx. apply repeat_spec in Hx. subst x. discriminate.
        * constructor; [discriminate | constructor]. }
  assert (Hid : forall st,
            @item_id _ kind (AddSpecToStation STAT_CLASS_DFLT st station_class station_type specindex)
            = @item_id _ kind st).
  { intros st. unfold AddSpecToStation.
    destruct (specindex >=? num_specs st); reflexivity. }
  unfold items', AddRailPart.
  destruct (@AddItem _ kind items sid) as [items1 pos] eqn:Eadd. cbn [fst snd] in *.
  subst pos.
  split; [ | split].
  - rewrite (@Get_change_at _ kind items1 sid _ sid Hid), Z.eqb_refl.
    assert (Hfound : exists st, @Get _ kind items1 sid = Some st /\ specs_ok st).
    { destruct Hcase as [[_ E] | (item & Hp & E)].
      - exists (@set_id _ kind (@new_item _ kind) sid). auto.
      - subst items1. exists item. split; [exact Hp | ].
        clear - Hp Hall. induction Hall as [ | x items Hx Hall IH]; cbn [Get] in Hp;
          [discriminate | ].
        destruct (@item_id _ kind x =? sid); [inversion Hp; subst; exact Hx | auto]. }
    destruct Hfound as (st & Eget & Hst). rewrite Eget.
    destruct (@Get_FindItem _ kind items1 sid) as (_ & _ & Hsid).
    eexists. split; [reflexivity | ]. split.
    + rewrite <- (Hsid st Eget). apply Hid.
    + destruct (AddSpecToStation_list STAT_CLASS_DFLT st station_class station_type specindex
                  Hst Hi) as (_ & _ & Hin & Hgrow).
      destruct Hst as [Hlen Hwritten]. unfold spec_at.
      destruct (Z_lt_le_dec specindex (num_specs st)) as [Hlt | Hle].
      * destruct (Hin Hlt) as [_ El]. rewrite El, write_nth, Nat.eqb_refl.
        destruct (Nat.ltb_spec (Z.to_nat specindex) (length (speclist st)));
          [reflexivity | lia].
      * destruct (Hgrow Hle) as [_ El]. rewrite El.
        rewrite app_assoc, nth_error_app2 by (rewrite length_app, repeat_length; lia).
        rewrite length_app, repeat_length.
        replace (Z.to_nat specindex - _)%nat with 0%nat by lia. reflexivity.
  - apply change_at_Forall; assumption.
  - intros j Hj. rewrite (@Get_change_at _ kind items1 sid _ j Hid).
    destruct (Z.eqb_spec j sid); [contradiction | ]. apply (Hother j Hj).
Qed.

(** The station that [AddItem] returns for [AddRailPart]. *)
Lemma AddItem_station (items : list ClipboardStation) (sid : Z) :
  Forall specs_ok items ->
  exists st0,
    nth_error (fst (@AddItem _ kind items sid)) (snd (@AddItem _ kind items sid)) = Some st0 /\
    @Get _ kind (fst (@AddItem _ kind items sid)) sid = Some st0 /\
    specs_ok st0 /\
    (forall st, @Get _ kind items sid = Some st -> st = st0).
Proof.
  intros Hall.
  destruct (@AddItem_cases _ kind items sid) as [[Habsent E] | (item & Hpresent & E & Hn)];
    rewrite E; cbn [fst snd].
  - exists (@set_id _ kind (@new_item _ kind) sid).
    split; [rewrite nth_error_app2, Nat.sub_diag by lia; reflexivity | ].
    split; [ | split].
    + rewrite (@Get_app_absent _ kind _ _ _ Habsent). cbn [Get].
      change (@item_id _ kind (@set_id _ kind (@new_item _ kind) sid)) with sid.
      rewrite Z.eqb_refl. reflexivity.
    + split; [reflexivity | constructor].
    + intros st Hst. congruence.
  - exists item. split; [exact Hn | ]. split; [exact Hpresent | ]. split; [ | congruence].
    clear - Hpresent Hall. induction Hall as [ | x items Hx Hall IH]; cbn [Get] in Hpresent;
      [discriminate | ].
    destruct (@item_id _ kind x =? sid); [inversion Hpresent; subst; exact Hx | auto].
Qed.

(** X30.  Where [AddRailPart] returns (the assertions of [AddSpecToStation] hold
    on the station of the [id]), a look-up finds the station of the [id] in
    the list, created if it was not there, with the spec at the index; every
    station of the list still has a whole list of specs; the look-up of
    every other station is unchanged; and no spec of the station other than
    the placeholder has been replaced by another. *)
Theorem AddRailPart_then_Get
    (items items' : list ClipboardStation) (sid station_class station_type specindex : Z) :
  Forall specs_ok items -> 0 <= specindex < 255 ->
  AddRailPart_asserting INVALID_STATION AT_INVALID STAT_CLASS_DFLT STAT_CLASS_WAYP items
    sid station_class station_type specindex = Some items' ->
  (exists st, @Get _ kind items' sid = Some st /\ station_id st = sid /\
     spec_at st specindex = Some (Some (mkSpec station_class station_type))) /\
  Forall specs_ok items' /\
  (forall j, j <> sid -> @Get _ kind items' j = @Get _ kind items j) /\
  (forall before j spec,
     @Get _ kind items sid = Some before -> 0 <= j ->
     spec_at before j = Some (Some spec) -> spec <> mkSpec STAT_CLASS_DFLT 0 ->
     exists st, @Get _ kind items' sid = Some st /\ spec_at st j = Some (Some spec)).
Proof.
  intros Hall Hi Hrun.
  destruct (AddItem_station items sid Hall) as (st0 & Hnth & Hget & Hst0 & Hbefore).
  assert (Hset : forall (item : ClipboardStation) i, @item_id _ kind (@set_id _ kind item i) = i)
    by reflexivity.
  destruct (@AddItem_found _ kind Hset items sid) as (Epos & _ & _).
  unfold AddRailPart_asserting in Hrun.
  assert (Hvalue : @Get _ kind
                     (AddRailPart INVALID_STATION AT_INVALID STAT_CLASS_DFLT items
                        sid station_class station_type specindex) sid
                   = Some (AddSpecToStation STAT_CLASS_DFLT st0
                             station_class station_type specindex)).
  { unfold AddRailPart.
    destruct (@AddItem _ kind items sid) as [items1 pos]. cbn [fst snd] in *. subst pos.
    rewrite (@Get_change_at _ kind items1 sid _ sid), Z.eqb_refl, Hget; [reflexivity | ].
    intros st. unfold AddSpecToStation. destruct (specindex >=? num_specs st); reflexivity. }
  destruct (@AddItem _ kind items sid) as [items1 pos]. cbn [fst snd] in *.
  rewrite Hnth in Hrun.
  destruct (AddSpecToStation_asserts _ _ st0 _ _ _) eqn:Hasserts; [ | discriminate].
  injection Hrun as <-.
  destruct (AddRailPart_values items sid station_class station_type specindex Hall Hi)
    as (Hfound & Hwhole & Hother).
  split; [exact Hfound | ]. split; [exact Hwhole | ]. split; [exact Hother | ].
  intros before j spec Hb Hj Hspec Hne. rewrite (Hbefore before Hb) in Hspec.
  eexists. split; [exact Hvalue | ].
  assert (Hreturns : AddSpecToStation_asserting STAT_CLASS_DFLT STAT_CLASS_WAYP st0
                       station_class station_type specindex
                     = Some (AddSpecToStation STAT_CLASS_DFLT st0
                               station_class station_type specindex)).
  { unfold AddSpecToStation_asserting. rewrite Hasserts. reflexivity. }
  destruct (AddSpecToStation_returns STAT_CLASS_DFLT STAT_CLASS_WAYP st0 _
              station_class station_type specindex Hst0 Hi Hreturns)
    as (_ & _ & _ & _ & _ & Hkept & _).
  apply (Hkept j spec Hj Hspec Hne).
Qed.

End Stations.

Lemma AddItem_then_Get_witness :
  let kind := station_item 65535 255 in
  let items := [@set_id _ kind (@new_item _ kind) 7; @set_id _ kind (@new_item _ kind) 9] in
  exists item,
    nth_error (fst (@AddItem _ kind items 4)) (snd (@AddItem _ kind items 4)) = Some item /\
    @Get _ kind (fst (@AddItem _ kind items 4)) 4 = Some item /\
    @item_id _ kind item = 4 /\
    (@Get _ kind items 4 = Some item -> fst (@AddItem _ kind items 4) = items) /\
    (@Get _ kind items 4 = None ->
     fst (@AddItem _ kind items 4) = items ++ [@set_id _ kind (@new_item _ kind) 4]) /\
    (forall j, j <> 4 -> @Get _ kind (fst (@AddItem _ kind items 4)) j = @Get _ kind items j) /\
    (List.NoDup (map (@item_id _ kind) items) ->
     List.NoDup (map (@item_id _ kind) (fst (@AddItem _ kind items 4)))) /\
    @AddItem _ kind (fst (@AddItem _ kind items 4)) 4 = @AddItem _ kind items 4.
Proof.
  intros kind items.
  apply (@AddItem_then_Get ClipboardStation kind). intros item i. reflexivity.
Defined.

Lemma AddRailPart_then_Get_witness :
  let kind := station_item 65535 255 in
  let before := mkStation 9 (mkAirportPart 0 0 0 0 0) 2 [Some (mkSpec 0 0); Some (mkSpec 4 1)] in
  let items := [@set_id _ kind (@new_item _ kind) 7; before] in
  let items' := AddRailPart 65535 255 0 items 9 5 2 3 in
  (exists st, @Get _ kind items' 9 = Some st /\ station_id st = 9 /\
     spec_at st 3 = Some (Some (mkSpec 5 2))) /\
  Forall specs_ok items' /\
  (forall j, j <> 9 -> @Get _ kind items' j = @Get _ kind items j) /\
  (forall before j spec,
     @Get _ kind items 9 = Some before -> 0 <= j ->
     spec_at before j = Some (Some spec) -> spec <> mkSpec 0 0 ->
     exists st, @Get _ kind items' 9 = Some st /\ spec_at st j = Some (Some spec)).
Proof.
  intros kind before items items'.
  apply (AddRailPart_then_Get 65535 255 0 6 items items' 9 5 2 3).
  - constructor; [split; [reflexivity | constructor] | ].
    constructor; [ | constructor].
    split; [reflexivity | ]. constructor; [discriminate | ].
    constructor; [discriminate | constructor].
  - lia.
  - reflexivity.
Defined.

Lemma AddSpecToStation_keeps_specs_witness :
  let st := mkStation 3 (mkAirportPart 0 0 0 0 0) 2 [Some (mkSpec 0 0); Some (mkSpec 4 1)] in
  let st' := AddSpecToStation 0 st 5 2 3 in
  specs_ok st /\
  AddSpecToStation_asserting 0 6 st 5 2 3 = Some st' /\
  specs_ok st' /\
  num_specs st' = Z.max (num_specs st) (3 + 1) /\
  spec_at st' 3 = Some (Some (mkSpec 5 2)) /\
  (forall j, 0 <= j < num_specs st -> j <> 3 -> spec_at st' j = spec_at st j) /\
  (forall j, num_specs st <= j < 3 -> spec_at st' j = Some (Some (mkSpec 0 0))) /\
  (forall j spec, 0 <= j -> spec_at st j = Some (Some spec) ->
     spec <> mkSpec 0 0 -> spec_at st' j = Some (Some spec)) /\
  station_id st' = station_id st /\ airport st' = airport st.
Proof.
  intros st st'.
  assert (Hst : specs_ok st).
  { split; [reflexivity | ]. constructor; [discriminate | ].
    constructor; [discriminate | constructor]. }
  assert (Hrun : AddSpecToStation_asserting 0 6 st 5 2 3 = Some st') by reflexivity.
  destruct (AddSpecToStation_keeps_specs 0 6 st st' 5 2 3 Hst ltac:(lia) Hrun)
    as (H1 & H2 & H3 & H4 & H5 & H6 & _ & H8).
  split; [exact Hst | ]. split; [exact Hrun | ]. split; [exact H1 | ].
  split; [exact H2 | ]. split; [exact H3 | ]. split; [exact H4 | ].
  split; [exact H5 | ]. split; [exact H6 | exact H8].
Defined.

End ClipboardFacts.
